(** * Text export writer of Telegram Desktop: [export/output/export_output_text.cpp]

    A shallow embedding of the plain-text export serializer
    ([SerializeMultiline], [JoinList], [SerializeKeyValue],
    [SerializeMessage]) and of the [TextWriter] session object, together
    with the properties its specification states about them. *)

From Stdlib Require Import ZArith List Lia Bool.
From Stdlib Require Import Strings.String Strings.Byte Numbers.DecimalString.
From stdpp Require Import base option list gmap.
From Equations Require Import Equations.
Import ListNotations.
Local Open Scope Z_scope.

(** ** Byte arrays ([QByteArray]) and the Qt operations the code uses *)

Abbreviation QByteArray := (list byte).

(** A [QString] is kept as its UTF-8 encoding, so [toUtf8] is the identity
    and [isEmpty] and [+] are those of the byte sequence. *)
Abbreviation QString := (list byte).

Definition lit (s : string) : QByteArray := list_byte_of_string s.

Definition toUtf8 (s : QString) : QByteArray := s.

Definition isEmpty (a : QByteArray) : bool :=
  match a with [] => true | _ :: _ => false end.

Definition size (a : QByteArray) : Z := Z.of_nat (length a).

(** [size()] of a [std::vector]. *)
Definition size' {A : Type} (v : list A) : Z := Z.of_nat (length v).

Definition LF : byte := x0a.
Definition CR : byte := x0d.
Definition NUL : byte := x00.

(** [data[i]]: the array is followed by a terminating zero byte. *)
Definition byte_at (a : QByteArray) (i : Z) : byte :=
  if i <? 0 then NUL else nth (Z.to_nat i) a NUL.

(** Position of the first [c] in [a], counted from [i]; [-1] when absent. *)
Fixpoint find_from (c : byte) (a : QByteArray) (i : Z) : Z :=
  match a with
  | [] => -1
  | b :: a' => if Byte.eqb b c then i else find_from c a' (i + 1)
  end.

(** [QByteArray::indexOf(c, from)]: a negative [from] counts from the end. *)
Definition indexOf (a : QByteArray) (c : byte) (from : Z) : Z :=
  let from := if from <? 0 then Z.max (from + size a) 0 else from in
  find_from c (drop (Z.to_nat from) a) from.

(** The bytes of a zero-terminated C string ([qstrlen] of them). *)
Fixpoint c_str (a : QByteArray) : QByteArray :=
  match a with
  | [] => []
  | b :: a' => if Byte.eqb b NUL then [] else b :: c_str a'
  end.

(** [appendTo.append(data + offset, len)]: [len] bytes from [offset]; a
    negative [len] means "up to the terminating zero". *)
Definition append_raw (appendTo data : QByteArray) (offset len : Z)
  : QByteArray :=
  let from := drop (Z.to_nat offset) data in
  appendTo ++ (if len <? 0 then c_str from else take (Z.to_nat len) from).

(** ** The serializers *)

Section Serializer.

(** [Q_OS_WIN] selects the line terminator at build time. *)
Variable Q_OS_WIN : bool.

Definition kLineBreak : QByteArray :=
  if Q_OS_WIN then [CR; LF] else [LF].

(** One pass of the [do { ... } while (newline > 0)] body of
    [SerializeMultiline]: the new buffer, [offset] and [newline]. *)
Definition SerializeMultiline_body
    (value appendTo : QByteArray) (offset newline : Z)
  : QByteArray * Z * Z :=
  let appendTo := appendTo ++ lit "> " in
  let win := (0 <? newline) && Byte.eqb (byte_at value (newline - 1)) CR in
  let newline := if win then newline - 1 else newline in
  let appendTo := append_raw appendTo value offset (newline - offset)
                    ++ kLineBreak in
  let newline := if win then newline + 1 else newline in
  let offset := newline + 1 in
  let newline := indexOf value LF offset in
  (appendTo, offset, newline).

Equations? SerializeMultiline_loop
    (value appendTo : QByteArray) (offset newline : Z)
  : QByteArray * Z by wf (Z.to_nat (size value - newline)) lt :=
  SerializeMultiline_loop value appendTo offset newline
    with Z_lt_dec 0
           (SerializeMultiline_body value appendTo offset newline).2 := {
    | left _ :=
        let st := SerializeMultiline_body value appendTo offset newline in
        SerializeMultiline_loop value st.1.1 st.1.2 st.2
    | right _ :=
        let st := SerializeMultiline_body value appendTo offset newline in
        (st.1.1, st.1.2) }.
Proof.
  (* the next line feed, when there is one, lies after [newline] *)
  set (win := (0 <? newline) && _) in *.
  assert (Hnl : (if win then (if win then newline - 1 else newline) + 1
                 else if win then newline - 1 else newline) = newline)
    by (destruct win; lia).
  rewrite Hnl in *; clear Hnl.
  assert (Hfind : forall a i,
            find_from LF a i = -1 \/ i <= find_from LF a i < i + size a).
  { induction a as [|b a IH]; intros i; simpl; [left; reflexivity|].
    destruct (Byte.eqb b LF).
    - right; unfold size; simpl length; lia.
    - destruct (IH (i + 1)) as [->|Hr]; [left; reflexivity|].
      right; unfold size in *; simpl length; lia. }
  unfold indexOf in *.
  set (from := if newline + 1 <? 0 then _ else _) in *.
  assert (Hfrom : 0 <= from /\ newline + 1 <= from)
    by (subst from; destruct (Z.ltb_spec (newline + 1) 0); lia).
  destruct (Hfind (drop (Z.to_nat from) value) from) as [E|E];
    [rewrite E in *; lia|].
  unfold size in *; rewrite length_drop in E; lia.
Qed.

Definition SerializeMultiline
    (appendTo value : QByteArray) (newline : Z) : QByteArray :=
  let '(appendTo, offset) :=
    SerializeMultiline_loop value appendTo 0 newline in
  if size value >? offset then
    append_raw (appendTo ++ lit "> ") value offset (size value - offset)
      ++ kLineBreak
  else appendTo.

(** [JoinList]: the [while (true)] loop appends [list[counter]] and, unless
    it was the last element, the separator. *)
Fixpoint JoinList_loop (separator : QByteArray) (list : list QByteArray)
    (result : QByteArray) : QByteArray :=
  match list with
  | [] => result
  | value :: rest =>
      let result := result ++ value in
      match rest with
      | [] => result
      | _ :: _ => JoinList_loop separator rest (result ++ separator)
      end
  end.

Definition JoinList (separator : QByteArray) (list : list QByteArray)
  : QByteArray :=
  match list with
  | [] => []
  | [value] => value
  | _ => JoinList_loop separator list []
  end.

(** The local [size] of [JoinList] as [result.reserve(size)] receives it:
    [(list.size() - 1) * separator.size()] and then the size of each element
    added, in [size_t], converted to the [int] that [reserve] takes.  Only a
    list of two or more elements gets there.  ([reserve] sets the capacity
    of the array, not its bytes.) *)
Definition JoinList_size (separator : QByteArray) (list : list QByteArray)
  : Z :=
  let size_t := fun value : Z => value mod 2 ^ 64 in
  let total :=
    fold_left (fun total value => size_t (total + size value)) list
      (size_t ((size' list - 1) * size separator)) in
  (total + 2 ^ 31) mod 2 ^ 32 - 2 ^ 31.

(** One turn of the [for] loop of [SerializeKeyValue]. *)
Definition SerializeKeyValue_step
    (result : QByteArray) (entry : QByteArray * QByteArray) : QByteArray :=
  let '(key, value) := entry in
  if isEmpty value then result
  else
    let result := result ++ key in
    let newline := indexOf value LF 0 in
    if newline >=? 0 then
      SerializeMultiline (result ++ lit ":" ++ kLineBreak) value newline
    else
      result ++ lit ": " ++ value ++ kLineBreak.

Definition SerializeKeyValue (values : list (QByteArray * QByteArray))
  : QByteArray :=
  fold_left SerializeKeyValue_step values [].

Definition FormatUsername (username : QByteArray) : QByteArray :=
  if isEmpty username then username else lit "@" ++ username.

End Serializer.

(** ** The exported data ([export/data/export_data_types.h])

    Only the fields the text writer reads are kept.  Integer fields are
    [int32] values held as [Z]. *)

Module Data.

Abbreviation Utf8String := (list byte).
Abbreviation PeerId := Z.

Inductive SkipReason := SkipNone | Unavailable | FileType | FileSize.

Record File := {
  File_relativePath : QString;
  File_skipReason : SkipReason }.

Record Image := {
  Image_width : Z;
  Image_height : Z;
  Image_file : File }.

Record Photo := {
  Photo_date : Z;
  Photo_image : Image }.

Record Document := {
  Document_file : File;
  Document_mime : Utf8String;
  Document_stickerEmoji : Utf8String;
  Document_songPerformer : Utf8String;
  Document_songTitle : Utf8String;
  Document_duration : Z;
  Document_width : Z;
  Document_height : Z;
  Document_isSticker : bool;
  Document_isAnimated : bool;
  Document_isVideoMessage : bool;
  Document_isVoiceMessage : bool;
  Document_isVideoFile : bool;
  Document_isAudioFile : bool }.

Record ContactInfo := {
  ContactInfo_firstName : Utf8String;
  ContactInfo_lastName : Utf8String;
  ContactInfo_phoneNumber : Utf8String;
  ContactInfo_date : Z }.

(** A [double], kept as its 64 bits (IEEE 754 binary64). *)
Record double := { double_bits : Z }.

Record GeoPoint := {
  GeoPoint_latitude : double;
  GeoPoint_longitude : double;
  GeoPoint_valid : bool }.

Record Venue := {
  Venue_point : GeoPoint;
  Venue_title : Utf8String;
  Venue_address : Utf8String }.

Record Game := {
  Game_title : Utf8String;
  Game_description : Utf8String;
  Game_shortName : Utf8String;
  Game_botId : Z }.

Record Invoice := {
  Invoice_title : Utf8String;
  Invoice_description : Utf8String;
  Invoice_currency : Utf8String;
  Invoice_amount : Z;
  Invoice_receiptMsgId : Z }.

(** [Media::content], a variant; [MediaNone] is [base::none_type]. *)
Inductive MediaContent :=
  | MediaNone
  | MediaPhoto (photo : Photo)
  | MediaDocument (data : Document)
  | MediaContactInfo (data : ContactInfo)
  | MediaGeoPoint (data : GeoPoint)
  | MediaVenue (data : Venue)
  | MediaGame (data : Game)
  | MediaInvoice (data : Invoice)
  | UnsupportedMedia.

Record Media := {
  Media_content : MediaContent;
  Media_ttl : Z }.

Inductive DiscardReason := Unknown | Missed | Disconnect | Hangup | Busy.

Inductive SecureValueType :=
  | PersonalDetails | Passport | DriverLicense | IdentityCard
  | InternalPassport | Address | UtilityBill | BankStatement
  | RentalAgreement | PassportRegistration | TemporaryRegistration
  | Phone | Email.

(** [ServiceAction::content], a variant; [ActionNone] is [base::none_type]. *)
Inductive ActionContent :=
  | ActionNone
  | ActionChatCreate (title : Utf8String) (userIds : list Z)
  | ActionChatEditTitle (title : Utf8String)
  | ActionChatEditPhoto (photo : Photo)
  | ActionChatDeletePhoto
  | ActionChatAddUser (userIds : list Z)
  | ActionChatDeleteUser (userId : Z)
  | ActionChatJoinedByLink (inviterId : Z)
  | ActionChannelCreate (title : Utf8String)
  | ActionChatMigrateTo
  | ActionChannelMigrateFrom (title : Utf8String)
  | ActionPinMessage
  | ActionHistoryClear
  | ActionGameScore (score : Z)
  | ActionPaymentSent (currency : Utf8String) (amount : Z)
  | ActionPhoneCall (discardReason : DiscardReason) (duration : Z)
  | ActionScreenshotTaken
  | ActionCustomAction (message : Utf8String)
  | ActionBotAllowed (domain : Utf8String)
  | ActionSecureValuesSent (types : list SecureValueType).

Record Message := {
  Message_id : Z;
  Message_date : Z;
  Message_edited : Z;
  Message_fromId : Z;
  Message_forwardedFromId : PeerId;
  Message_signature : Utf8String;
  Message_viaBotId : Z;
  Message_replyToMsgId : Z;
  Message_text : Utf8String;
  Message_action : ActionContent;
  Message_media : Media }.

Record User := {
  User_info : ContactInfo;
  User_username : Utf8String;
  User_isBot : bool }.

Record Chat := {
  Chat_title : Utf8String;
  Chat_username : Utf8String }.

(** [Peer]: a variant of [User] and [Chat], with its [user()] and [chat()]
    accessors. *)
Inductive Peer := PeerUser (user : User) | PeerChat (chat : Chat).

Definition Peer_user (peer : Peer) : option User :=
  match peer with PeerUser user => Some user | PeerChat _ => None end.

Definition Peer_chat (peer : Peer) : option Chat :=
  match peer with PeerChat chat => Some chat | PeerUser _ => None end.

(** The default-constructed [User()] and [Chat()]. *)
Definition empty_ContactInfo : ContactInfo :=
  {| ContactInfo_firstName := []; ContactInfo_lastName := [];
     ContactInfo_phoneNumber := []; ContactInfo_date := 0 |}.

Definition empty_User : User :=
  {| User_info := empty_ContactInfo; User_username := [];
     User_isBot := false |}.

Definition empty_Chat : Chat :=
  {| Chat_title := []; Chat_username := [] |}.

Record PersonalInfo := {
  PersonalInfo_user : User;
  PersonalInfo_bio : Utf8String }.

Record UserpicsInfo := { UserpicsInfo_count : Z }.

Record UserpicsSlice := { UserpicsSlice_list : list Photo }.

Record ContactsList := { ContactsList_list : list ContactInfo }.

Record Session := {
  Session_platform : Utf8String;
  Session_deviceModel : Utf8String;
  Session_systemVersion : Utf8String;
  Session_applicationName : Utf8String;
  Session_applicationVersion : Utf8String;
  Session_created : Z;
  Session_lastActive : Z;
  Session_ip : Utf8String;
  Session_country : Utf8String;
  Session_region : Utf8String }.

Record SessionsList := { SessionsList_list : list Session }.

Inductive DialogType :=
  | TypeUnknown | Personal | Bot | PrivateGroup | PublicGroup
  | PrivateChannel | PublicChannel.

Record DialogInfo := {
  DialogInfo_type : DialogType;
  DialogInfo_name : Utf8String;
  DialogInfo_onlyMyMessages : bool;
  DialogInfo_relativePath : QString }.

Record DialogsInfo := { DialogsInfo_list : list DialogInfo }.

Record MessagesSlice := {
  MessagesSlice_list : list Message;
  MessagesSlice_peers : gmap PeerId Peer }.

(** Modelled from the spec: [NumberToString] of [export_data_types.h],
    "decimal formatting with optional zero-padding to N digits": the decimal
    digits of [value], filled on the left with [filler] up to [length]
    characters and never cut. *)
Definition NumberToString (value : Z) (length : Z) (filler : byte)
  : Utf8String :=
  let result := lit (NilZero.string_of_int (Z.to_int value)) in
  replicate (Z.to_nat (Z.max 0 (length - size result))) filler ++ result.

(** The call with the default [length = 0]. *)
Definition NumberToString0 (value : Z) : Utf8String :=
  NumberToString value 0 "0"%byte.

(** Modelled from the spec: the formatters and peer helpers of
    [export_data_types.h] that the writer calls ("pure, total functions,
    never fail").  The one fact used about them is "absent/zero inputs
    format to an empty token", for timestamps. *)
Class Formatters := {
  NumberToString_double : double -> Utf8String;
  FormatDateTime : Z -> Utf8String;
  FormatDateTime_zero : FormatDateTime 0 = [];
  FormatMoneyAmount : Z -> Utf8String -> Utf8String;
  FormatPhoneNumber : Utf8String -> Utf8String;
  User_name : User -> Utf8String;
  Peer_name : Peer -> Utf8String;
  UserPeerId : Z -> PeerId;
  ChatPeerId : Z -> PeerId;
  SortedContactsIndices : ContactsList -> list nat }.

(** *** One set of formatters

    Modelled from the spec: formatters that fit the descriptions above, for
    running the writer on concrete inputs.  Timestamps are shown in UTC as
    [dd.MM.yyyy hh:mm:ss]. *)

Definition two_digits (value : Z) : Utf8String :=
  NumberToString value 2 "0"%byte.

(** Day, month and year of a day number counted from 1970-01-01. *)
Definition civil_from_days (days : Z) : Z * Z * Z :=
  let z := days + 719468 in
  let era := z / 146097 in
  let doe := z - era * 146097 in
  let yoe := (doe - doe / 1460 + doe / 36524 - doe / 146096) / 365 in
  let doy := doe - (365 * yoe + yoe / 4 - yoe / 100) in
  let mp := (5 * doy + 2) / 153 in
  let d := doy - (153 * mp + 2) / 5 + 1 in
  let m := if mp <? 10 then mp + 3 else mp - 9 in
  let y := yoe + era * 400 + (if m <=? 2 then 1 else 0) in
  (d, m, y).

Definition FormatDateTime_utc (date : Z) : Utf8String :=
  if date =? 0 then []
  else
    let '(d, m, y) := civil_from_days (date / 86400) in
    let secs := date mod 86400 in
    two_digits d ++ lit "." ++ two_digits m ++ lit "."
    ++ NumberToString y 0 "0"%byte ++ lit " "
    ++ two_digits (secs / 3600) ++ lit ":"
    ++ two_digits (secs mod 3600 / 60) ++ lit ":"
    ++ two_digits (secs mod 60).

Definition FormatMoneyAmount_plain (amount : Z) (currency : Utf8String)
  : Utf8String :=
  NumberToString (amount / 100) 0 "0"%byte ++ lit "."
  ++ two_digits (amount mod 100) ++ lit " " ++ currency.

Definition FormatPhoneNumber_plain (phoneNumber : Utf8String) : Utf8String :=
  if isEmpty phoneNumber then phoneNumber else lit "+" ++ phoneNumber.

(** The exponent field and the fraction field of a [double]. *)
Definition double_exponent (value : double) : Z :=
  Z.land (Z.shiftr (double_bits value) 52) 2047.

Definition double_fraction (value : double) : Z :=
  Z.land (double_bits value) (2 ^ 52 - 1).

(** The magnitude of a finite [double] times [10^6], rounded to the nearest
    integer and on a tie to the even one: the digits that ["%f"] shows. *)
Definition double_millionths (value : double) : Z :=
  let e := double_exponent value in
  let m := double_fraction value in
  let mantissa := if e =? 0 then m else m + 2 ^ 52 in
  let exponent := if e =? 0 then -1074 else e - 1075 in
  if 0 <=? exponent then mantissa * 2 ^ exponent * 1000000
  else
    let scale := 2 ^ (- exponent) in
    let quotient := mantissa * 1000000 / scale in
    let remainder := mantissa * 1000000 mod scale in
    if 2 * remainder <? scale then quotient
    else if scale <? 2 * remainder then quotient + 1
    else if Z.even quotient then quotient
    else quotient + 1.

(** ["%f"] of a [double]: a sign, then [inf], [nan], or the integer part
    and six decimals. *)
Definition NumberToString_fixed (value : double) : Utf8String :=
  (if Z.testbit (double_bits value) 63 then lit "-" else [])
  ++ if double_exponent value =? 2047
     then if double_fraction value =? 0 then lit "inf" else lit "nan"
     else
       let scaled := double_millionths value in
       NumberToString (scaled / 1000000) 0 "0"%byte ++ lit "."
       ++ NumberToString (scaled mod 1000000) 6 "0"%byte.

Definition User_name_joined (user : User) : Utf8String :=
  let firstName := ContactInfo_firstName (User_info user) in
  let lastName := ContactInfo_lastName (User_info user) in
  if isEmpty firstName then lastName
  else if isEmpty lastName then firstName
  else firstName ++ lit " " ++ lastName.

Definition Peer_name_of (peer : Peer) : Utf8String :=
  match peer with
  | PeerUser user => User_name_joined user
  | PeerChat chat => Chat_title chat
  end.

Definition UserPeerId_shifted (userId : Z) : PeerId :=
  Z.lor (Z.shiftl 1 32) (userId mod 2 ^ 32).

Definition ChatPeerId_shifted (chatId : Z) : PeerId :=
  Z.lor (Z.shiftl 2 32) (chatId mod 2 ^ 32).

Definition SortedContactsIndices_input (data : ContactsList) : list nat :=
  seq 0 (length (ContactsList_list data)).

Definition plain_formatters : Formatters :=
  {| NumberToString_double := NumberToString_fixed;
     FormatDateTime := FormatDateTime_utc;
     FormatDateTime_zero := eq_refl;
     FormatMoneyAmount := FormatMoneyAmount_plain;
     FormatPhoneNumber := FormatPhoneNumber_plain;
     User_name := User_name_joined;
     Peer_name := Peer_name_of;
     UserPeerId := UserPeerId_shifted;
     ChatPeerId := ChatPeerId_shifted;
     SortedContactsIndices := SortedContactsIndices_input |}.

End Data.

(** ** [SerializeMessage] *)

(** The labelled values that [SerializeKeyValue] takes. *)
Abbreviation Values := (list (QByteArray * QByteArray)).

Section Message.

Import Data.

Variable Q_OS_WIN : bool.
Context {fmt : Formatters}.

Section Lambdas.

Variable message : Message.
Variable peers : gmap PeerId Peer.
Variable internalLinksDomain : QString.

Definition peer (peerId : PeerId) : Peer :=
  match peers !! peerId with
  | Some found => found
  | None => PeerUser empty_User
  end.

Definition user (userId : Z) : User :=
  match Peer_user (peer (UserPeerId userId)) with
  | Some result => result
  | None => empty_User
  end.

Definition chat (chatId : Z) : Chat :=
  match Peer_chat (peer (ChatPeerId chatId)) with
  | Some result => result
  | None => empty_Chat
  end.

Definition push (key value : QByteArray) (values : Values) : Values :=
  if isEmpty value then values else values ++ [(key, value)].

Definition wrapPeerName (peerId : PeerId) : QByteArray :=
  let result := Peer_name (peer peerId) in
  if isEmpty result then lit "(unknown peer)" else result.

Definition wrapUserName (userId : Z) : QByteArray :=
  let result := User_name (user userId) in
  if isEmpty result then lit "(unknown user)" else result.

Definition pushFrom (label : QByteArray) (values : Values) : Values :=
  if Message_fromId message =? 0 then values
  else push label (wrapUserName (Message_fromId message)) values.

Definition pushReplyToMsgId (label : QByteArray) (values : Values) : Values :=
  if Message_replyToMsgId message =? 0 then values
  else push label
         (lit "ID-" ++ NumberToString0 (Message_replyToMsgId message)) values.

Definition pushList (labelOne labelMany : QByteArray)
    (list : list QByteArray) (values : Values) : Values :=
  match list with
  | [] => values
  | [one] => push labelOne one values
  | _ => push labelMany (JoinList (lit ", ") list) values
  end.

Definition pushUserNames (data : list Z) (labelOne labelMany : QByteArray)
    (values : Values) : Values :=
  pushList labelOne labelMany (map wrapUserName data) values.

Definition pushActor (values : Values) : Values :=
  pushFrom (lit "Actor") values.

Definition pushAction (action : QByteArray) (values : Values) : Values :=
  push (lit "Action") action values.

Definition pushTTL (label : QByteArray) (values : Values) : Values :=
  let ttl := Media_ttl (Message_media message) in
  if ttl =? 0 then values
  else push label (NumberToString0 ttl ++ lit " sec.") values.

Definition FormatFilePath (file : File) : QByteArray :=
  toUtf8 (File_relativePath file).

(** [pushPath]: [None] is the failed [Expects] on a file with neither a
    path nor a skip reason. *)
Definition pushPath (file : File) (label name : QByteArray)
    (values : Values) : option Values :=
  if negb (isEmpty (File_relativePath file))
     || negb (match File_skipReason file with SkipNone => true | _ => false end)
  then
    let pre := if isEmpty name then [] else name ++ lit " " in
    Some (push label
            match File_skipReason file with
            | Unavailable => pre ++ lit "(file unavailable)"
            | FileSize => pre ++ lit "(file too large)"
            | FileType => pre ++ lit "(file skipped)"
            | SkipNone => FormatFilePath file
            end values)
  else None.

Definition pushPhoto (image : Image) (values : Values) : option Values :=
  values ← pushPath (Image_file image) (lit "Photo") [] values;
  if negb (Image_width image =? 0) && negb (Image_height image =? 0) then
    Some (push (lit "Height") (NumberToString0 (Image_height image))
            (push (lit "Width") (NumberToString0 (Image_width image)) values))
  else Some values.

Definition DiscardReasonString (reason : DiscardReason) : QByteArray :=
  match reason with
  | Busy => lit "Busy"
  | Disconnect => lit "Disconnect"
  | Hangup => lit "Hangup"
  | Missed => lit "Missed"
  | Unknown => []
  end.

Definition SecureValueTypeString (type : SecureValueType) : QByteArray :=
  match type with
  | PersonalDetails => lit "Personal details"
  | Passport => lit "Passport"
  | DriverLicense => lit "Driver license"
  | IdentityCard => lit "Identity card"
  | InternalPassport => lit "Internal passport"
  | Address => lit "Address information"
  | UtilityBill => lit "Utility bill"
  | BankStatement => lit "Bank statement"
  | RentalAgreement => lit "Rental agreement"
  | PassportRegistration => lit "Passport registration"
  | TemporaryRegistration => lit "Temporary registration"
  | Phone => lit "Phone number"
  | Email => lit "Email"
  end.

(** The arms of [message.action.content.match]. *)
Definition pushActionContent (values : Values) : option Values :=
  match Message_action message with
  | ActionChatCreate title userIds =>
      Some (pushUserNames userIds (lit "Member") (lit "Members")
              (push (lit "Title") title
                 (pushAction (lit "Create group") (pushActor values))))
  | ActionChatEditTitle title =>
      Some (push (lit "New title") title
              (pushAction (lit "Edit group title") (pushActor values)))
  | ActionChatEditPhoto photo =>
      pushPhoto (Photo_image photo)
        (pushAction (lit "Edit group photo") (pushActor values))
  | ActionChatDeletePhoto =>
      Some (pushAction (lit "Delete group photo") (pushActor values))
  | ActionChatAddUser userIds =>
      Some (pushUserNames userIds (lit "Member") (lit "Members")
              (pushAction (lit "Invite members") (pushActor values)))
  | ActionChatDeleteUser userId =>
      Some (push (lit "Member") (wrapUserName userId)
              (pushAction (lit "Remove members") (pushActor values)))
  | ActionChatJoinedByLink inviterId =>
      Some (push (lit "Inviter") (wrapUserName inviterId)
              (pushAction (lit "Join group by link") (pushActor values)))
  | ActionChannelCreate title =>
      Some (push (lit "Title") title
              (pushAction (lit "Create channel") (pushActor values)))
  | ActionChatMigrateTo =>
      Some (pushAction (lit "Migrate this group to supergroup")
              (pushActor values))
  | ActionChannelMigrateFrom title =>
      Some (push (lit "Title") title
              (pushAction (lit "Migrate this supergroup from group")
                 (pushActor values)))
  | ActionPinMessage =>
      Some (pushReplyToMsgId (lit "Message")
              (pushAction (lit "Pin message") (pushActor values)))
  | ActionHistoryClear =>
      Some (pushAction (lit "Clear history") (pushActor values))
  | ActionGameScore score =>
      Some (push (lit "Score") (NumberToString0 score)
              (pushReplyToMsgId (lit "Game message")
                 (pushAction (lit "Score in a game") (pushActor values))))
  | ActionPaymentSent currency amount =>
      Some (pushReplyToMsgId (lit "Invoice message")
              (push (lit "Amount") (FormatMoneyAmount amount currency)
                 (pushAction (lit "Send payment") values)))
  | ActionPhoneCall discardReason duration =>
      let values := pushAction (lit "Phone call") (pushActor values) in
      let values :=
        if duration =? 0 then values
        else push (lit "Duration")
               (NumberToString0 duration ++ lit " sec.") values in
      Some (push (lit "Discard reason")
              (DiscardReasonString discardReason) values)
  | ActionScreenshotTaken =>
      Some (pushAction (lit "Take screenshot") (pushActor values))
  | ActionCustomAction text =>
      Some (push (lit "Information") text (pushActor values))
  | ActionBotAllowed domain =>
      Some (push (lit "Reason")
              (lit "Login on " ++ [x22] ++ domain ++ [x22])
              (pushAction (lit "Allow sending messages") values))
  | ActionSecureValuesSent types =>
      Some (pushList (lit "Value") (lit "Values")
              (map SecureValueTypeString types)
              (pushAction (lit "Send Telegram Passport values") values))
  | ActionNone => Some values
  end.

(** The block under [if (!message.action.content)]. *)
Definition pushSender (values : Values) : Values :=
  match Message_action message with
  | ActionNone =>
      let values := pushFrom (lit "From") values in
      let values := push (lit "Author") (Message_signature message) values in
      let values :=
        if Message_forwardedFromId message =? 0 then values
        else push (lit "Forwarded from")
               (wrapPeerName (Message_forwardedFromId message)) values in
      let values := pushReplyToMsgId (lit "Reply to message") values in
      if Message_viaBotId message =? 0 then values
      else push (lit "Via")
             (User_username (user (Message_viaBotId message))) values
  | _ => values
  end.

Definition pushDocument (data : Document) (values : Values)
  : option Values :=
  let pushMyPath label := pushPath (Document_file data) label [] in
  values ←
    (if Document_isSticker data then
       values ← pushMyPath (lit "Sticker") values;
       Some (push (lit "Emoji") (Document_stickerEmoji data) values)
     else if Document_isVideoMessage data then
       pushMyPath (lit "Video message") values
     else if Document_isVoiceMessage data then
       pushMyPath (lit "Voice message") values
     else if Document_isAnimated data then
       pushMyPath (lit "Animation") values
     else if Document_isVideoFile data then
       pushMyPath (lit "Video file") values
     else if Document_isAudioFile data then
       values ← pushMyPath (lit "Audio file") values;
       Some (push (lit "Title") (Document_songTitle data)
               (push (lit "Performer") (Document_songPerformer data) values))
     else pushMyPath (lit "File") values);
  let values :=
    if Document_isSticker data then values
    else push (lit "Mime type") (Document_mime data) values in
  let values :=
    if Document_duration data =? 0 then values
    else push (lit "Duration")
           (NumberToString0 (Document_duration data) ++ lit " sec.") values in
  let values :=
    if negb (Document_width data =? 0) && negb (Document_height data =? 0)
    then push (lit "Height") (NumberToString0 (Document_height data))
           (push (lit "Width") (NumberToString0 (Document_width data)) values)
    else values in
  Some (pushTTL (lit "Self destruct period") values).

Definition SerializeGeoPoint (point : GeoPoint) : QByteArray :=
  SerializeKeyValue Q_OS_WIN [
    (lit "Latitude", NumberToString_double (GeoPoint_latitude point));
    (lit "Longitude", NumberToString_double (GeoPoint_longitude point)) ].

(** The arms of [message.media.content.match]; [None] on [UnsupportedMedia]
    is its [Unexpected]. *)
Definition pushMediaContent (values : Values) : option Values :=
  match Media_content (Message_media message) with
  | MediaPhoto photo =>
      values ← pushPhoto (Photo_image photo) values;
      Some (pushTTL (lit "Self destruct period") values)
  | MediaDocument data => pushDocument data values
  | MediaContactInfo data =>
      Some (push (lit "Contact information")
              (SerializeKeyValue Q_OS_WIN [
                 (lit "First name", ContactInfo_firstName data);
                 (lit "Last name", ContactInfo_lastName data);
                 (lit "Phone number",
                  FormatPhoneNumber (ContactInfo_phoneNumber data)) ])
              values)
  | MediaGeoPoint data =>
      Some (pushTTL (lit "Live location period")
              (push (lit "Location")
                 (if GeoPoint_valid data then SerializeGeoPoint data
                  else lit "(empty value)") values))
  | MediaVenue data =>
      let values := push (lit "Place name") (Venue_title data) values in
      let values := push (lit "Address") (Venue_address data) values in
      Some (if GeoPoint_valid (Venue_point data)
            then push (lit "Location") (SerializeGeoPoint (Venue_point data))
                   values
            else values)
  | MediaGame data =>
      let values := push (lit "Game") (Game_title data) values in
      let values := push (lit "Description") (Game_description data) values in
      Some (if negb (Game_botId data =? 0)
               && negb (isEmpty (Game_shortName data))
            then
              let bot := user (Game_botId data) in
              if User_isBot bot && negb (isEmpty (User_username bot))
              then push (lit "Link")
                     (toUtf8 internalLinksDomain ++ User_username bot
                        ++ lit "?game=" ++ Game_shortName data) values
              else values
            else values)
  | MediaInvoice data =>
      Some (push (lit "Invoice")
              (SerializeKeyValue Q_OS_WIN [
                 (lit "Title", Invoice_title data);
                 (lit "Description", Invoice_description data);
                 (lit "Amount",
                  FormatMoneyAmount (Invoice_amount data)
                    (Invoice_currency data));
                 (lit "Receipt message",
                  if Invoice_receiptMsgId data =? 0 then []
                  else lit "ID-"
                         ++ NumberToString0 (Invoice_receiptMsgId data)) ])
              values)
  | UnsupportedMedia => None
  | MediaNone => Some values
  end.

Definition kUnsupportedMessage : QByteArray :=
  lit ("Error! This message is not supported "
       ++ "by this version of Telegram Desktop. "
       ++ "Please update the application.").

(** The initializer of [values]. *)
Definition initialValues : Values := [
  (lit "ID", NumberToString0 (Message_id message));
  (lit "Date", FormatDateTime (Message_date message));
  (lit "Edited", FormatDateTime (Message_edited message)) ].

(** The [values] vector as it stands before the final [SerializeKeyValue]. *)
Definition MessageValues : option Values :=
  values ← pushActionContent initialValues;
  values ← pushMediaContent (pushSender values);
  Some (push (lit "Text") (Message_text message) values).

(** [SerializeMessage]; [None] stands for a failed [Expects] or an
    [Unexpected]. *)
Definition SerializeMessage : option QByteArray :=
  match Media_content (Message_media message) with
  | UnsupportedMedia => Some kUnsupportedMessage
  | _ => SerializeKeyValue Q_OS_WIN <$> MessageValues
  end.

End Lambdas.

End Message.

(** ** The File Sink ([export/output/export_output_file.h]) *)

Module Output.

(** Modelled from the spec: the result of a File Sink write, "returning
    success/failure". *)
Inductive Result := Success | Failure.

Definition is_Success (result : Result) : bool :=
  match result with Success => true | Failure => false end.

(** Modelled from the spec: the File Sink, "bound to an absolute path at
    construction", with the number of bytes appended through it so far. *)
Record File := {
  File_path : QString;
  File_offset : Z }.

(** One [writeBlock] call as seen from outside: the file, the bytes and the
    result the sink gave. *)
Record WriteCall := {
  WriteCall_path : QString;
  WriteCall_block : QByteArray;
  WriteCall_result : Result }.

(** The surroundings of the writer: every [writeBlock] call made so far,
    oldest first; the results the sink will give to the coming calls (a
    call past the end of the script succeeds); and the values the local
    [number] of [writeChatStart] took, which the code computes and leaves
    unused. *)
Record World := {
  World_calls : list WriteCall;
  World_script : list Result;
  World_numbers : list QByteArray }.

Definition File_empty (file : File) : bool := File_offset file =? 0.

(** Modelled from the spec: [File::writeBlock], "append arbitrary bytes,
    returning success/failure". *)
Definition File_writeBlock (file : File) (block : QByteArray) (io : World)
  : Result * File * World :=
  let result := match World_script io with
                | [] => Success
                | next :: _ => next
                end in
  let file' := if is_Success result
               then {| File_path := File_path file;
                       File_offset := File_offset file + size block |}
               else file in
  (result, file',
   {| World_calls := World_calls io
        ++ [{| WriteCall_path := File_path file;
               WriteCall_block := block;
               WriteCall_result := result |}];
      World_script := tail (World_script io);
      World_numbers := World_numbers io |}).

Record Settings := {
  Settings_path : QString;
  Settings_internalLinksDomain : QString }.

(** The members of [TextWriter]; [None] is a null [unique_ptr]. *)
Record TextWriter := {
  _settings : Settings;
  _result : option File;
  _userpicsCount : Z;
  _dialogsCount : Z;
  _dialogIndex : Z;
  _dialogOnlyMy : bool;
  _dialogEmpty : bool;
  _chat : option File }.

(** Modelled from the spec: the writer before [start] ("Idle"): no file
    open, all counters zero. *)
Definition TextWriter_new : TextWriter :=
  {| _settings := {| Settings_path := [];
                     Settings_internalLinksDomain := [] |};
     _result := None;
     _userpicsCount := 0;
     _dialogsCount := 0;
     _dialogIndex := 0;
     _dialogOnlyMy := false;
     _dialogEmpty := true;
     _chat := None |}.

Definition set_settings (v : Settings) (w : TextWriter) : TextWriter :=
  {| _settings := v; _result := _result w;
     _userpicsCount := _userpicsCount w; _dialogsCount := _dialogsCount w;
     _dialogIndex := _dialogIndex w; _dialogOnlyMy := _dialogOnlyMy w;
     _dialogEmpty := _dialogEmpty w; _chat := _chat w |}.

Definition set_result (v : option File) (w : TextWriter) : TextWriter :=
  {| _settings := _settings w; _result := v;
     _userpicsCount := _userpicsCount w; _dialogsCount := _dialogsCount w;
     _dialogIndex := _dialogIndex w; _dialogOnlyMy := _dialogOnlyMy w;
     _dialogEmpty := _dialogEmpty w; _chat := _chat w |}.

Definition set_userpicsCount (v : Z) (w : TextWriter) : TextWriter :=
  {| _settings := _settings w; _result := _result w;
     _userpicsCount := v; _dialogsCount := _dialogsCount w;
     _dialogIndex := _dialogIndex w; _dialogOnlyMy := _dialogOnlyMy w;
     _dialogEmpty := _dialogEmpty w; _chat := _chat w |}.

Definition set_dialogsCount (v : Z) (w : TextWriter) : TextWriter :=
  {| _settings := _settings w; _result := _result w;
     _userpicsCount := _userpicsCount w; _dialogsCount := v;
     _dialogIndex := _dialogIndex w; _dialogOnlyMy := _dialogOnlyMy w;
     _dialogEmpty := _dialogEmpty w; _chat := _chat w |}.

Definition set_dialogIndex (v : Z) (w : TextWriter) : TextWriter :=
  {| _settings := _settings w; _result := _result w;
     _userpicsCount := _userpicsCount w; _dialogsCount := _dialogsCount w;
     _dialogIndex := v; _dialogOnlyMy := _dialogOnlyMy w;
     _dialogEmpty := _dialogEmpty w; _chat := _chat w |}.

Definition set_dialogOnlyMy (v : bool) (w : TextWriter) : TextWriter :=
  {| _settings := _settings w; _result := _result w;
     _userpicsCount := _userpicsCount w; _dialogsCount := _dialogsCount w;
     _dialogIndex := _dialogIndex w; _dialogOnlyMy := v;
     _dialogEmpty := _dialogEmpty w; _chat := _chat w |}.

Definition set_dialogEmpty (v : bool) (w : TextWriter) : TextWriter :=
  {| _settings := _settings w; _result := _result w;
     _userpicsCount := _userpicsCount w; _dialogsCount := _dialogsCount w;
     _dialogIndex := _dialogIndex w; _dialogOnlyMy := _dialogOnlyMy w;
     _dialogEmpty := v; _chat := _chat w |}.

Definition set_chat (v : option File) (w : TextWriter) : TextWriter :=
  {| _settings := _settings w; _result := _result w;
     _userpicsCount := _userpicsCount w; _dialogsCount := _dialogsCount w;
     _dialogIndex := _dialogIndex w; _dialogOnlyMy := _dialogOnlyMy w;
     _dialogEmpty := _dialogEmpty w; _chat := v |}.

(** *** Member functions as state transformers

    A member function runs on the writer and its surroundings and either
    returns, with both updated, or stops at a failed [Expects]. *)
Inductive Outcome (A : Type) :=
  | Returned (value : A) (w : TextWriter) (io : World)
  | Faulted.
Arguments Returned {A} value w io.
Arguments Faulted {A}.

(** What a call returned, and the writer and surroundings it left; [None]
    after a fault. *)
Definition returned {A : Type} (outcome : Outcome A) : option A :=
  match outcome with
  | Returned value _ _ => Some value
  | Faulted => None
  end.

Definition writer_after {A : Type} (outcome : Outcome A)
  : option TextWriter :=
  match outcome with
  | Returned _ w _ => Some w
  | Faulted => None
  end.

Definition world_after {A : Type} (outcome : Outcome A) : option World :=
  match outcome with
  | Returned _ _ io => Some io
  | Faulted => None
  end.

Definition Op (A : Type) : Type := TextWriter -> World -> Outcome A.

Definition ret {A : Type} (value : A) : Op A :=
  fun w io => Returned value w io.

Definition bind {A B : Type} (op : Op A) (next : A -> Op B) : Op B :=
  fun w io =>
    match op w io with
    | Returned value w' io' => next value w' io'
    | Faulted => Faulted
    end.

Declare Scope op_scope.
Delimit Scope op_scope with op.
Notation "x <~ op ; next" := (bind op (fun x => next))
  (at level 20, op at level 100, next at level 200, only parsing) : op_scope.
Notation "'run' op ; next" := (bind op (fun _ => next))
  (at level 20, op at level 100, next at level 200, only parsing) : op_scope.

Definition Expects (condition : bool) : Op unit :=
  fun w io => if condition then Returned tt w io else Faulted.

Definition this : Op TextWriter := fun w io => Returned w w io.

Definition assign (update : TextWriter -> TextWriter) : Op unit :=
  fun w io => Returned tt (update w) io.

(** [file->writeBlock(block)] on a member [unique_ptr]; a null pointer is a
    fault. *)
Definition writeBlock_on (member : TextWriter -> option File)
    (store : option File -> TextWriter -> TextWriter)
    (block : QByteArray) : Op Result :=
  fun w io =>
    match member w with
    | None => Faulted
    | Some file =>
        let '(result, file', io') := File_writeBlock file block io in
        Returned result (store (Some file') w) io'
    end.

(** [file->writeBlock(block)] on a local [unique_ptr]. *)
Definition writeBlock_local (file : File) (block : QByteArray)
  : Op (Result * File) :=
  fun w io =>
    let '(result, file', io') := File_writeBlock file block io in
    Returned (result, file') w io'.

(** The value of the unused local [number] is kept for inspection. *)
Definition note_number (number : QByteArray) : Op unit :=
  fun w io =>
    Returned tt w
      {| World_calls := World_calls io;
         World_script := World_script io;
         World_numbers := World_numbers io ++ [number] |}.

End Output.

(** ** [TextWriter] *)

Section TextWriter.

Import Data Output.

Variable Q_OS_WIN : bool.
Context {fmt : Formatters}.

Local Open Scope op_scope.

Abbreviation kLineBreak' := (kLineBreak Q_OS_WIN).

(** An [int] holds 32 bits. *)
Definition int (z : Z) : Z := (z + 2 ^ 31) mod 2 ^ 32 - 2 ^ 31.

Definition endsWith (s : QString) (c : byte) : bool :=
  match last s with
  | Some b => Byte.eqb b c
  | None => false
  end.

Definition mainFileRelativePath : QString := lit "result.txt".

Definition pathWithRelativePath (w : TextWriter) (path : QString) : QString :=
  Settings_path (_settings w) ++ path.

Definition fileWithRelativePath (w : TextWriter) (path : QString)
  : Output.File :=
  {| File_path := pathWithRelativePath w path; File_offset := 0 |}.

Definition mainFilePath (w : TextWriter) : QString :=
  pathWithRelativePath w mainFileRelativePath.

Definition start (settings : Settings) : Op bool :=
  run Expects (endsWith (Settings_path settings) "/"%byte);
  run assign (set_settings settings);
  w <~ this;
  run assign (set_result (Some (fileWithRelativePath w mainFileRelativePath)));
  ret true.

Definition writePersonal (data : PersonalInfo) : Op bool :=
  w <~ this;
  run Expects (bool_decide (is_Some (_result w)));
  let info := User_info (PersonalInfo_user data) in
  let serialized :=
    lit "Personal information" ++ kLineBreak' ++ kLineBreak'
    ++ SerializeKeyValue Q_OS_WIN [
         (lit "First name", ContactInfo_firstName info);
         (lit "Last name", ContactInfo_lastName info);
         (lit "Phone number",
          FormatPhoneNumber (ContactInfo_phoneNumber info));
         (lit "Username",
          FormatUsername (User_username (PersonalInfo_user data)));
         (lit "Bio", PersonalInfo_bio data) ]
    ++ kLineBreak' in
  result <~ writeBlock_on _result set_result serialized;
  ret (is_Success result).

Definition writeUserpicsStart (data : UserpicsInfo) : Op bool :=
  w <~ this;
  run Expects (bool_decide (is_Some (_result w)));
  run assign (set_userpicsCount (UserpicsInfo_count data));
  w <~ this;
  if _userpicsCount w =? 0 then ret true
  else
    let serialized :=
      lit "Personal photos " ++ lit "("
      ++ NumberToString0 (_userpicsCount w) ++ lit ")"
      ++ kLineBreak' ++ kLineBreak' in
    result <~ writeBlock_on _result set_result serialized;
    ret (is_Success result).

(** One turn of the [for] loop of [writeUserpicsSlice]. *)
Definition writeUserpicsSlice_step (lines : QByteArray) (userpic : Photo)
  : QByteArray :=
  let lines :=
    if Photo_date userpic =? 0 then lines ++ lit "(deleted photo)"
    else
      let lines := lines ++ FormatDateTime (Photo_date userpic) ++ lit " - " in
      if isEmpty (File_relativePath (Image_file (Photo_image userpic)))
      then lines ++ lit "(file unavailable)"
      else lines
           ++ toUtf8 (File_relativePath (Image_file (Photo_image userpic))) in
  lines ++ kLineBreak'.

Definition writeUserpicsSlice (data : UserpicsSlice) : Op bool :=
  w <~ this;
  run Expects (bool_decide (is_Some (_result w)));
  run Expects (negb (bool_decide (UserpicsSlice_list data = [])));
  let lines := fold_left writeUserpicsSlice_step (UserpicsSlice_list data) [] in
  result <~ writeBlock_on _result set_result lines;
  ret (is_Success result).

Definition writeUserpicsEnd : Op bool :=
  w <~ this;
  run Expects (bool_decide (is_Some (_result w)));
  if _userpicsCount w >? 0 then
    result <~ writeBlock_on _result set_result kLineBreak';
    ret (is_Success result)
  else ret true.

Definition SerializeContact (contact : ContactInfo) : QByteArray :=
  if isEmpty (ContactInfo_firstName contact)
     && isEmpty (ContactInfo_lastName contact)
     && isEmpty (ContactInfo_phoneNumber contact)
  then lit "(deleted user)" ++ kLineBreak'
  else SerializeKeyValue Q_OS_WIN [
         (lit "First name", ContactInfo_firstName contact);
         (lit "Last name", ContactInfo_lastName contact);
         (lit "Phone number",
          FormatPhoneNumber (ContactInfo_phoneNumber contact));
         (lit "Date", FormatDateTime (ContactInfo_date contact)) ].

(** [data.list[index]] is defined for the indices of the list only; with
    another index the source has no defined behaviour, and the run is not
    followed further. *)
Definition writeContactsList (data : ContactsList) : Op bool :=
  w <~ this;
  run Expects (bool_decide (is_Some (_result w)));
  if bool_decide (ContactsList_list data = []) then ret true
  else
    let file := fileWithRelativePath w (lit "contacts.txt") in
    match mapM (fun index => ContactsList_list data !! index)
               (SortedContactsIndices data) with
    | None => fun _ _ => Faulted
    | Some contacts =>
        let list := map SerializeContact contacts in
        let full := JoinList kLineBreak' list in
        written <~ writeBlock_local file full;
        if negb (is_Success written.1) then ret false
        else
          let header :=
            lit "Contacts " ++ lit "("
            ++ NumberToString0 (size' (ContactsList_list data))
            ++ lit ") - contacts.txt" ++ kLineBreak' ++ kLineBreak' in
          result <~ writeBlock_on _result set_result header;
          ret (is_Success result)
    end.

Definition SerializeSession (session : Session) : QByteArray :=
  SerializeKeyValue Q_OS_WIN [
    (lit "Last active", FormatDateTime (Session_lastActive session));
    (lit "Last IP address", Session_ip session);
    (lit "Last country", Session_country session);
    (lit "Last region", Session_region session);
    (lit "Application name",
     if isEmpty (Session_applicationName session) then lit "(unknown)"
     else Session_applicationName session);
    (lit "Application version", Session_applicationVersion session);
    (lit "Device model", Session_deviceModel session);
    (lit "Platform", Session_platform session);
    (lit "System version", Session_systemVersion session);
    (lit "Created", FormatDateTime (Session_created session)) ].

Definition writeSessionsList (data : SessionsList) : Op bool :=
  w <~ this;
  run Expects (bool_decide (is_Some (_result w)));
  if bool_decide (SessionsList_list data = []) then ret true
  else
    let file := fileWithRelativePath w (lit "sessions.txt") in
    let list := map SerializeSession (SessionsList_list data) in
    let full := JoinList kLineBreak' list in
    written <~ writeBlock_local file full;
    if negb (is_Success written.1) then ret false
    else
      let header :=
        lit "Sessions " ++ lit "("
        ++ NumberToString0 (size' (SessionsList_list data))
        ++ lit ") - sessions.txt" ++ kLineBreak' ++ kLineBreak' in
      result <~ writeBlock_on _result set_result header;
      ret (is_Success result).

Definition TypeString (type : DialogType) : QByteArray :=
  match type with
  | TypeUnknown => lit "(unknown)"
  | Personal => lit "Personal chat"
  | Bot => lit "Bot chat"
  | PrivateGroup => lit "Private group"
  | PublicGroup => lit "Public group"
  | PrivateChannel => lit "Private channel"
  | PublicChannel => lit "Private channel"
  end.

Definition NameString (name : Utf8String) (type : DialogType) : QByteArray :=
  if negb (isEmpty name) then name
  else match type with
       | TypeUnknown => lit "(unknown)"
       | Personal => lit "(deleted user)"
       | Bot => lit "(deleted bot)"
       | PrivateGroup | PublicGroup => lit "(deleted group)"
       | PrivateChannel | PublicChannel => lit "(deleted channel)"
       end.

Definition SerializeDialog (dialog : DialogInfo) : QByteArray :=
  let path := DialogInfo_relativePath dialog ++ lit "messages.txt" in
  SerializeKeyValue Q_OS_WIN [
    (lit "Name", NameString (DialogInfo_name dialog) (DialogInfo_type dialog));
    (lit "Type", TypeString (DialogInfo_type dialog));
    (lit "Content", toUtf8 path) ].

Definition writeChatsStart (data : DialogsInfo) (listName : QByteArray)
    (fileName : QString) : Op bool :=
  w <~ this;
  run Expects (bool_decide (is_Some (_result w)));
  if bool_decide (DialogsInfo_list data = []) then ret true
  else
    run assign (set_dialogsCount (int (size' (DialogsInfo_list data))));
    let file := fileWithRelativePath w fileName in
    let list := map SerializeDialog (DialogsInfo_list data) in
    let full := JoinList kLineBreak' list in
    written <~ writeBlock_local file full;
    if negb (is_Success written.1) then ret false
    else
      let header :=
        listName ++ lit " " ++ lit "("
        ++ NumberToString0 (size' (DialogsInfo_list data)) ++ lit ") - "
        ++ toUtf8 fileName ++ kLineBreak' ++ kLineBreak' in
      result <~ writeBlock_on _result set_result header;
      ret (is_Success result).

Definition writeChatStart (data : DialogInfo) : Op bool :=
  w <~ this;
  run Expects (bool_decide (_chat w = None));
  run Expects (_dialogIndex w <? _dialogsCount w);
  let digits := size (NumberToString0 (int (_dialogsCount w - 1))) in
  run assign (set_dialogIndex (int (_dialogIndex w + 1)));
  w <~ this;
  let number := NumberToString (_dialogIndex w) digits "0"%byte in
  run note_number number;
  run assign (set_chat (Some (fileWithRelativePath w
                (DialogInfo_relativePath data ++ lit "messages.txt"))));
  run assign (set_dialogEmpty true);
  run assign (set_dialogOnlyMy (DialogInfo_onlyMyMessages data));
  ret true.

Definition writeChatSlice (data : MessagesSlice) : Op bool :=
  w <~ this;
  run Expects (bool_decide (is_Some (_chat w)));
  run Expects (negb (bool_decide (MessagesSlice_list data = [])));
  run assign (set_dialogEmpty false);
  match mapM (fun message =>
                SerializeMessage Q_OS_WIN message (MessagesSlice_peers data)
                  (Settings_internalLinksDomain (_settings w)))
             (MessagesSlice_list data) with
  | None => fun _ _ => Faulted
  | Some list =>
      let full :=
        if from_option File_empty true (_chat w)
        then JoinList kLineBreak' list
        else kLineBreak' ++ JoinList kLineBreak' list in
      result <~ writeBlock_on _chat set_chat full;
      ret (is_Success result)
  end.

Definition writeChatEnd : Op bool :=
  w <~ this;
  run Expects (bool_decide (is_Some (_chat w)));
  run (if _dialogEmpty w then
         run writeBlock_on _chat set_chat
               (if _dialogOnlyMy w
                then lit "No outgoing messages in this chat."
                else lit "No messages in this chat.");
         ret tt
       else ret tt);
  run assign (set_chat None);
  ret true.

Definition writeDialogsStart (data : DialogsInfo) : Op bool :=
  writeChatsStart data (lit "Chats") (lit "chats.txt").

Definition writeDialogStart (data : DialogInfo) : Op bool :=
  writeChatStart data.

Definition writeDialogSlice (data : MessagesSlice) : Op bool :=
  writeChatSlice data.

Definition writeDialogEnd : Op bool := writeChatEnd.

Definition writeDialogsEnd : Op bool := ret true.

Definition writeLeftChannelsStart (data : DialogsInfo) : Op bool :=
  writeChatsStart data (lit "Left chats") (lit "left_chats.txt").

Definition writeLeftChannelStart (data : DialogInfo) : Op bool :=
  writeChatStart data.

Definition writeLeftChannelSlice (data : MessagesSlice) : Op bool :=
  writeChatSlice data.

Definition writeLeftChannelEnd : Op bool := writeChatEnd.

Definition writeLeftChannelsEnd : Op bool := ret true.

Definition finish : Op bool := ret true.

(** *** Sequences of calls

    The driver calls the writer one member function at a time. *)
Inductive Call :=
  | Start (settings : Settings)
  | WritePersonal (data : PersonalInfo)
  | WriteUserpicsStart (data : UserpicsInfo)
  | WriteUserpicsSlice (data : UserpicsSlice)
  | WriteUserpicsEnd
  | WriteContactsList (data : ContactsList)
  | WriteSessionsList (data : SessionsList)
  | WriteDialogsStart (data : DialogsInfo)
  | WriteDialogStart (data : DialogInfo)
  | WriteDialogSlice (data : MessagesSlice)
  | WriteDialogEnd
  | WriteDialogsEnd
  | WriteLeftChannelsStart (data : DialogsInfo)
  | WriteLeftChannelStart (data : DialogInfo)
  | WriteLeftChannelSlice (data : MessagesSlice)
  | WriteLeftChannelEnd
  | WriteLeftChannelsEnd
  | Finish.

Definition call (c : Call) : Op bool :=
  match c with
  | Start settings => start settings
  | WritePersonal data => writePersonal data
  | WriteUserpicsStart data => writeUserpicsStart data
  | WriteUserpicsSlice data => writeUserpicsSlice data
  | WriteUserpicsEnd => writeUserpicsEnd
  | WriteContactsList data => writeContactsList data
  | WriteSessionsList data => writeSessionsList data
  | WriteDialogsStart data => writeDialogsStart data
  | WriteDialogStart data => writeDialogStart data
  | WriteDialogSlice data => writeDialogSlice data
  | WriteDialogEnd => writeDialogEnd
  | WriteDialogsEnd => writeDialogsEnd
  | WriteLeftChannelsStart data => writeLeftChannelsStart data
  | WriteLeftChannelStart data => writeLeftChannelStart data
  | WriteLeftChannelSlice data => writeLeftChannelSlice data
  | WriteLeftChannelEnd => writeLeftChannelEnd
  | WriteLeftChannelsEnd => writeLeftChannelsEnd
  | Finish => finish
  end.

(** The calls in order, each on the state the one before left; the results
    they returned. *)
Fixpoint calls (cs : list Call) : Op (list bool) :=
  match cs with
  | [] => ret []
  | c :: cs' =>
      result <~ call c;
      results <~ calls cs';
      ret (result :: results)
  end.

(** The documented protocol for the two groups of dialogs: the group's
    start with the list of all its dialogs, then for each dialog its start,
    its slices and its end, then the group's end. *)
Definition dialogs_phase (dialogs : list (DialogInfo * list MessagesSlice))
  : list Call :=
  WriteDialogsStart {| DialogsInfo_list := map fst dialogs |}
  :: flat_map (fun dialog =>
                 WriteDialogStart dialog.1
                 :: map WriteDialogSlice dialog.2 ++ [WriteDialogEnd])
       dialogs
  ++ [WriteDialogsEnd].

Definition left_channels_phase
    (dialogs : list (DialogInfo * list MessagesSlice)) : list Call :=
  WriteLeftChannelsStart {| DialogsInfo_list := map fst dialogs |}
  :: flat_map (fun dialog =>
                 WriteLeftChannelStart dialog.1
                 :: map WriteLeftChannelSlice dialog.2
                 ++ [WriteLeftChannelEnd])
       dialogs
  ++ [WriteLeftChannelsEnd].

Definition session (settings : Settings)
    (dialogs left : list (DialogInfo * list MessagesSlice)) : list Call :=
  Start settings :: dialogs_phase dialogs ++ left_channels_phase left
  ++ [Finish].

End TextWriter.

(** * The vocabulary of the properties *)

#[global] Instance byte_eq_dec : EqDecision byte := Byte.byte_eq_dec.

(** ** Lines of a value *)

(** The value cut at its line feeds: the segments that a line feed ends,
    in order and without it, and what follows the last line feed. *)
Fixpoint split_lines (value : QByteArray) : list QByteArray * QByteArray :=
  match value with
  | [] => ([], [])
  | b :: value' =>
      let '(lines, rest) := split_lines value' in
      if Byte.eqb b LF then ([] :: lines, rest)
      else match lines with
           | [] => ([], b :: rest)
           | line :: lines' => ((b :: line) :: lines', rest)
           end
  end.

Definition join_lines (lines : list QByteArray) (rest : QByteArray)
  : QByteArray :=
  concat (map (fun line => line ++ [LF]) lines) ++ rest.

(** The number of line feeds of a value. *)
Definition count_LF (value : QByteArray) : nat :=
  length (filter (fun b => b = LF) value).

(** A segment without the carriage return that ends it, if one does. *)
Definition chop_CR (line : QByteArray) : QByteArray :=
  match last line with
  | Some b => if Byte.eqb b CR then removelast line else line
  | None => line
  end.

(** The separator that followed a segment in the value: the line feed,
    with the carriage return before it if there was one. *)
Definition separator (line : QByteArray) : QByteArray :=
  match last line with
  | Some b => if Byte.eqb b CR then [CR; LF] else [LF]
  | None => [LF]
  end.

(** The lines that are expected to be quoted, and the separators the
    value had between them. *)
Definition quoted_lines (value : QByteArray) : list QByteArray :=
  let '(lines, rest) := split_lines value in
  map chop_CR lines ++ (if isEmpty rest then [] else [rest]).

Definition separators (value : QByteArray) : list QByteArray :=
  map separator (split_lines value).1.

(** Lines and separators put back together, alternating. *)
Fixpoint rejoin (lines separators : list QByteArray) : QByteArray :=
  match lines, separators with
  | line :: lines', sep :: separators' =>
      line ++ sep ++ rejoin lines' separators'
  | _, [] => concat lines
  | [], _ => concat separators
  end.

(** ** Entries of an output *)

(** A quoted line of the output. *)
Definition quote (Q_OS_WIN : bool) (line : QByteArray) : QByteArray :=
  lit "> " ++ line ++ kLineBreak Q_OS_WIN.

(** The text of one kept pair, in the spec's words: a single-line value
    gives [label: value] and the terminator; a value with a line break
    gives [label:], the terminator, and its lines quoted one by one. *)
Definition Entry (Q_OS_WIN : bool) (key value : QByteArray) : QByteArray :=
  if bool_decide (LF ∈ value)
  then key ++ lit ":" ++ kLineBreak Q_OS_WIN
       ++ concat (map (quote Q_OS_WIN) (quoted_lines value))
  else key ++ lit ": " ++ value ++ kLineBreak Q_OS_WIN.

(** The pairs that are kept: those whose value is not empty. *)
Definition kept (values : list (QByteArray * QByteArray))
  : list (QByteArray * QByteArray) :=
  filter (fun entry => entry.2 <> []) values.

(** The text of a pair that is written only when its value is not empty. *)
Definition OptionalEntry (Q_OS_WIN : bool) (key value : QByteArray)
  : QByteArray :=
  if isEmpty value then [] else Entry Q_OS_WIN key value.

Fixpoint starts_with (start line : QByteArray) : bool :=
  match start, line with
  | [], _ => true
  | b :: start', c :: line' => Byte.eqb b c && starts_with start' line'
  | _ :: _, [] => false
  end.

(** An output has an entry for a label when one of its lines starts with
    the label and a colon. *)
Definition hasEntry (label output : QByteArray) : bool :=
  let '(lines, rest) := split_lines output in
  existsb (starts_with (label ++ lit ":")) (lines ++ [rest]).

Definition is_decimal_byte (b : byte) : bool :=
  Byte.eqb b "-"%byte
  || existsb (Byte.eqb b) (lit "0123456789").

(** A file that passes the [Expects] of [pushPath]: it has a path or a
    reason for having none. *)
Definition file_ok (file : Data.File) : bool :=
  negb (isEmpty (Data.File_relativePath file))
  || negb (match Data.File_skipReason file with
           | Data.SkipNone => true
           | _ => false
           end).

(** The files that [SerializeMessage] writes the path of all pass it. *)
Definition files_ok (message : Data.Message) : bool :=
  match Data.Message_action message with
  | Data.ActionChatEditPhoto photo =>
      file_ok (Data.Image_file (Data.Photo_image photo))
  | _ => true
  end
  && match Data.Media_content (Data.Message_media message) with
     | Data.MediaPhoto photo =>
         file_ok (Data.Image_file (Data.Photo_image photo))
     | Data.MediaDocument data => file_ok (Data.Document_file data)
     | _ => true
     end.

(** A line of a block of single-line entries as it stands when the block
    is itself the value of an entry: the terminator of the build is cut
    off, and where that is a bare line feed a carriage return that ends the
    line goes with it. *)
Definition nested_line (Q_OS_WIN : bool) (entry : QByteArray * QByteArray)
  : QByteArray :=
  if Q_OS_WIN then entry.1 ++ lit ": " ++ entry.2
  else chop_CR (entry.1 ++ lit ": " ++ entry.2).

(** The labels that [SerializeMessage] gives to the sender fields of a
    message without an action. *)
Definition sender_labels : list QByteArray :=
  [lit "From"; lit "Author"; lit "Forwarded from"; lit "Reply to message";
   lit "Via"].

(** Every label of the values passes the test [ok]. *)
Definition labels_pass (ok : QByteArray -> bool) (values : Values) : Prop :=
  Forall (fun entry => ok entry.1 = true) values.

(** A label that is not one of the sender fields. *)
Definition not_sender_label (label : QByteArray) : bool :=
  bool_decide (label ∉ sender_labels).

(** The labels of the three pairs that the values of a message start
    with. *)
Definition header_labels : list QByteArray :=
  [lit "ID"; lit "Date"; lit "Edited"].

Definition not_header_label (label : QByteArray) : bool :=
  bool_decide (label ∉ header_labels).

(** The values are [before] and then pairs whose labels all pass. *)
Definition pushed_after (ok : QByteArray -> bool)
    (before values : Values) : Prop :=
  exists rest, values = before ++ rest /\ labels_pass ok rest.

(** ** The writes of the writer *)

Section WriterVocabulary.

Import Data Output.

(** The result the sink gives to the next write. *)
Definition next_result (io : World) : Result :=
  match World_script io with
  | [] => Success
  | next :: _ => next
  end.

(** The surroundings after one more write. *)
Definition after_write (path : QString) (block : QByteArray) (io : World)
  : World :=
  {| World_calls := World_calls io
       ++ [{| WriteCall_path := path;
              WriteCall_block := block;
              WriteCall_result := next_result io |}];
     World_script := tail (World_script io);
     World_numbers := World_numbers io |}.

(** The line of one userpic, in the specification's words. *)
Definition userpic_line (Q_OS_WIN : bool) {fmt : Formatters}
    (userpic : Photo) : QByteArray :=
  (if Photo_date userpic =? 0 then lit "(deleted photo)"
   else if isEmpty (File_relativePath (Image_file (Photo_image userpic)))
   then FormatDateTime (Photo_date userpic) ++ lit " - "
        ++ lit "(file unavailable)"
   else FormatDateTime (Photo_date userpic) ++ lit " - "
        ++ File_relativePath (Image_file (Photo_image userpic)))
  ++ kLineBreak Q_OS_WIN.

(** The sentence for a dialog without messages. *)
Definition empty_chat_sentence (onlyMy : bool) : QByteArray :=
  if onlyMy then lit "No outgoing messages in this chat."
  else lit "No messages in this chat.".

(** The path of the file that [writeChatStart] opens. *)
Definition chat_path (w : TextWriter) (data : DialogInfo) : QString :=
  Settings_path (_settings w) ++ DialogInfo_relativePath data
  ++ lit "messages.txt".

(** A slice call of either group of dialogs. *)
Definition is_slice (c : Call) : bool :=
  match c with
  | WriteDialogSlice _ | WriteLeftChannelSlice _ => true
  | _ => false
  end.

(** The calls for one dialog of either group: its start, its slices, its
    end. *)
Definition is_chat_start (c : Call) : bool :=
  match c with
  | WriteDialogStart _ | WriteLeftChannelStart _ => true
  | _ => false
  end.

Definition is_chat_end (c : Call) : bool :=
  match c with
  | WriteDialogEnd | WriteLeftChannelEnd => true
  | _ => false
  end.

(** Every write made between two states of the surroundings succeeded. *)
Definition all_writes_succeeded (io io' : World) : Prop :=
  exists new,
    World_calls io' = World_calls io ++ new
    /\ Forall (fun c => WriteCall_result c = Success) new.

(** The main file is open and is the one [mainFilePath] names. *)
Definition main_file_open (w : TextWriter) : Prop :=
  exists file, _result w = Some file /\ File_path file = mainFilePath w.

(** Whether a dialog file is open after the calls, when it was or was not
    before them; [None] when the calls open a dialog that is open, or write
    a slice to or close a dialog that is not. *)
Fixpoint chat_open_after (cs : list Call) (open : bool) : option bool :=
  match cs with
  | [] => Some open
  | c :: cs' =>
      if is_chat_start c then
        if open then None else chat_open_after cs' true
      else if is_chat_end c then
        if open then chat_open_after cs' false else None
      else if is_slice c then
        if open then chat_open_after cs' true else None
      else chat_open_after cs' open
  end.

(** The calls that start with [Expects(_result != nullptr)]. *)
Definition needs_main_file (c : Call) : bool :=
  match c with
  | WritePersonal _ | WriteUserpicsStart _ | WriteUserpicsSlice _
  | WriteUserpicsEnd | WriteContactsList _ | WriteSessionsList _
  | WriteDialogsStart _ | WriteLeftChannelsStart _ => true
  | _ => false
  end.

(** The serialized messages of a slice, as [writeChatSlice] collects them. *)
Definition slice_outputs (Q_OS_WIN : bool) {fmt : Formatters}
    (w : TextWriter) (data : MessagesSlice) : option (list QByteArray) :=
  mapM (fun message =>
          SerializeMessage Q_OS_WIN message (MessagesSlice_peers data)
            (Settings_internalLinksDomain (_settings w)))
       (MessagesSlice_list data).

(** A member function keeps a relation between the writer it starts on and
    the writer it leaves, whenever it returns. *)
Definition keeps {A : Type} (R : TextWriter -> TextWriter -> Prop)
    (op : Op A) : Prop :=
  forall w io value w' io',
    op w io = Returned value w' io' -> R w w'.

(** The settings are the same and an open main file is still open, on the
    same path. *)
Definition same_main (w w' : TextWriter) : Prop :=
  _settings w' = _settings w
  /\ forall file, _result w = Some file ->
       exists file', _result w' = Some file'
                     /\ File_path file' = File_path file.

(** The dialog file is left as it is. *)
Definition same_chat (w w' : TextWriter) : Prop := _chat w' = _chat w.

(** The outcome of a call that writes [full] to a file of its own at
    [path] and, only when that write succeeded, [header] to the main file
    at [main]; the call reports whether the last write it made succeeded. *)
Definition wrote_list_then_header (path : QString) (full : QByteArray)
    (main : QString) (header : QByteArray) (io : World)
    (outcome : Outcome bool) : Prop :=
  let io1 := after_write path full io in
  if is_Success (next_result io)
  then returned outcome = Some (is_Success (next_result io1))
       /\ world_after outcome = Some (after_write main header io1)
  else returned outcome = Some false /\ world_after outcome = Some io1.

(** A slice that [writeChatSlice] accepts: it has a message, and every
    message can be serialized. *)
Definition slice_accepted (Q_OS_WIN : bool) {fmt : Formatters}
    (internalLinksDomain : QString) (data : MessagesSlice) : Prop :=
  MessagesSlice_list data <> []
  /\ is_Some
       (mapM (fun message =>
                SerializeMessage Q_OS_WIN message (MessagesSlice_peers data)
                  internalLinksDomain)
             (MessagesSlice_list data)).

(** The writer between two dialogs, and inside one. *)
Definition between_dialogs (settings : Settings) (index count : Z)
    (w : TextWriter) : Prop :=
  _settings w = settings /\ is_Some (_result w) /\ _chat w = None
  /\ _dialogIndex w = index /\ _dialogsCount w = count.

Definition in_dialog (settings : Settings) (index count : Z)
    (w : TextWriter) : Prop :=
  _settings w = settings /\ is_Some (_result w) /\ is_Some (_chat w)
  /\ _dialogIndex w = index /\ _dialogsCount w = count.

(** [start(settings)]. *)
Definition is_start (c : Call) : bool :=
  match c with
  | Start _ => true
  | _ => false
  end.

(** The paths of the writer begin with [base]: its settings have this path
    and the paths of the files it has open begin with it, as strings. *)
Definition paths_begin_with (base : QString) (w : TextWriter) : Prop :=
  Settings_path (_settings w) = base
  /\ (forall file, _result w = Some file ->
        base `prefix_of` File_path file)
  /\ (forall file, _chat w = Some file ->
        base `prefix_of` File_path file).

(** The writes made from [io] to [io'] are all to paths that begin with
    [base]. *)
Definition writes_begin_with (base : QString) (io io' : World) : Prop :=
  exists new,
    World_calls io' = World_calls io ++ new
    /\ Forall (fun write => base `prefix_of` WriteCall_path write) new.

(** A member function keeps the paths of the writer beginning with [base]
    and writes to such paths only. *)
Definition keeps_paths (base : QString) {A : Type} (op : Op A) : Prop :=
  forall w io value w' io',
    paths_begin_with base w ->
    op w io = Returned value w' io' ->
    paths_begin_with base w' /\ writes_begin_with base io io'.

End WriterVocabulary.

(** ** Inputs on which the writer is run *)

(** A message of plain text, never edited. *)
Definition plain_message : Data.Message :=
  {| Data.Message_id := 7;
     Data.Message_date := 1514764800;
     Data.Message_edited := 0;
     Data.Message_fromId := 0;
     Data.Message_forwardedFromId := 0;
     Data.Message_signature := [];
     Data.Message_viaBotId := 0;
     Data.Message_replyToMsgId := 0;
     Data.Message_text := lit "hi";
     Data.Message_action := Data.ActionNone;
     Data.Message_media :=
       {| Data.Media_content := Data.MediaNone; Data.Media_ttl := 0 |} |}.

(** A service message: user 3 pinned message 5. *)
Definition pin_message : Data.Message :=
  {| Data.Message_id := 8;
     Data.Message_date := 1514764800;
     Data.Message_edited := 0;
     Data.Message_fromId := 3;
     Data.Message_forwardedFromId := 0;
     Data.Message_signature := lit "Ann";
     Data.Message_viaBotId := 0;
     Data.Message_replyToMsgId := 5;
     Data.Message_text := [];
     Data.Message_action := Data.ActionPinMessage;
     Data.Message_media :=
       {| Data.Media_content := Data.MediaNone; Data.Media_ttl := 0 |} |}.

(** The same message with media that this version does not support. *)
Definition unsupported_message : Data.Message :=
  {| Data.Message_id := 7;
     Data.Message_date := 1514764800;
     Data.Message_edited := 1514764860;
     Data.Message_fromId := 3;
     Data.Message_forwardedFromId := 0;
     Data.Message_signature := lit "Ann";
     Data.Message_viaBotId := 0;
     Data.Message_replyToMsgId := 5;
     Data.Message_text := lit "hi";
     Data.Message_action := Data.ActionHistoryClear;
     Data.Message_media :=
       {| Data.Media_content := Data.UnsupportedMedia;
          Data.Media_ttl := 10 |} |}.

Definition export_settings : Output.Settings :=
  {| Output.Settings_path := lit "/export/";
     Output.Settings_internalLinksDomain := lit "https://t.me/" |}.

Definition personal_dialog (name : string) (onlyMy : bool)
  : Data.DialogInfo :=
  {| Data.DialogInfo_type := Data.Personal;
     Data.DialogInfo_name := lit name;
     Data.DialogInfo_onlyMyMessages := onlyMy;
     Data.DialogInfo_relativePath := lit ("chats/" ++ name ++ "/") |}.

(** Surroundings in which nothing was written yet and the sink answers
    the coming writes as the script says. *)
Definition fresh_world (script : list Output.Result) : Output.World :=
  {| Output.World_calls := [];
     Output.World_script := script;
     Output.World_numbers := [] |}.

(** A writer after [start]. *)
Definition started_writer : Output.TextWriter :=
  Output.set_result
    (Some {| Output.File_path := lit "/export/result.txt";
             Output.File_offset := 0 |})
    (Output.set_settings export_settings Output.TextWriter_new).


Definition slice_of (messages : list Data.Message) : Data.MessagesSlice :=
  {| Data.MessagesSlice_list := messages; Data.MessagesSlice_peers := ∅ |}.

Definition two_dialogs : Data.DialogsInfo :=
  {| Data.DialogsInfo_list :=
       [personal_dialog "ann" true; personal_dialog "bo" false] |}.

Definition one_session : Data.Session :=
  {| Data.Session_platform := lit "Linux";
     Data.Session_deviceModel := lit "PC";
     Data.Session_systemVersion := lit "6.1";
     Data.Session_applicationName := [];
     Data.Session_applicationVersion := lit "1.3";
     Data.Session_created := 1514764800;
     Data.Session_lastActive := 1514764860;
     Data.Session_ip := lit "10.0.0.1";
     Data.Session_country := lit "NL";
     Data.Session_region := [] |}.

Definition ann_contact : Data.ContactInfo :=
  {| Data.ContactInfo_firstName := lit "Ann";
     Data.ContactInfo_lastName := [];
     Data.ContactInfo_phoneNumber := lit "3100000000";
     Data.ContactInfo_date := 1514764800 |}.

Definition deleted_contact : Data.ContactInfo :=
  {| Data.ContactInfo_firstName := [];
     Data.ContactInfo_lastName := [];
     Data.ContactInfo_phoneNumber := [];
     Data.ContactInfo_date := 0 |}.

Definition ann_personal : Data.PersonalInfo :=
  {| Data.PersonalInfo_user :=
       {| Data.User_info := ann_contact;
          Data.User_username := lit "ann";
          Data.User_isBot := false |};
     Data.PersonalInfo_bio := [] |}.

Definition one_userpic : Data.Photo :=
  {| Data.Photo_date := 1514764800;
     Data.Photo_image :=
       {| Data.Image_width := 640; Data.Image_height := 640;
          Data.Image_file :=
            {| Data.File_relativePath := lit "photos/1.jpg";
               Data.File_skipReason := Data.SkipNone |} |} |}.

Definition ten_dialogs : list (Data.DialogInfo * list Data.MessagesSlice) :=
  map (fun name => (personal_dialog name false, []))
    ["a"; "b"; "c"; "d"; "e"; "f"; "g"; "h"; "i"; "j"]%string.

(** * Properties *)

(** ** Lines of a value *)

Lemma byte_eqb_true (a b : byte) : Byte.eqb a b = true <-> a = b.
Proof. split; [apply Byte.byte_dec_bl | apply Byte.byte_dec_lb]. Qed.

Lemma byte_eqb_false (a b : byte) : Byte.eqb a b = false <-> a <> b.
Proof.
  split; [apply Byte.eqb_false|].
  intros Hne; destruct (Byte.eqb a b) eqn:E; [|reflexivity].
  apply byte_eqb_true in E; contradiction.
Qed.

Lemma join_lines_cons line lines rest :
  join_lines (line :: lines) rest = line ++ LF :: join_lines lines rest.
Proof. unfold join_lines; simpl; rewrite <- !app_assoc; reflexivity. Qed.

Lemma join_lines_nil rest : join_lines [] rest = rest.
Proof. reflexivity. Qed.

Lemma split_lines_join value :
  value = join_lines (split_lines value).1 (split_lines value).2
  /\ Forall (fun line => LF ∉ line) (split_lines value).1
  /\ LF ∉ (split_lines value).2.
Proof.
  induction value as [|b value IH]; simpl.
  - repeat split; [constructor | apply not_elem_of_nil].
  - destruct (split_lines value) as [lines rest]; simpl in IH.
    destruct IH as (Hv & Hl & Hr).
    destruct (Byte.eqb b LF) eqn:E.
    + apply byte_eqb_true in E; subst b; simpl.
      split; [rewrite Hv at 1; reflexivity | split; [|exact Hr]].
      constructor; [apply not_elem_of_nil | exact Hl].
    + apply byte_eqb_false in E.
      destruct lines as [|line lines]; simpl.
      * split; [rewrite Hv at 1; reflexivity | split; [constructor|]].
        rewrite not_elem_of_cons; split; [congruence | exact Hr].
      * inversion Hl as [|? ? Hline Hlines]; subst.
        split; [reflexivity | split; [|exact Hr]].
        constructor; [|exact Hlines].
        rewrite not_elem_of_cons; split; [congruence | exact Hline].
Qed.

Lemma split_lines_count value :
  length (split_lines value).1 = count_LF value.
Proof.
  unfold count_LF; induction value as [|b value IH]; simpl; [reflexivity|].
  destruct (split_lines value) as [lines rest]; simpl in IH.
  destruct (Byte.eqb b LF) eqn:E.
  - apply byte_eqb_true in E; subst b.
    rewrite filter_cons_True by reflexivity; simpl; congruence.
  - apply byte_eqb_false in E.
    rewrite filter_cons_False by exact E.
    destruct lines; simpl in *; exact IH.
Qed.

Lemma chop_CR_separator line : chop_CR line ++ separator line = line ++ [LF].
Proof.
  unfold chop_CR, separator.
  destruct (last line) as [b|] eqn:El; [|reflexivity].
  destruct (Byte.eqb b CR) eqn:E; [|reflexivity].
  apply byte_eqb_true in E; subst b.
  apply last_Some in El as [line' ->].
  rewrite removelast_last, <- app_assoc; reflexivity.
Qed.

Lemma rejoin_lines lines rest :
  rejoin (map chop_CR lines ++ (if isEmpty rest then [] else [rest]))
         (map separator lines)
  = join_lines lines rest.
Proof.
  unfold join_lines; induction lines as [|line lines IH]; simpl.
  - destruct rest; simpl; [reflexivity | rewrite app_nil_r; reflexivity].
  - rewrite IH, !app_assoc, chop_CR_separator; reflexivity.
Qed.

(** ** The loop of [SerializeMultiline] *)

Section SerializerFacts.

Variable Q_OS_WIN : bool.

Lemma SerializeMultiline_loop_eqn value appendTo offset newline :
  SerializeMultiline_loop Q_OS_WIN value appendTo offset newline =
  let st := SerializeMultiline_body Q_OS_WIN value appendTo offset newline in
  if Z_lt_dec 0 st.2
  then SerializeMultiline_loop Q_OS_WIN value st.1.1 st.1.2 st.2
  else (st.1.1, st.1.2).
Proof.
  simp SerializeMultiline_loop; cbv zeta.
  destruct (Z_lt_dec 0 _); reflexivity.
Qed.

Lemma find_from_absent c a i : c ∉ a -> find_from c a i = -1.
Proof.
  revert i; induction a as [|b a IH]; intros i Hc; simpl; [reflexivity|].
  apply not_elem_of_cons in Hc as [Hb Ha].
  assert (E : Byte.eqb b c = false) by (apply byte_eqb_false; congruence).
  rewrite E; apply IH, Ha.
Qed.

Lemma find_from_found c seg rest i :
  c ∉ seg -> find_from c (seg ++ c :: rest) i = i + size seg.
Proof.
  revert i; induction seg as [|b seg IH]; intros i Hc; simpl.
  - assert (E : Byte.eqb c c = true) by (apply byte_eqb_true; reflexivity).
    rewrite E; unfold size; simpl; lia.
  - apply not_elem_of_cons in Hc as [Hb Hs].
    assert (E : Byte.eqb b c = false) by (apply byte_eqb_false; congruence).
    rewrite E, IH by exact Hs; unfold size; simpl length; lia.
Qed.

Lemma indexOf_after pre rest c :
  indexOf (pre ++ rest) c (size pre) = find_from c rest (size pre).
Proof.
  unfold indexOf, size.
  destruct (Z.ltb_spec (Z.of_nat (length pre)) 0); [lia|].
  rewrite Nat2Z.id, drop_app_length; reflexivity.
Qed.

Lemma append_raw_segment appendTo pre seg rest :
  append_raw appendTo (pre ++ seg ++ rest) (size pre) (size seg)
  = appendTo ++ seg.
Proof.
  unfold append_raw, size.
  destruct (Z.ltb_spec (Z.of_nat (length seg)) 0); [lia|].
  rewrite !Nat2Z.id, drop_app_length, take_app_length; reflexivity.
Qed.

Lemma byte_at_last pre b rest :
  byte_at ((pre ++ [b]) ++ rest) (size (pre ++ [b]) - 1) = b.
Proof.
  unfold byte_at, size; rewrite length_app; simpl length.
  destruct (Z.ltb_spec (Z.of_nat (length pre + 1) - 1) 0); [lia|].
  replace (Z.to_nat (Z.of_nat (length pre + 1) - 1)) with (length pre) by lia.
  rewrite <- !app_assoc; simpl.
  rewrite app_nth2 by lia; rewrite Nat.sub_diag; reflexivity.
Qed.

(** The bytes that one pass of the loop copies when it stands at the start
    of a segment that a line feed ends: the segment without a closing
    carriage return. *)
Lemma SerializeMultiline_body_line value appendTo pre seg rest :
  value = pre ++ seg ++ LF :: rest ->
  LF ∉ seg ->
  pre = [] \/ last pre = Some LF ->
  SerializeMultiline_body Q_OS_WIN value appendTo
    (size pre) (size pre + size seg)
  = (appendTo ++ lit "> " ++ chop_CR seg ++ kLineBreak Q_OS_WIN,
     size (pre ++ seg ++ [LF]),
     find_from LF rest (size (pre ++ seg ++ [LF]))).
Proof.
  intros Hv Hseg Hpre.
  unfold SerializeMultiline_body.
  set (win := _ && _).
  assert (Hwin : win = match last seg with
                       | Some b => Byte.eqb b CR
                       | None => false
                       end).
  { subst win.
    destruct (last seg) as [b|] eqn:El.
    - apply last_Some in El as [seg' ->].
      replace (size pre + size (seg' ++ [b]) - 1)
        with (size ((pre ++ seg') ++ [b]) - 1)
        by (unfold size; rewrite !length_app; simpl; lia).
      rewrite Hv.
      replace (pre ++ (seg' ++ [b]) ++ LF :: rest)
        with (((pre ++ seg') ++ [b]) ++ LF :: rest)
        by (rewrite <- !app_assoc; reflexivity).
      rewrite byte_at_last.
      replace (0 <? size pre + size (seg' ++ [b])) with true; [reflexivity|].
      symmetry; apply Z.ltb_lt; unfold size; rewrite length_app; simpl; lia.
    - apply last_None in El; subst seg.
      replace (size pre + size []) with (size pre) by (unfold size; simpl; lia).
      destruct Hpre as [->|Hl]; [reflexivity|].
      apply last_Some in Hl as [pre' ->].
      rewrite Hv; simpl app.
      rewrite byte_at_last.
      rewrite andb_false_r; reflexivity. }
  assert (Hnl : (if win then (if win then size pre + size seg - 1
                              else size pre + size seg) + 1
                 else if win then size pre + size seg - 1
                      else size pre + size seg)
                = size pre + size seg) by (destruct win; lia).
  rewrite Hnl.
  replace (size pre + size seg + 1) with (size (pre ++ seg ++ [LF]))
    by (unfold size; rewrite !length_app; simpl; lia).
  f_equal; [f_equal|].
  - assert (Hcopy :
      append_raw (appendTo ++ lit "> ") value (size pre)
        ((if win then size pre + size seg - 1 else size pre + size seg)
         - size pre)
      = (appendTo ++ lit "> ") ++ chop_CR seg).
    { unfold chop_CR; rewrite Hwin.
      destruct (last seg) as [b|] eqn:El.
      - destruct (Byte.eqb b CR) eqn:Eb.
        + apply last_Some in El as [seg' ->].
          rewrite removelast_last, Hv.
          replace (size pre + size (seg' ++ [b]) - 1 - size pre)
            with (size seg') by (unfold size; rewrite length_app; simpl; lia).
          rewrite <- (app_assoc seg').
          apply append_raw_segment.
        + replace (size pre + size seg - size pre) with (size seg) by lia.
          rewrite Hv; apply append_raw_segment.
      - replace (size pre + size seg - size pre) with (size seg) by lia.
        rewrite Hv; apply append_raw_segment. }
    rewrite Hcopy, <- !app_assoc; reflexivity.
  - rewrite Hv.
    replace (pre ++ seg ++ LF :: rest) with ((pre ++ seg ++ [LF]) ++ rest)
      by (rewrite <- !app_assoc; reflexivity).
    apply indexOf_after.
Qed.

Lemma SerializeMultiline_loop_lines lines :
  forall value seg pre rest appendTo,
    Forall (fun line => LF ∉ line) (seg :: lines) ->
    LF ∉ rest ->
    pre = [] \/ last pre = Some LF ->
    value = pre ++ join_lines (seg :: lines) rest ->
    SerializeMultiline_loop Q_OS_WIN value appendTo
      (size pre) (size pre + size seg)
    = (appendTo ++ concat (map (quote Q_OS_WIN) (map chop_CR (seg :: lines))),
       size value - size rest).
Proof.
  induction lines as [|line lines IH];
    intros value seg pre rest appendTo Hlines Hrest Hpre Hv;
    inversion Hlines as [|? ? Hseg Hlines']; subst.
  - rewrite SerializeMultiline_loop_eqn.
    rewrite (SerializeMultiline_body_line _ _ pre seg rest);
      [|rewrite join_lines_cons, join_lines_nil; reflexivity
       |exact Hseg|exact Hpre].
    cbv zeta; cbn [fst snd].
    rewrite find_from_absent by exact Hrest.
    destruct (Z_lt_dec 0 (-1)) as [Hlt|_]; [lia|].
    f_equal.
    + simpl; unfold quote; rewrite app_nil_r; reflexivity.
    + rewrite join_lines_cons, join_lines_nil; unfold size.
      rewrite !length_app; simpl; lia.
  - inversion Hlines' as [|? ? Hline Hlines'']; subst.
    rewrite SerializeMultiline_loop_eqn.
    rewrite (SerializeMultiline_body_line _ _ pre seg
               (line ++ LF :: join_lines lines rest));
      [|rewrite !join_lines_cons; reflexivity
       |exact Hseg|exact Hpre].
    cbv zeta; cbn [fst snd].
    rewrite find_from_found by exact Hline.
    destruct (Z_lt_dec 0 _) as [_|Hge];
      [|exfalso; apply Hge; unfold size; rewrite !length_app; simpl; lia].
    rewrite (IH _ line (pre ++ seg ++ [LF]) rest); [|exact Hlines'|exact Hrest| |].
    + f_equal.
      change (map (quote Q_OS_WIN) (map chop_CR (seg :: line :: lines)))
        with (quote Q_OS_WIN (chop_CR seg) :: map (quote Q_OS_WIN) (map chop_CR (line :: lines))).
      rewrite concat_cons; unfold quote at 2.
      rewrite <- !app_assoc; reflexivity.
    + right; rewrite !app_assoc; apply last_snoc.
    + rewrite !join_lines_cons, <- !app_assoc; reflexivity.
Qed.

(** [SerializeMultiline], called as [SerializeKeyValue] calls it, appends
    the quoted lines of the value. *)
Lemma SerializeMultiline_quoted appendTo value :
  LF ∈ value ->
  SerializeMultiline Q_OS_WIN appendTo value (indexOf value LF 0)
  = appendTo ++ concat (map (quote Q_OS_WIN) (quoted_lines value)).
Proof.
  intros Hin.
  destruct (split_lines_join value) as (Hv & Hlines & Hrest).
  unfold quoted_lines.
  destruct (split_lines value) as [lines rest]; simpl in Hv, Hlines, Hrest.
  destruct lines as [|seg lines].
  { exfalso; apply Hrest; rewrite join_lines_nil in Hv; congruence. }
  pose proof (Forall_inv Hlines) as Hseg; simpl in Hseg.
  assert (Hidx : indexOf value LF 0 = size [] + size seg).
  { rewrite Hv; change 0 with (size (@nil byte)) at 1.
    change (join_lines (seg :: lines) rest)
      with ([] ++ join_lines (seg :: lines) rest).
    rewrite indexOf_after, join_lines_cons.
    apply find_from_found, Hseg. }
  unfold SerializeMultiline.
  rewrite Hidx; change 0 with (size (@nil byte)) at 1.
  rewrite (SerializeMultiline_loop_lines lines value seg [] rest);
    [|exact Hlines|exact Hrest|left; reflexivity|exact Hv].
  destruct rest as [|b rest].
  - rewrite Z.gtb_ltb.
    destruct (Z.ltb_spec (size value - size []) (size value)) as [Hlt|_];
      [unfold size in Hlt; simpl in Hlt; lia|].
    simpl; rewrite app_nil_r; reflexivity.
  - rewrite Z.gtb_ltb.
    destruct (Z.ltb_spec (size value - size (b :: rest)) (size value))
      as [_|Hge]; [|unfold size in Hge; simpl in Hge; lia].
    set (body := concat (map (quote Q_OS_WIN) (seg :: lines))).
    assert (Hcopy : forall acc,
      append_raw acc value (size value - size (b :: rest))
        (size value - (size value - size (b :: rest)))
      = acc ++ b :: rest).
    { intros acc.
      replace (size value - (size value - size (b :: rest)))
        with (size (b :: rest)) by lia.
      pose proof (append_raw_segment acc
        (concat (map (fun line => line ++ [LF]) (seg :: lines)))
        (b :: rest) []) as Hraw.
      rewrite app_nil_r in Hraw.
      replace (size value - size (b :: rest))
        with (size (concat (map (fun line => line ++ [LF]) (seg :: lines))))
        by (rewrite Hv; unfold join_lines, size;
            rewrite length_app; lia).
      rewrite Hv at 1; exact Hraw. }
    rewrite Hcopy, map_app, concat_app.
    change (concat (map (quote Q_OS_WIN) (if isEmpty (b :: rest) then [] else [b :: rest])))
      with (quote Q_OS_WIN (b :: rest) ++ []).
    rewrite app_nil_r; unfold quote at 3; rewrite <- !app_assoc; reflexivity.
Qed.

Lemma count_LF_elem value : (1 <= count_LF value)%nat <-> LF ∈ value.
Proof.
  unfold count_LF; induction value as [|b value IH]; simpl.
  - split; [lia | intros H; inversion H].
  - destruct (decide (b = LF)) as [->|Hne].
    + rewrite filter_cons_True by reflexivity; simpl.
      split; [intros _; apply elem_of_cons; left; reflexivity | lia].
    + rewrite filter_cons_False by exact Hne.
      rewrite elem_of_cons, IH; split; [tauto | intros [E|H]; congruence].
Qed.

Lemma indexOf_absent value : LF ∉ value -> indexOf value LF 0 = -1.
Proof. intros H; unfold indexOf; simpl; apply find_from_absent, H. Qed.

Lemma find_from_present c a i : c ∈ a -> i <= find_from c a i.
Proof.
  revert i; induction a as [|b a IH]; intros i Hc; simpl.
  - inversion Hc.
  - destruct (Byte.eqb b c) eqn:Eb; [lia|].
    apply byte_eqb_false in Eb.
    apply elem_of_cons in Hc as [E|Hc]; [congruence|].
    specialize (IH (i + 1) Hc); lia.
Qed.

Lemma indexOf_present value : LF ∈ value -> 0 <= indexOf value LF 0.
Proof. intros H; unfold indexOf; simpl; apply find_from_present, H. Qed.

Lemma SerializeKeyValue_step_entry result key value :
  SerializeKeyValue_step Q_OS_WIN result (key, value)
  = result ++ (if isEmpty value then [] else Entry Q_OS_WIN key value).
Proof.
  unfold SerializeKeyValue_step, Entry.
  destruct (isEmpty value); [rewrite app_nil_r; reflexivity|].
  cbv zeta.
  destruct (bool_decide_reflect (LF ∈ value)) as [Hin|Hout].
  - pose proof (indexOf_present value Hin) as Hge.
    destruct (Z.geb_spec (indexOf value LF 0) 0) as [_|Hlt]; [|lia].
    rewrite SerializeMultiline_quoted by exact Hin.
    rewrite <- !app_assoc; reflexivity.
  - rewrite (indexOf_absent value Hout).
    destruct (Z.geb_spec (-1) 0) as [Hge|_]; [lia|].
    rewrite <- !app_assoc; reflexivity.
Qed.

Lemma SerializeKeyValue_fold values result :
  fold_left (SerializeKeyValue_step Q_OS_WIN) values result
  = result ++ concat (map (fun entry => Entry Q_OS_WIN entry.1 entry.2) (kept values)).
Proof.
  unfold kept; revert result.
  induction values as [|[key value] values IH]; intros result;
    cbn [fold_left].
  - simpl; rewrite app_nil_r; reflexivity.
  - rewrite IH, SerializeKeyValue_step_entry.
    destruct value as [|b value]; cbn [isEmpty].
    + rewrite filter_cons_False by (simpl; congruence).
      rewrite app_nil_r; reflexivity.
    + rewrite filter_cons_True by (simpl; congruence).
      cbn [map concat fst snd]; rewrite <- app_assoc; reflexivity.
Qed.

Lemma SerializeKeyValue_app values1 values2 :
  SerializeKeyValue Q_OS_WIN (values1 ++ values2)
  = SerializeKeyValue Q_OS_WIN values1 ++ SerializeKeyValue Q_OS_WIN values2.
Proof.
  unfold SerializeKeyValue.
  rewrite fold_left_app, (SerializeKeyValue_fold values2).
  rewrite (SerializeKeyValue_fold values2 []); reflexivity.
Qed.

Lemma split_lines_rest_nil value :
  LF ∈ value -> ((split_lines value).2 = [] <-> last value = Some LF).
Proof.
  intros Hin.
  destruct (split_lines_join value) as (Hv & Hlines & Hrest).
  destruct (split_lines value) as [lines rest]; simpl in *.
  destruct rest as [|b rest].
  - split; [intros _|reflexivity].
    destruct lines as [|line lines _] using rev_ind.
    + rewrite join_lines_nil in Hv; subst value; inversion Hin.
    + rewrite Hv; unfold join_lines.
      rewrite map_app, concat_app; simpl.
      rewrite !app_nil_r, app_assoc; apply last_snoc.
  - split; [discriminate|intros Hlast; exfalso].
    rewrite Hv in Hlast; unfold join_lines in Hlast.
    rewrite last_app in Hlast.
    destruct (last (b :: rest)) as [c|] eqn:El.
    + injection Hlast as ->.
      apply Hrest; apply last_Some in El as [l' ->].
      apply elem_of_app; right; apply elem_of_cons; left; reflexivity.
    + apply last_None in El; discriminate.
Qed.

End SerializerFacts.

(** ** [SerializeMessage] only adds to [values] *)

Section MessageFacts.

Import Data.

Variable Q_OS_WIN : bool.
Context {fmt : Formatters}.
Variable message : Message.
Variable peers : gmap PeerId Peer.
Variable internalLinksDomain : QString.

Create HintDb pushes.

Lemma push_keeps key value (before values : Values) :
  before `prefix_of` values -> before `prefix_of` push key value values.
Proof.
  intros H; unfold push; destruct (isEmpty value); [exact H|].
  etrans; [exact H | apply prefix_app_r; reflexivity].
Qed.

Lemma pushFrom_keeps label (before values : Values) :
  before `prefix_of` values ->
  before `prefix_of` pushFrom message peers label values.
Proof.
  intros H; unfold pushFrom; destruct (_ =? _); [exact H|].
  apply push_keeps, H.
Qed.

Lemma pushReplyToMsgId_keeps label (before values : Values) :
  before `prefix_of` values ->
  before `prefix_of` pushReplyToMsgId message label values.
Proof.
  intros H; unfold pushReplyToMsgId; destruct (_ =? _); [exact H|].
  apply push_keeps, H.
Qed.

Lemma pushList_keeps labelOne labelMany list (before values : Values) :
  before `prefix_of` values ->
  before `prefix_of` pushList labelOne labelMany list values.
Proof.
  intros H; unfold pushList.
  destruct list as [|one [|two list]]; [exact H| |]; apply push_keeps, H.
Qed.

Lemma pushTTL_keeps label (before values : Values) :
  before `prefix_of` values ->
  before `prefix_of` pushTTL message label values.
Proof.
  intros H; unfold pushTTL; cbv zeta; destruct (_ =? _); [exact H|].
  apply push_keeps, H.
Qed.

Hint Resolve push_keeps pushFrom_keeps pushReplyToMsgId_keeps
  pushList_keeps pushTTL_keeps : pushes.

Lemma pushPath_keeps file label name (before values values' : Values) :
  before `prefix_of` values ->
  pushPath file label name values = Some values' ->
  before `prefix_of` values'.
Proof.
  intros H; unfold pushPath; destruct (_ || _); [|discriminate].
  intros [= <-]; auto with pushes.
Qed.

Lemma pushPhoto_keeps image (before values values' : Values) :
  before `prefix_of` values ->
  pushPhoto image values = Some values' ->
  before `prefix_of` values'.
Proof.
  intros H; unfold pushPhoto.
  destruct (pushPath _ _ _ values) as [values1|] eqn:E; [|discriminate].
  pose proof (pushPath_keeps _ _ _ _ _ _ H E) as H1; simpl.
  destruct (_ && _); intros [= <-]; auto with pushes.
Qed.

Lemma pushActionContent_keeps (before values values' : Values) :
  before `prefix_of` values ->
  pushActionContent message peers values = Some values' ->
  before `prefix_of` values'.
Proof.
  intros H; unfold pushActionContent, pushActor, pushAction, pushUserNames.
  destruct (Message_action message);
    try (intros [= <-]; cbv zeta; repeat destruct (_ =? _);
         auto 10 with pushes).
  apply pushPhoto_keeps; auto with pushes.
Qed.

Lemma pushSender_keeps (before values : Values) :
  before `prefix_of` values ->
  before `prefix_of` pushSender message peers values.
Proof.
  intros H; unfold pushSender.
  destruct (Message_action message); try exact H.
  cbv zeta; repeat destruct (_ =? _); auto 10 with pushes.
Qed.

Lemma pushDocument_keeps data (before values values' : Values) :
  before `prefix_of` values ->
  pushDocument message data values = Some values' ->
  before `prefix_of` values'.
Proof.
  intros H; unfold pushDocument; cbv zeta.
  match goal with
  | |- context [mbind _ ?first] =>
      destruct first as [values1|] eqn:E; [|discriminate]
  end.
  assert (H1 : before `prefix_of` values1).
  { revert E.
    repeat match goal with
           | |- context [if ?b then _ else _] => destruct b
           end;
      try (apply pushPath_keeps, H);
      destruct (pushPath _ _ _ values) as [values2|] eqn:E2;
      try discriminate; simpl; intros [= <-];
      pose proof (pushPath_keeps _ _ _ _ _ _ H E2); auto with pushes. }
  simpl; intros [= <-].
  repeat match goal with
         | |- context [if ?b then _ else _] => destruct b
         end; auto 10 with pushes.
Qed.

Lemma pushMediaContent_keeps (before values values' : Values) :
  before `prefix_of` values ->
  pushMediaContent Q_OS_WIN message peers internalLinksDomain values
  = Some values' ->
  before `prefix_of` values'.
Proof.
  intros H; unfold pushMediaContent.
  destruct (Media_content (Message_media message)) as
    [|photo|data|data|data|data|data|data|]; cbv zeta.
  - intros [= <-]; exact H.
  - destruct (pushPhoto _ values) as [values1|] eqn:E; [|discriminate].
    pose proof (pushPhoto_keeps _ _ _ _ H E); simpl.
    intros [= <-]; auto with pushes.
  - apply pushDocument_keeps, H.
  - intros [= <-]; auto with pushes.
  - intros [= <-]; auto with pushes.
  - intros [= <-]; destruct (GeoPoint_valid _); auto 10 with pushes.
  - intros [= <-].
    repeat match goal with
           | |- context [if ?b then _ else _] => destruct b
           end; auto 10 with pushes.
  - intros [= <-]; auto with pushes.
  - discriminate.
Qed.

Lemma MessageValues_keeps values :
  MessageValues Q_OS_WIN message peers internalLinksDomain = Some values ->
  initialValues message `prefix_of` values.
Proof.
  unfold MessageValues.
  destruct (pushActionContent _ _ _) as [values1|] eqn:E1; [|discriminate].
  simpl.
  destruct (pushMediaContent _ _ _ _ _) as [values2|] eqn:E2; [|discriminate].
  simpl; intros [= <-].
  apply push_keeps.
  eapply pushMediaContent_keeps; [|exact E2].
  apply pushSender_keeps.
  eapply pushActionContent_keeps; [|exact E1].
  reflexivity.
Qed.

Lemma pushPath_returns file label name (values : Values) :
  file_ok file = true -> is_Some (pushPath file label name values).
Proof.
  unfold file_ok, pushPath; intros ->; eauto.
Qed.

Lemma pushPhoto_returns image (values : Values) :
  file_ok (Image_file image) = true -> is_Some (pushPhoto image values).
Proof.
  intros Hok; unfold pushPhoto.
  destruct (pushPath_returns (Image_file image) (lit "Photo") [] values Hok)
    as [values1 ->]; simpl.
  destruct (_ && _); eauto.
Qed.

Lemma pushDocument_returns data (values : Values) :
  file_ok (Document_file data) = true ->
  is_Some (pushDocument message data values).
Proof.
  intros Hok; unfold pushDocument; cbv zeta.
  repeat match goal with
         | |- context [pushPath (Document_file data) ?label [] values] =>
             let values1 := fresh "values" in
             destruct (pushPath_returns (Document_file data) label []
                         values Hok) as [values1 ->]
         end.
  repeat match goal with
         | |- context [if ?b then _ else _] => destruct b
         end; simpl; eauto.
Qed.

(** On a message whose files pass, no [Expects] fails. *)
Lemma MessageValues_returns :
  Media_content (Message_media message) <> UnsupportedMedia ->
  files_ok message = true ->
  is_Some (MessageValues Q_OS_WIN message peers internalLinksDomain).
Proof.
  intros Hmedia Hok; unfold files_ok in Hok.
  apply andb_prop in Hok as [Haction Hcontent].
  unfold MessageValues.
  assert (Hfirst : is_Some
            (pushActionContent message peers (initialValues message))).
  { unfold pushActionContent.
    destruct (Message_action message); eauto.
    apply pushPhoto_returns, Haction. }
  destruct Hfirst as [values1 ->]; simpl.
  assert (Hsecond : is_Some
            (pushMediaContent Q_OS_WIN message peers internalLinksDomain
               (pushSender message peers values1))).
  { unfold pushMediaContent.
    destruct (Media_content (Message_media message)); eauto.
    - destruct (pushPhoto_returns (Photo_image photo)
                  (pushSender message peers values1) Hcontent)
        as [values2 ->]; simpl; eauto.
    - apply pushDocument_returns, Hcontent.
    - contradiction. }
  destruct Hsecond as [values2 ->]; simpl; eauto.
Qed.

End MessageFacts.

(** ** Decimal numbers have no line feed *)

Lemma string_of_uint_decimal (d : Decimal.uint) :
  forallb is_decimal_byte (lit (NilEmpty.string_of_uint d)) = true.
Proof.
  unfold lit, list_byte_of_string.
  induction d; simpl; try rewrite IHd; reflexivity.
Qed.

Lemma string_of_int_decimal (d : Decimal.int) :
  forallb is_decimal_byte (lit (NilZero.string_of_int d)) = true
  /\ lit (NilZero.string_of_int d) <> [].
Proof.
  pose proof string_of_uint_decimal as Hd.
  unfold lit, list_byte_of_string in *.
  destruct d as [d|d]; simpl; unfold NilZero.string_of_uint.
  - destruct d; simpl; try rewrite Hd; split;
      first [reflexivity | discriminate].
  - destruct d; simpl; try rewrite Hd; split;
      first [reflexivity | discriminate].
Qed.

Lemma NumberToString0_not_empty value : Data.NumberToString0 value <> [].
Proof.
  unfold Data.NumberToString0, Data.NumberToString.
  destruct (string_of_int_decimal (Z.to_int value)) as [_ Hne].
  intros Happ; apply app_eq_nil in Happ as [_ E]; contradiction.
Qed.

Lemma NumberToString0_one_line value :
  count_LF (Data.NumberToString0 value) = 0%nat.
Proof.
  unfold Data.NumberToString0, Data.NumberToString.
  destruct (string_of_int_decimal (Z.to_int value)) as [Hdec _].
  replace (Z.to_nat (Z.max 0 (0 - size (lit (NilZero.string_of_int
             (Z.to_int value)))))) with 0%nat by (unfold size; lia).
  simpl replicate; rewrite app_nil_l.
  revert Hdec; generalize (lit (NilZero.string_of_int (Z.to_int value))).
  unfold count_LF; induction l as [|b l IH]; simpl; [reflexivity|].
  intros H; apply andb_prop in H as [Hb Hl].
  rewrite filter_cons_False; [apply IH, Hl|].
  intros ->; discriminate Hb.
Qed.

(** ** The writer's file writes *)

Section WriterFacts.

Import Data Output.

Variable Q_OS_WIN : bool.
Context {fmt : Formatters}.

Lemma File_writeBlock_after file block io :
  exists file',
    File_writeBlock file block io
    = (next_result io, file', after_write (File_path file) block io)
    /\ File_path file' = File_path file.
Proof.
  unfold File_writeBlock, after_write, next_result.
  destruct (World_script io) as [|[|] script]; simpl; eauto.
Qed.

Lemma writeBlock_on_result block w io file :
  _result w = Some file ->
  exists file',
    writeBlock_on _result set_result block w io
    = Returned (next_result io) (set_result (Some file') w)
        (after_write (File_path file) block io)
    /\ File_path file' = File_path file.
Proof.
  intros Hfile; unfold writeBlock_on; rewrite Hfile.
  destruct (File_writeBlock_after file block io) as (file' & -> & Hpath).
  eauto.
Qed.

Lemma writeBlock_on_chat block w io file :
  _chat w = Some file ->
  exists file',
    writeBlock_on _chat set_chat block w io
    = Returned (next_result io) (set_chat (Some file') w)
        (after_write (File_path file) block io)
    /\ File_path file' = File_path file.
Proof.
  intros Hfile; unfold writeBlock_on; rewrite Hfile.
  destruct (File_writeBlock_after file block io) as (file' & -> & Hpath).
  eauto.
Qed.

Lemma calls_cons_inv c cs w io results w' io' :
  calls Q_OS_WIN (c :: cs) w io = Returned results w' io' ->
  exists result w1 io1 results',
    call Q_OS_WIN c w io = Returned result w1 io1
    /\ calls Q_OS_WIN cs w1 io1 = Returned results' w' io'
    /\ results = result :: results'.
Proof.
  cbn [calls]; unfold bind, ret.
  destruct (call Q_OS_WIN c w io) as [result w1 io1|]; [|discriminate].
  destruct (calls Q_OS_WIN cs w1 io1) as [results' w2 io2|] eqn:Erest;
    [|discriminate].
  intros [= <- <- <-].
  exists result, w1, io1, results'; rewrite Erest; auto.
Qed.

Lemma writeUserpicsSlice_lines list lines :
  fold_left (writeUserpicsSlice_step Q_OS_WIN) list lines
  = lines ++ concat (map (userpic_line Q_OS_WIN) list).
Proof.
  revert lines; induction list as [|userpic list IH]; intros lines;
    cbn [fold_left map concat].
  - rewrite app_nil_r; reflexivity.
  - rewrite IH; unfold writeUserpicsSlice_step, userpic_line, toUtf8.
    destruct (Photo_date userpic =? 0);
      [|destruct (isEmpty _)]; rewrite <- !app_assoc; reflexivity.
Qed.

(** What [writeUserpicsSlice] does on a writer whose main file is open. *)
Lemma writeUserpicsSlice_returns data w io file :
  _result w = Some file ->
  UserpicsSlice_list data <> [] ->
  exists file',
    writeUserpicsSlice Q_OS_WIN data w io
    = Returned (is_Success (next_result io)) (set_result (Some file') w)
        (after_write (File_path file)
           (concat (map (userpic_line Q_OS_WIN) (UserpicsSlice_list data))) io)
    /\ File_path file' = File_path file.
Proof.
  intros Hfile Hlist.
  unfold writeUserpicsSlice, bind, this, Expects, ret.
  rewrite Hfile; simpl bool_decide.
  rewrite bool_decide_eq_false_2 by exact Hlist; simpl negb; cbv iota.
  rewrite writeUserpicsSlice_lines; simpl app.
  destruct (writeBlock_on_result
              (concat (map (userpic_line Q_OS_WIN) (UserpicsSlice_list data))) w io file
              Hfile) as (file' & -> & Hpath).
  eauto.
Qed.

Lemma writeUserpicsStart_returns data w io file :
  _result w = Some file ->
  exists w',
    writeUserpicsStart Q_OS_WIN data w io
    = (if UserpicsInfo_count data =? 0
       then Returned true w' io
       else Returned (is_Success (next_result io)) w'
              (after_write (File_path file)
                 (lit "Personal photos " ++ lit "("
                  ++ NumberToString0 (UserpicsInfo_count data) ++ lit ")"
                  ++ kLineBreak Q_OS_WIN ++ kLineBreak Q_OS_WIN) io))
    /\ _userpicsCount w' = UserpicsInfo_count data
    /\ exists file', _result w' = Some file'
                     /\ File_path file' = File_path file.
Proof.
  intros Hfile.
  unfold writeUserpicsStart, bind, this, Expects, assign, ret.
  rewrite Hfile; simpl bool_decide; cbv iota; cbn [_userpicsCount set_userpicsCount].
  destruct (UserpicsInfo_count data =? 0).
  - eexists; split; [reflexivity|]; simpl; eauto.
  - match goal with
    | |- context [writeBlock_on _result set_result ?block ?w1 io] =>
        destruct (writeBlock_on_result block w1 io file Hfile)
          as (file' & -> & Hpath)
    end.
    eexists; split; [reflexivity|]; simpl; eauto.
Qed.

Lemma writeUserpicsEnd_returns w io file :
  _result w = Some file ->
  exists w',
    writeUserpicsEnd Q_OS_WIN w io
    = (if _userpicsCount w >? 0
       then Returned (is_Success (next_result io)) w'
              (after_write (File_path file) (kLineBreak Q_OS_WIN) io)
       else Returned true w' io).
Proof.
  intros Hfile.
  unfold writeUserpicsEnd, bind, this, Expects, ret.
  rewrite Hfile; simpl bool_decide; cbv iota.
  destruct (_userpicsCount w >? 0); [|eauto].
  destruct (writeBlock_on_result (kLineBreak Q_OS_WIN) w io file Hfile)
    as (file' & -> & Hpath).
  eauto.
Qed.

(** Userpics slices leave the count and the main file in place. *)
Lemma userpics_slices_keep slices :
  forall w io results w1 io1 file,
    _result w = Some file ->
    calls Q_OS_WIN (map WriteUserpicsSlice slices) w io
    = Returned results w1 io1 ->
    _userpicsCount w1 = _userpicsCount w
    /\ exists file1, _result w1 = Some file1
                     /\ File_path file1 = File_path file.
Proof.
  induction slices as [|slice slices IH];
    intros w io results w1 io1 file Hfile Hcalls.
  - injection Hcalls as <- <- <-; eauto.
  - cbn [map] in Hcalls.
    apply calls_cons_inv in Hcalls
      as (result & w2 & io2 & results' & Hcall & Hrest & ->).
    cbn [call] in Hcall.
    assert (Hlist : UserpicsSlice_list slice <> []).
    { intros Hnil; revert Hcall.
      unfold writeUserpicsSlice, bind, this, Expects.
      rewrite Hfile, Hnil; discriminate. }
    destruct (writeUserpicsSlice_returns slice w io file Hfile Hlist)
      as (file' & Hret & Hpath).
    rewrite Hret in Hcall; injection Hcall as <- <- <-.
    destruct (IH (set_result (Some file') w) _ _ _ _ file' eq_refl Hrest)
      as (Hcount & file1 & H1 & H2).
    split; [exact Hcount|].
    exists file1; split; [exact H1 | congruence].
Qed.

Lemma writeChatStart_returns data w io results w1 io1 :
  writeChatStart data w io = Returned results w1 io1 ->
  results = true
  /\ World_calls io1 = World_calls io
  /\ World_script io1 = World_script io
  /\ _dialogEmpty w1 = true
  /\ _dialogOnlyMy w1 = DialogInfo_onlyMyMessages data
  /\ exists file, _chat w1 = Some file /\ File_path file = chat_path w data.
Proof.
  unfold writeChatStart, bind, this, Expects, assign, note_number, ret.
  destruct (bool_decide (_chat w = None)); [|discriminate].
  destruct (_dialogIndex w <? _dialogsCount w); [|discriminate].
  intros [= <- <- <-]; simpl.
  repeat split; eexists; split; reflexivity.
Qed.

Lemma writeChatSlice_returns data w io results w1 io1 file :
  _chat w = Some file ->
  writeChatSlice Q_OS_WIN data w io = Returned results w1 io1 ->
  _dialogEmpty w1 = false
  /\ _dialogOnlyMy w1 = _dialogOnlyMy w
  /\ exists file1, _chat w1 = Some file1 /\ File_path file1 = File_path file.
Proof.
  intros Hfile.
  unfold writeChatSlice, bind, this, Expects, assign, ret.
  rewrite Hfile; simpl bool_decide; cbv iota.
  destruct (negb _); [|discriminate].
  destruct (mapM _ _) as [list|]; [|discriminate].
  match goal with
  | |- context [writeBlock_on _chat set_chat ?block ?w1 io] =>
      destruct (writeBlock_on_chat block w1 io file Hfile)
        as (file' & -> & Hpath)
  end.
  intros [= <- <- <-]; simpl; eauto.
Qed.

(** What [writeChatEnd] does on a writer with an open dialog file: it
    returns [true] whatever the sink answered. *)
Lemma writeChatEnd_returns w io file :
  _chat w = Some file ->
  writeChatEnd w io
  = Returned true (set_chat None w)
      (if _dialogEmpty w
       then after_write (File_path file)
              (empty_chat_sentence (_dialogOnlyMy w)) io
       else io).
Proof.
  intros Hfile.
  unfold writeChatEnd, bind, this, Expects, assign, ret.
  rewrite Hfile; simpl bool_decide; cbv iota.
  destruct (_dialogEmpty w); [|reflexivity].
  destruct (writeBlock_on_chat (empty_chat_sentence (_dialogOnlyMy w))
              w io file Hfile) as (file' & Hwrite & _).
  unfold empty_chat_sentence in Hwrite; rewrite Hwrite; reflexivity.
Qed.

Lemma chat_slices_keep cs :
  forall w io results w1 io1 file,
    forallb is_slice cs = true ->
    _chat w = Some file ->
    calls Q_OS_WIN cs w io = Returned results w1 io1 ->
    _dialogEmpty w1 = match cs with [] => _dialogEmpty w | _ => false end
    /\ _dialogOnlyMy w1 = _dialogOnlyMy w
    /\ exists file1, _chat w1 = Some file1
                     /\ File_path file1 = File_path file.
Proof.
  induction cs as [|c cs IH];
    intros w io results w1 io1 file Hslices Hfile Hcalls.
  - injection Hcalls as <- <- <-; eauto.
  - apply andb_prop in Hslices as [Hc Hcs].
    apply calls_cons_inv in Hcalls
      as (result & w2 & io2 & results' & Hcall & Hrest & ->).
    assert (Hslice : exists data,
              writeChatSlice Q_OS_WIN data w io = Returned result w2 io2).
    { destruct c; try discriminate Hc; eexists; exact Hcall. }
    destruct Hslice as (data & Hslice).
    destruct (writeChatSlice_returns _ _ _ _ _ _ _ Hfile Hslice)
      as (Hempty & Hmy & file2 & Hfile2 & Hpath2).
    destruct (IH _ _ _ _ _ _ Hcs Hfile2 Hrest)
      as (Hempty1 & Hmy1 & file1 & Hfile1 & Hpath1).
    split; [destruct cs; congruence|].
    split; [congruence|].
    exists file1; split; [exact Hfile1 | congruence].
Qed.

(** *** The running index and the recorded count *)

Lemma calls_app_inv cs1 cs2 w io results w' io' :
  calls Q_OS_WIN (cs1 ++ cs2) w io = Returned results w' io' ->
  exists results1 w1 io1 results2,
    calls Q_OS_WIN cs1 w io = Returned results1 w1 io1
    /\ calls Q_OS_WIN cs2 w1 io1 = Returned results2 w' io'.
Proof.
  revert w io results; induction cs1 as [|c cs1 IH]; intros w io results.
  - intros Hcalls; exists [], w, io, results; split; [reflexivity|exact Hcalls].
  - rewrite <- app_comm_cons; intros Hcalls.
    apply calls_cons_inv in Hcalls
      as (result & w1 & io1 & results' & Hcall & Hrest & ->).
    apply IH in Hrest as (results1 & w2 & io2 & results2 & H1 & H2).
    exists (result :: results1), w2, io2, results2; split; [|exact H2].
    cbn [calls]; unfold bind, ret; rewrite Hcall, H1; reflexivity.
Qed.

Lemma writeChatStart_index data w io result w1 io1 :
  writeChatStart data w io = Returned result w1 io1 ->
  _dialogIndex w < _dialogsCount w
  /\ _dialogIndex w1 = int (_dialogIndex w + 1)
  /\ _dialogsCount w1 = _dialogsCount w
  /\ is_Some (_chat w1).
Proof.
  unfold writeChatStart, bind, this, Expects, assign, note_number, ret.
  destruct (bool_decide (_chat w = None)); [|discriminate].
  destruct (Z.ltb_spec (_dialogIndex w) (_dialogsCount w)); [|discriminate].
  intros [= <- <- <-]; simpl; eauto.
Qed.

(** The index string that one [writeChatStart] forms: the index after the
    increment, padded to the width of the count less one. *)
Lemma writeChatStart_number data w io result w1 io1 :
  writeChatStart data w io = Returned result w1 io1 ->
  World_numbers io1
  = World_numbers io
    ++ [NumberToString (int (_dialogIndex w + 1))
          (size (NumberToString0 (int (_dialogsCount w - 1)))) "0"%byte].
Proof.
  unfold writeChatStart, bind, this, Expects, assign, note_number, ret.
  destruct (bool_decide (_chat w = None)); [|discriminate].
  destruct (_dialogIndex w <? _dialogsCount w); [|discriminate].
  intros [= <- <- <-]; reflexivity.
Qed.

Lemma writeChatSlice_index data w io result w1 io1 :
  writeChatSlice Q_OS_WIN data w io = Returned result w1 io1 ->
  _dialogIndex w1 = _dialogIndex w
  /\ _dialogsCount w1 = _dialogsCount w
  /\ is_Some (_chat w1).
Proof.
  unfold writeChatSlice, bind, this, Expects, assign, ret, writeBlock_on.
  destruct (_chat w) as [file|] eqn:Hfile; [|discriminate].
  simpl bool_decide; cbv iota.
  destruct (negb _); [|discriminate].
  destruct (mapM _ _) as [list|]; [|discriminate].
  cbn [_chat set_dialogEmpty].
  rewrite Hfile.
  destruct (File_writeBlock _ _ _) as [[written file'] io'].
  intros [= <- <- <-]; simpl; eauto.
Qed.

Lemma writeChatEnd_index w io result w1 io1 :
  writeChatEnd w io = Returned result w1 io1 ->
  _dialogIndex w1 = _dialogIndex w
  /\ _dialogsCount w1 = _dialogsCount w
  /\ _chat w1 = None.
Proof.
  unfold writeChatEnd, bind, this, Expects, assign, ret.
  destruct (_chat w) as [file|] eqn:Hfile; [|discriminate].
  simpl bool_decide; cbv iota.
  destruct (_dialogEmpty w).
  - destruct (writeBlock_on_chat
                (if _dialogOnlyMy w
                 then lit "No outgoing messages in this chat."
                 else lit "No messages in this chat.") w io file Hfile)
      as (file' & -> & _).
    intros [= <- <- <-]; simpl; auto.
  - intros [= <- <- <-]; simpl; auto.
Qed.

Lemma writeChatsStart_index data listName fileName w io result w1 io1 :
  writeChatsStart Q_OS_WIN data listName fileName w io
  = Returned result w1 io1 ->
  _dialogIndex w1 = _dialogIndex w
  /\ _dialogsCount w1
     = match DialogsInfo_list data with
       | [] => _dialogsCount w
       | _ :: _ => int (size' (DialogsInfo_list data))
       end.
Proof.
  unfold writeChatsStart, bind, this, Expects, assign, ret,
    writeBlock_local, writeBlock_on.
  destruct (bool_decide (is_Some (_result w))) eqn:Hres; [|discriminate].
  destruct (DialogsInfo_list data) as [|dialog dialogs] eqn:Hlist.
  - simpl; intros [= <- <- <-]; auto.
  - rewrite bool_decide_eq_false_2 by discriminate.
    destruct (File_writeBlock _ _ _) as [[written file'] io'].
    cbn [fst]; destruct (negb (is_Success written)).
    + intros [= <- <- <-]; simpl; auto.
    + cbn [_result set_dialogsCount].
      destruct (_result w) as [file|]; [|discriminate].
      destruct (File_writeBlock file _ _) as [[written2 file2] io2].
      intros [= <- <- <-]; simpl; auto.
Qed.

Lemma chat_slices_index cs :
  forall w io results w1 io1,
    forallb is_slice cs = true ->
    calls Q_OS_WIN cs w io = Returned results w1 io1 ->
    _dialogIndex w1 = _dialogIndex w /\ _dialogsCount w1 = _dialogsCount w.
Proof.
  induction cs as [|c cs IH]; intros w io results w1 io1 Hslices Hcalls.
  - injection Hcalls as <- <- <-; auto.
  - apply andb_prop in Hslices as [Hc Hcs].
    apply calls_cons_inv in Hcalls
      as (result & w2 & io2 & results' & Hcall & Hrest & ->).
    assert (Hslice : exists data,
              writeChatSlice Q_OS_WIN data w io = Returned result w2 io2).
    { destruct c; try discriminate Hc; eexists; exact Hcall. }
    destruct Hslice as (data & Hslice).
    apply writeChatSlice_index in Hslice as (Hi & Hc' & _).
    destruct (IH _ _ _ _ _ Hcs Hrest) as (Hi1 & Hc1).
    split; congruence.
Qed.

Lemma one_chat_index first slices last w io results w1 io1 :
  is_chat_start first = true ->
  forallb is_slice slices = true ->
  is_chat_end last = true ->
  calls Q_OS_WIN (first :: slices ++ [last]) w io
  = Returned results w1 io1 ->
  _dialogIndex w < _dialogsCount w
  /\ _dialogIndex w1 = int (_dialogIndex w + 1)
  /\ _dialogsCount w1 = _dialogsCount w.
Proof.
  intros Hfirst Hslices Hlast Hcalls.
  apply calls_cons_inv in Hcalls
    as (result & w2 & io2 & results' & Hcall & Hrest & ->).
  apply calls_app_inv in Hrest
    as (results1 & w3 & io3 & results2 & Hmid & Hend).
  apply calls_cons_inv in Hend
    as (result' & w4 & io4 & results3 & Hcall' & Hnil & ->).
  injection Hnil as <- <- <-.
  assert (Hstart : exists data,
            writeChatStart data w io = Returned result w2 io2).
  { destruct first; try discriminate Hfirst; eexists; exact Hcall. }
  destruct Hstart as (data & Hstart).
  apply writeChatStart_index in Hstart as (Hlt & Hi2 & Hc2 & _).
  apply (chat_slices_index _ _ _ _ _ _ Hslices) in Hmid as (Hi3 & Hc3).
  assert (Hend : writeChatEnd w3 io3 = Returned result' w4 io4).
  { destruct last; try discriminate Hlast; exact Hcall'. }
  apply writeChatEnd_index in Hend as (Hi4 & Hc4 & _).
  repeat split; [exact Hlt | congruence | congruence].
Qed.

(** Every dialog of a group moves the index one up and needs it below the
    recorded count. *)
Lemma chats_index (block : DialogInfo * list MessagesSlice -> list Call)
    dialogs :
  (forall dialog, exists first slices last,
      block dialog = first :: slices ++ [last]
      /\ is_chat_start first = true
      /\ forallb is_slice slices = true
      /\ is_chat_end last = true) ->
  forall w io results w1 io1,
    0 <= _dialogIndex w ->
    _dialogsCount w < 2 ^ 31 ->
    calls Q_OS_WIN (flat_map block dialogs) w io = Returned results w1 io1 ->
    (dialogs <> [] -> _dialogIndex w + size' dialogs <= _dialogsCount w)
    /\ _dialogIndex w1 = _dialogIndex w + size' dialogs
    /\ _dialogsCount w1 = _dialogsCount w.
Proof.
  intros Hblock; induction dialogs as [|dialog dialogs IH];
    intros w io results w1 io1 Hpos Hcount Hcalls.
  - injection Hcalls as <- <- <-; unfold size'; simpl.
    split; [congruence | split; [lia | reflexivity]].
  - cbn [flat_map] in Hcalls.
    apply calls_app_inv in Hcalls
      as (results1 & w2 & io2 & results2 & Hone & Hrest).
    destruct (Hblock dialog)
      as (first & slices & last & Hshape & Hfirst & Hslices & Hlast).
    rewrite Hshape in Hone.
    apply (one_chat_index _ _ _ _ _ _ _ _ Hfirst Hslices Hlast) in Hone
      as (Hlt & Hi2 & Hc2).
    assert (Hint : int (_dialogIndex w + 1) = _dialogIndex w + 1).
    { unfold int.
      rewrite Z.mod_small by lia; lia. }
    rewrite Hint in Hi2.
    destruct (IH w2 io2 results2 w1 io1) as (Hle & Hi1 & Hc1);
      [lia | lia | exact Hrest |].
    unfold size' in *; cbn [length].
    split; [intros _|split; [lia | congruence]].
    destruct dialogs as [|dialog' dialogs']; [simpl; lia|].
    specialize (Hle ltac:(discriminate)); simpl in *; lia.
Qed.

(** A session with a dialog and a left channel stops at a failed
    [Expects]: the count is replaced by that of the left channels while
    the index goes on from the dialogs. *)
Lemma session_with_both_groups_faults settings dialogs left io :
  dialogs <> [] ->
  left <> [] ->
  size' dialogs < 2 ^ 31 ->
  size' left < 2 ^ 31 ->
  calls Q_OS_WIN (session settings dialogs left) TextWriter_new io = Faulted.
Proof.
  intros Hdialogs Hleft Hn Hm.
  destruct (calls Q_OS_WIN (session settings dialogs left) TextWriter_new io)
    as [results w io'|] eqn:Hcalls; [exfalso|reflexivity].
  unfold session, dialogs_phase, left_channels_phase in Hcalls.
  apply calls_cons_inv in Hcalls
    as (r0 & w0 & io0 & rs0 & Hstart & Hcalls & _).
  assert (H0 : _dialogIndex w0 = 0 /\ _dialogsCount w0 = 0).
  { revert Hstart; cbn [call].
    unfold start, bind, this, Expects, assign, ret.
    destruct (endsWith _ _); [|discriminate].
    intros [= <- <- <-]; simpl; auto. }
  destruct H0 as (Hi0 & Hc0).
  rewrite <- app_comm_cons in Hcalls.
  apply calls_cons_inv in Hcalls
    as (r1 & w1 & io1 & rs1 & Hds & Hcalls & _).
  cbn [call] in Hds; apply writeChatsStart_index in Hds as (Hi1 & Hc1).
  cbn [DialogsInfo_list] in Hc1.
  rewrite <- !app_assoc in Hcalls.
  apply calls_app_inv in Hcalls
    as (rs2 & w2 & io2 & rs3 & Hbody & Hcalls).
  assert (Hsize : forall l : list (DialogInfo * list MessagesSlice),
            l <> [] -> size' l < 2 ^ 31 ->
            match map fst l with
            | [] => 0
            | _ :: _ => int (size' (map fst l))
            end = size' l /\ 0 < size' l).
  { intros l Hl Hlt; destruct l as [|x l]; [congruence|].
    cbn [map]; unfold size', int in *; cbn [length] in *.
    rewrite length_map, Z.mod_small by lia; lia. }
  apply chats_index in Hbody as (_ & Hi2 & Hc2);
    [| intros dialog; eexists _, _, _; split; [reflexivity|];
       repeat split; clear; induction (dialog.2); simpl; auto
     | lia
     | rewrite Hc1;
       destruct (map fst dialogs);
         [lia | unfold int; pose proof (Z.mod_pos_bound
                  (size' (d :: l) + 2 ^ 31) (2 ^ 32)); lia]].
  cbn [app] in Hcalls.
  apply calls_cons_inv in Hcalls
    as (r3 & w3 & io3 & rs4 & Hde & Hcalls & _).
  injection Hde as <- <- <-.
  apply calls_cons_inv in Hcalls
    as (r4 & w4 & io4 & rs5 & Hls & Hcalls & _).
  cbn [call] in Hls; apply writeChatsStart_index in Hls as (Hi4 & Hc4).
  cbn [DialogsInfo_list] in Hc4.
  rewrite <- ?app_assoc in Hcalls.
  apply calls_app_inv in Hcalls
    as (rs6 & w5 & io5 & rs7 & Hbody' & _).
  destruct (Hsize dialogs Hdialogs Hn) as (Hcd & Hpd).
  destruct (Hsize left Hleft Hm) as (Hcl & Hpl).
  assert (Hc4' : _dialogsCount w4 = size' left).
  { rewrite Hc4; destruct (map fst left) eqn:E; [|exact Hcl].
    destruct left; [congruence|discriminate E]. }
  assert (Hc1' : _dialogsCount w1 = size' dialogs).
  { rewrite Hc1; destruct (map fst dialogs) eqn:E; [|exact Hcd].
    destruct dialogs; [congruence|discriminate E]. }
  apply chats_index in Hbody' as (Hle & _ & _);
    [| intros dialog; eexists _, _, _; split; [reflexivity|];
       repeat split; clear; induction (dialog.2); simpl; auto
     | lia
     | lia].
  specialize (Hle Hleft); lia.
Qed.

(** *** Which calls report a failed write *)

Lemma all_writes_none io io' :
  World_calls io' = World_calls io -> all_writes_succeeded io io'.
Proof. intros H; exists []; rewrite app_nil_r; split; [exact H|constructor]. Qed.

Lemma all_writes_one io path block :
  is_Success (next_result io) = true ->
  all_writes_succeeded io (after_write path block io).
Proof.
  intros H; eexists; split; [reflexivity|].
  constructor; [|constructor]; simpl.
  destruct (next_result io); [reflexivity|discriminate].
Qed.

Lemma all_writes_two io path1 block1 path2 block2 :
  is_Success (next_result io) = true ->
  is_Success (next_result (after_write path1 block1 io)) = true ->
  all_writes_succeeded io
    (after_write path2 block2 (after_write path1 block1 io)).
Proof.
  intros H1 H2; eexists; split; [simpl; rewrite <- app_assoc; reflexivity|].
  constructor; [|constructor; [|constructor]]; simpl.
  - destruct (next_result io); [reflexivity|discriminate].
  - destruct (next_result (after_write path1 block1 io));
      [reflexivity|discriminate].
Qed.

Lemma writeBlock_local_after file block w io :
  exists file',
    writeBlock_local file block w io
    = Returned (next_result io, file') w
        (after_write (File_path file) block io).
Proof.
  unfold writeBlock_local.
  destruct (File_writeBlock_after file block io) as (file' & -> & _).
  eauto.
Qed.

(** A side file and then a line in the main file: the shape of
    [writeContactsList], [writeSessionsList] and [writeChatsStart]. *)
Lemma side_file_then_main file full header w io w' io' :
  (written <~ writeBlock_local file full;
   if negb (is_Success written.1) then ret false
   else result <~ writeBlock_on _result set_result header;
        ret (is_Success result))%op w io
  = Returned true w' io' ->
  all_writes_succeeded io io'.
Proof.
  unfold bind, ret.
  destruct (writeBlock_local_after file full w io) as (file' & ->).
  cbn [fst].
  destruct (is_Success (next_result io)) eqn:H1; cbn [negb];
    [|discriminate].
  unfold writeBlock_on.
  destruct (_result w) as [main|]; [|discriminate].
  destruct (File_writeBlock_after main header
              (after_write (File_path file) full io)) as (main' & -> & _).
  intros [= H2 <- <-].
  apply all_writes_two; assumption.
Qed.

(** Apart from the end of a dialog, a call that returns [true] made no
    write that failed. *)
Lemma other_calls_report_failure c w io w' io' :
  is_chat_end c = false ->
  call Q_OS_WIN c w io = Returned true w' io' ->
  all_writes_succeeded io io'.
Proof.
  intros Hc Hcall; destruct c; try discriminate Hc; cbn [call] in Hcall.
  - (* start *)
    revert Hcall; unfold start, bind, this, Expects, assign, ret.
    destruct (endsWith _ _); [|discriminate].
    intros [= <- <-]; apply all_writes_none; reflexivity.
  - (* writePersonal *)
    revert Hcall; unfold writePersonal, bind, this, Expects, ret.
    destruct (_result w) as [file|] eqn:Hfile; [|discriminate].
    simpl bool_decide; cbv iota.
    match goal with
    | |- context [writeBlock_on _result set_result ?block w io] =>
        destruct (writeBlock_on_result block w io file Hfile)
          as (file' & -> & _)
    end.
    intros [= H <- <-]; apply all_writes_one, H.
  - (* writeUserpicsStart *)
    destruct (_result w) as [file|] eqn:Hfile;
      [|revert Hcall; unfold writeUserpicsStart, bind, this, Expects;
        rewrite Hfile; discriminate].
    destruct (writeUserpicsStart_returns data w io file Hfile)
      as (w1 & Hret & _).
    rewrite Hret in Hcall.
    destruct (UserpicsInfo_count data =? 0).
    + injection Hcall as <- <-; apply all_writes_none; reflexivity.
    + injection Hcall as H <- <-; apply all_writes_one; assumption.
  - (* writeUserpicsSlice *)
    destruct (_result w) as [file|] eqn:Hfile;
      [|revert Hcall; unfold writeUserpicsSlice, bind, this, Expects;
        rewrite Hfile; discriminate].
    assert (Hlist : UserpicsSlice_list data <> []).
    { intros Hnil; revert Hcall.
      unfold writeUserpicsSlice, bind, this, Expects.
      rewrite Hfile, Hnil; discriminate. }
    destruct (writeUserpicsSlice_returns data w io file Hfile Hlist)
      as (file' & Hret & _).
    rewrite Hret in Hcall; injection Hcall as H <- <-.
    apply all_writes_one, H.
  - (* writeUserpicsEnd *)
    destruct (_result w) as [file|] eqn:Hfile;
      [|revert Hcall; unfold writeUserpicsEnd, bind, this, Expects;
        rewrite Hfile; discriminate].
    destruct (writeUserpicsEnd_returns w io file Hfile) as (w1 & Hret).
    rewrite Hret in Hcall.
    destruct (_userpicsCount w >? 0).
    + injection Hcall as H <- <-; apply all_writes_one; assumption.
    + injection Hcall as <- <-; apply all_writes_none; reflexivity.
  - (* writeContactsList *)
    revert Hcall; unfold writeContactsList.
    unfold bind at 1 2, this, Expects.
    destruct (bool_decide (is_Some (_result w))); [|discriminate].
    destruct (bool_decide (ContactsList_list data = []));
      [intros [= <- <-]; apply all_writes_none; reflexivity|].
    destruct (mapM _ _) as [contacts|]; [|discriminate].
    apply side_file_then_main.
  - (* writeSessionsList *)
    revert Hcall; unfold writeSessionsList.
    unfold bind at 1 2, this, Expects.
    destruct (bool_decide (is_Some (_result w))); [|discriminate].
    destruct (bool_decide (SessionsList_list data = []));
      [intros [= <- <-]; apply all_writes_none; reflexivity|].
    apply side_file_then_main.
  - (* writeDialogsStart *)
    revert Hcall; unfold writeDialogsStart, writeChatsStart.
    unfold bind at 1 2, this, Expects.
    destruct (bool_decide (is_Some (_result w))); [|discriminate].
    destruct (bool_decide (DialogsInfo_list data = []));
      [intros [= <- <-]; apply all_writes_none; reflexivity|].
    unfold bind at 1, assign.
    apply side_file_then_main.
  - (* writeDialogStart *)
    apply writeChatStart_returns in Hcall as (_ & Hcalls & _).
    apply all_writes_none, Hcalls.
  - (* writeDialogSlice *)
    revert Hcall; unfold writeDialogSlice, writeChatSlice.
    unfold bind, this, Expects, assign, ret.
    destruct (_chat w) as [file|] eqn:Hfile; [|discriminate].
    simpl bool_decide; cbv iota.
    destruct (negb _); [|discriminate].
    destruct (mapM _ _) as [list|]; [|discriminate].
    match goal with
    | |- context [writeBlock_on _chat set_chat ?block ?w1 io] =>
        destruct (writeBlock_on_chat block w1 io file Hfile)
          as (file' & -> & _)
    end.
    intros [= H <- <-]; apply all_writes_one, H.
  - (* writeDialogsEnd *)
    injection Hcall as <- <-; apply all_writes_none; reflexivity.
  - (* writeLeftChannelsStart *)
    revert Hcall; unfold writeLeftChannelsStart, writeChatsStart.
    unfold bind at 1 2, this, Expects.
    destruct (bool_decide (is_Some (_result w))); [|discriminate].
    destruct (bool_decide (DialogsInfo_list data = []));
      [intros [= <- <-]; apply all_writes_none; reflexivity|].
    unfold bind at 1, assign.
    apply side_file_then_main.
  - (* writeLeftChannelStart *)
    apply writeChatStart_returns in Hcall as (_ & Hcalls & _).
    apply all_writes_none, Hcalls.
  - (* writeLeftChannelSlice *)
    revert Hcall; unfold writeLeftChannelSlice, writeChatSlice.
    unfold bind, this, Expects, assign, ret.
    destruct (_chat w) as [file|] eqn:Hfile; [|discriminate].
    simpl bool_decide; cbv iota.
    destruct (negb _); [|discriminate].
    destruct (mapM _ _) as [list|]; [|discriminate].
    match goal with
    | |- context [writeBlock_on _chat set_chat ?block ?w1 io] =>
        destruct (writeBlock_on_chat block w1 io file Hfile)
          as (file' & -> & _)
    end.
    intros [= H <- <-]; apply all_writes_one, H.
  - (* writeLeftChannelsEnd *)
    injection Hcall as <- <-; apply all_writes_none; reflexivity.
  - (* finish *)
    injection Hcall as <- <-; apply all_writes_none; reflexivity.
Qed.

End WriterFacts.

(** ** The first entries of a message *)

(** * The properties that the specification states *)

(** C8. For every ordered sequence of (label, value) pairs,
    [SerializeKeyValue] leaves out every pair whose value is empty and
    writes the others one after the other in input order, whatever their
    labels; a kept pair whose value has no line break is written as the
    label, a colon and a space, the value, and the line terminator. *)
Theorem C8_SerializeKeyValue_kept_in_order
    (Q_OS_WIN : bool) (values : list (QByteArray * QByteArray)) :
  SerializeKeyValue Q_OS_WIN values
  = concat (map (fun entry => Entry Q_OS_WIN entry.1 entry.2) (kept values))
  /\ (forall key value, (key, value) ∈ kept values -> value <> [])
  /\ (forall key value, (key, value) ∈ values -> value <> [] ->
        (key, value) ∈ kept values)
  /\ (forall key value, count_LF value = 0%nat ->
        Entry Q_OS_WIN key value
        = key ++ lit ": " ++ value ++ kLineBreak Q_OS_WIN).
Proof.
  split; [|split; [|split]].
  - unfold SerializeKeyValue; rewrite SerializeKeyValue_fold; reflexivity.
  - intros key value Hin; apply list_elem_of_filter in Hin as [Hne _].
    exact Hne.
  - intros key value Hin Hne; apply list_elem_of_filter; split; assumption.
  - intros key value Hk; unfold Entry.
    destruct (bool_decide_reflect (LF ∈ value)) as [Hin|_]; [|reflexivity].
    apply count_LF_elem in Hin; lia.
Qed.

(** C2, as the code has it.  For every value with [k >= 1] line feeds,
    [SerializeKeyValue] writes the label and a colon on a line of their own
    and then the quoted lines, each prefixed with "> ": [k + 1] of them
    when the value does not end with a line feed and [k] when it does (no
    empty last line is written).  A carriage return that stands right
    before a line feed is not copied into its quoted line, and putting the
    quoted lines back together with the separators the value had gives the
    value. *)
Theorem C2_multiline_quoted_lines
    (Q_OS_WIN : bool) (key value : QByteArray) :
  (1 <= count_LF value)%nat ->
  SerializeKeyValue Q_OS_WIN [(key, value)]
  = key ++ lit ":" ++ kLineBreak Q_OS_WIN
    ++ concat (map (quote Q_OS_WIN) (quoted_lines value))
  /\ length (quoted_lines value)
     = (if bool_decide (last value = Some LF)
        then count_LF value else count_LF value + 1)%nat
  /\ (forall i line,
        (split_lines value).1 !! i = Some (line ++ [CR]) ->
        quoted_lines value !! i = Some line)
  /\ length (separators value) = count_LF value
  /\ rejoin (quoted_lines value) (separators value) = value.
Proof.
  intros Hk; pose proof (proj1 (count_LF_elem value) Hk) as Hin.
  split; [|split; [|split; [|split]]].
  - unfold SerializeKeyValue; rewrite SerializeKeyValue_fold.
    unfold kept; rewrite filter_cons_True
      by (simpl; intros ->; inversion Hin).
    rewrite filter_nil; simpl; rewrite app_nil_r.
    unfold Entry; rewrite bool_decide_eq_true_2 by exact Hin; reflexivity.
  - pose proof (split_lines_rest_nil value Hin) as Hrest.
    pose proof (split_lines_count value) as Hcount.
    unfold quoted_lines.
    destruct (split_lines value) as [lines rest]; simpl in Hrest, Hcount.
    rewrite length_app, length_map, Hcount.
    destruct (bool_decide_reflect (last value = Some LF)) as [Hl|Hl].
    + apply Hrest in Hl; subst rest; simpl; lia.
    + destruct rest as [|b rest]; [exfalso; apply Hl, Hrest; reflexivity|].
      simpl; lia.
  - intros i line Hi; unfold quoted_lines.
    destruct (split_lines value) as [lines rest]; simpl in Hi.
    rewrite lookup_app_l
      by (rewrite length_map; apply lookup_lt_Some in Hi; exact Hi).
    rewrite list_lookup_fmap, Hi; simpl; f_equal.
    unfold chop_CR; rewrite last_snoc.
    replace (Byte.eqb CR CR) with true by reflexivity.
    apply removelast_last.
  - unfold separators; rewrite length_map; apply split_lines_count.
  - destruct (split_lines_join value) as (Hv & _ & _).
    unfold quoted_lines, separators.
    destruct (split_lines value) as [lines rest]; simpl in *.
    rewrite rejoin_lines; symmetry; exact Hv.
Qed.

Lemma C8_SerializeKeyValue_witness :
  SerializeKeyValue false
    [(lit "Name", lit "Ann"); (lit "Bio", []); (lit "Name", lit "Bo")]
  = lit "Name: Ann" ++ [LF] ++ lit "Name: Bo" ++ [LF].
Proof.
  destruct (C8_SerializeKeyValue_kept_in_order false
    [(lit "Name", lit "Ann"); (lit "Bio", []); (lit "Name", lit "Bo")])
    as (Hout & _ & _ & Hline).
  rewrite Hout.
  change (kept [(lit "Name", lit "Ann"); (lit "Bio", []);
                (lit "Name", lit "Bo")])
    with [(lit "Name", lit "Ann"); (lit "Name", lit "Bo")].
  cbn [map concat fst snd].
  rewrite !Hline by reflexivity.
  reflexivity.
Defined.

Lemma C2_multiline_witness :
  SerializeKeyValue true [(lit "Bio", lit "one" ++ [CR; LF] ++ lit "two" ++ [LF])]
  = lit "Bio:" ++ [CR; LF] ++ lit "> one" ++ [CR; LF]
    ++ lit "> two" ++ [CR; LF].
Proof.
  destruct (C2_multiline_quoted_lines true (lit "Bio")
              (lit "one" ++ [CR; LF] ++ lit "two" ++ [LF]))
    as (Hout & _); [vm_compute; lia|].
  rewrite Hout; reflexivity.
Defined.

(** C2, as the spec states it, fails on a value that ends with its only
    line feed: one quoted line is written, not two. *)
Lemma C2_counterexample :
  count_LF (lit "a" ++ [LF]) = 1%nat
  /\ ~ exists lines,
         length lines = 2%nat
         /\ SerializeKeyValue false [(lit "Text", lit "a" ++ [LF])]
            = lit "Text" ++ lit ":" ++ kLineBreak false
              ++ concat (map (quote false) lines).
Proof.
  split; [reflexivity|].
  intros (lines & Hlen & Hout).
  destruct lines as [|l1 [|l2 [|l3 lines]]]; try discriminate Hlen.
  apply (f_equal length) in Hout; revert Hout.
  unfold quote; cbn [map concat].
  rewrite !length_app.
  change (length (SerializeKeyValue false [(lit "Text", lit "a" ++ [LF])]))
    with 10%nat.
  simpl; lia.
Qed.

(** C1. For every message whose media is the unsupported variant,
    [SerializeMessage] returns the fixed warning and nothing else, whatever
    the id, date, action, text and other fields of the message are. *)
Theorem C1_unsupported_media_warning
    (Q_OS_WIN : bool) (fmt : Data.Formatters) (message : Data.Message)
    (peers : gmap Data.PeerId Data.Peer) (internalLinksDomain : QString) :
  Data.Media_content (Data.Message_media message) = Data.UnsupportedMedia ->
  SerializeMessage Q_OS_WIN message peers internalLinksDomain
  = Some (lit ("Error! This message is not supported "
               ++ "by this version of Telegram Desktop. "
               ++ "Please update the application.")).
Proof. intros Hmedia; unfold SerializeMessage; rewrite Hmedia; reflexivity. Qed.

Lemma C1_unsupported_media_witness :
  SerializeMessage (fmt := Data.plain_formatters) true unsupported_message
    ∅ (lit "https://t.me/")
  = Some (lit ("Error! This message is not supported "
               ++ "by this version of Telegram Desktop. "
               ++ "Please update the application.")).
Proof.
  apply (C1_unsupported_media_warning true Data.plain_formatters
           unsupported_message ∅ (lit "https://t.me/")).
  reflexivity.
Defined.

Section HeaderLabels.

Import Data.

Variable Q_OS_WIN : bool.
Context {fmt : Formatters}.
Variable message : Message.
Variable peers : gmap PeerId Peer.
Variable internalLinksDomain : QString.
Variable before : Values.

Local Abbreviation after_header :=
  (pushed_after not_header_label before).

Lemma push_after key value (values : Values) :
  not_header_label key = true -> after_header values ->
  after_header (push key value values).
Proof.
  intros Hkey (rest & -> & Hrest); unfold push.
  destruct (isEmpty value); [exists rest; split; [reflexivity|exact Hrest]|].
  exists (rest ++ [(key, value)]); split; [rewrite app_assoc; reflexivity|].
  apply Forall_app; split; [exact Hrest|].
  constructor; [exact Hkey|constructor].
Qed.

Lemma pushFrom_after label (values : Values) :
  not_header_label label = true -> after_header values ->
  after_header (pushFrom message peers label values).
Proof.
  intros Hkey Hvalues; unfold pushFrom; destruct (_ =? _); [exact Hvalues|].
  apply push_after; assumption.
Qed.

Lemma pushReplyToMsgId_after label (values : Values) :
  not_header_label label = true -> after_header values ->
  after_header (pushReplyToMsgId message label values).
Proof.
  intros Hkey Hvalues; unfold pushReplyToMsgId; destruct (_ =? _);
    [exact Hvalues|].
  apply push_after; assumption.
Qed.

Lemma pushList_after labelOne labelMany list (values : Values) :
  not_header_label labelOne = true -> not_header_label labelMany = true ->
  after_header values ->
  after_header (pushList labelOne labelMany list values).
Proof.
  intros H1 H2 Hvalues; unfold pushList.
  destruct list as [|one [|two list]]; [exact Hvalues| |];
    apply push_after; assumption.
Qed.

Lemma pushTTL_after label (values : Values) :
  not_header_label label = true -> after_header values ->
  after_header (pushTTL message label values).
Proof.
  intros Hkey Hvalues; unfold pushTTL; cbv zeta; destruct (_ =? _);
    [exact Hvalues|].
  apply push_after; assumption.
Qed.

Lemma pushPath_after file label name (values values' : Values) :
  not_header_label label = true -> after_header values ->
  pushPath file label name values = Some values' ->
  after_header values'.
Proof.
  intros Hkey Hvalues; unfold pushPath; destruct (_ || _); [|discriminate].
  intros [= <-]; apply push_after; assumption.
Qed.

Ltac push_after_tac :=
  repeat first
    [ assumption
    | apply push_after; [vm_compute; reflexivity|]
    | apply pushFrom_after; [vm_compute; reflexivity|]
    | apply pushReplyToMsgId_after; [vm_compute; reflexivity|]
    | apply pushList_after; [vm_compute; reflexivity|vm_compute; reflexivity|]
    | apply pushTTL_after; [vm_compute; reflexivity|] ].

Lemma pushPhoto_after image (values values' : Values) :
  after_header values ->
  pushPhoto image values = Some values' ->
  after_header values'.
Proof.
  intros Hvalues; unfold pushPhoto.
  destruct (pushPath _ _ _ values) as [values1|] eqn:E; [|discriminate].
  apply pushPath_after in E; [|vm_compute; reflexivity|exact Hvalues].
  simpl; destruct (_ && _); intros [= <-]; push_after_tac.
Qed.

Lemma pushActionContent_after (values values' : Values) :
  after_header values ->
  pushActionContent message peers values = Some values' ->
  after_header values'.
Proof.
  intros Hvalues; unfold pushActionContent, pushActor, pushAction,
    pushUserNames.
  destruct (Message_action message);
    try (intros [= <-]; cbv zeta; repeat destruct (_ =? _);
         push_after_tac; fail).
  apply pushPhoto_after; push_after_tac.
Qed.

Lemma pushSender_after (values : Values) :
  after_header values -> after_header (pushSender message peers values).
Proof.
  intros Hvalues; unfold pushSender.
  destruct (Message_action message); try exact Hvalues.
  cbv zeta; repeat destruct (_ =? _); push_after_tac.
Qed.

Lemma pushDocument_after data (values values' : Values) :
  after_header values ->
  pushDocument message data values = Some values' ->
  after_header values'.
Proof.
  intros Hvalues; unfold pushDocument; cbv zeta.
  match goal with
  | |- context [mbind _ ?first] =>
      destruct first as [values1|] eqn:E; [|discriminate]
  end.
  assert (H1 : after_header values1).
  { revert E.
    repeat match goal with
           | |- context [if ?b then _ else _] => destruct b
           end;
      try (apply pushPath_after; [vm_compute; reflexivity|exact Hvalues]);
      destruct (pushPath _ _ _ values) as [values2|] eqn:E2;
      try discriminate; simpl; intros [= <-];
      (apply pushPath_after in E2;
       [|vm_compute; reflexivity|exact Hvalues]);
      push_after_tac. }
  simpl; intros [= <-].
  repeat match goal with
         | |- context [if ?b then _ else _] => destruct b
         end; push_after_tac.
Qed.

Lemma pushMediaContent_after (values values' : Values) :
  after_header values ->
  pushMediaContent Q_OS_WIN message peers internalLinksDomain values
  = Some values' ->
  after_header values'.
Proof.
  intros Hvalues; unfold pushMediaContent.
  destruct (Media_content (Message_media message)) as
    [|photo|data|data|data|data|data|data|]; cbv zeta.
  - intros [= <-]; exact Hvalues.
  - destruct (pushPhoto _ values) as [values1|] eqn:E; [|discriminate].
    apply pushPhoto_after in E; [|exact Hvalues]; simpl.
    intros [= <-]; push_after_tac.
  - apply pushDocument_after, Hvalues.
  - intros [= <-]; push_after_tac.
  - intros [= <-]; push_after_tac.
  - intros [= <-]; destruct (GeoPoint_valid _); push_after_tac.
  - intros [= <-].
    repeat match goal with
           | |- context [if ?b then _ else _] => destruct b
           end; push_after_tac.
  - intros [= <-]; push_after_tac.
  - discriminate.
Qed.

End HeaderLabels.

Section Header.

Import Data.

Variable Q_OS_WIN : bool.
Context {fmt : Formatters}.
Variable message : Message.
Variable peers : gmap PeerId Peer.
Variable internalLinksDomain : QString.

(** The values of a message are the three pairs of the initializer and
    then pairs with other labels. *)
Lemma MessageValues_header values :
  MessageValues Q_OS_WIN message peers internalLinksDomain = Some values ->
  pushed_after not_header_label (initialValues message) values.
Proof.
  unfold MessageValues.
  destruct (pushActionContent _ _ _) as [values1|] eqn:E1; [|discriminate].
  simpl.
  destruct (pushMediaContent _ _ _ _ _) as [values2|] eqn:E2; [|discriminate].
  simpl; intros [= <-].
  apply push_after; [vm_compute; reflexivity|].
  eapply pushMediaContent_after; [|exact E2].
  apply pushSender_after.
  eapply pushActionContent_after; [|exact E1].
  exists []; split; [rewrite app_nil_r; reflexivity|constructor].
Qed.

Lemma not_header_label_spec label :
  not_header_label label = true <-> label ∉ header_labels.
Proof. unfold not_header_label; apply bool_decide_eq_true. Qed.

(** A pair with a header label that is written comes from the
    initializer. *)
Lemma kept_header_label (rest : Values) label value :
  label ∈ header_labels ->
  labels_pass not_header_label rest ->
  (label, value) ∈ kept (initialValues message ++ rest)
  <-> (label, value) ∈ initialValues message /\ value <> [].
Proof.
  intros Hlabel Hrest; unfold kept.
  rewrite list_elem_of_filter, elem_of_app; cbn [snd].
  split.
  - intros (Hvalue & [Hin|Hin]); [split; assumption|exfalso].
    apply (proj1 (Forall_forall _ _) Hrest) in Hin; cbn [fst] in Hin.
    apply not_header_label_spec in Hin; contradiction.
  - intros (Hin & Hvalue); split; [exact Hvalue|left; exact Hin].
Qed.

End Header.

(** C9, as the code has it.  For every message with supported media whose
    files pass the [Expects] of [pushPath], [SerializeMessage] returns the
    entries of the pairs it collected whose value is not empty, in order.
    The pairs are the "ID", "Date" and "Edited" pairs followed by pairs
    with other labels, so the output starts with the "ID" entry, a "Date"
    entry is written exactly when the formatted date is not empty, and an
    "Edited" entry exactly when the formatted edit time is not empty.  A
    zero timestamp formats to the empty token, so a message that was never
    edited has no "Edited" entry. *)
Theorem C9_header_entries
    (Q_OS_WIN : bool) (fmt : Data.Formatters) (message : Data.Message)
    (peers : gmap Data.PeerId Data.Peer) (internalLinksDomain : QString) :
  Data.Media_content (Data.Message_media message) <> Data.UnsupportedMedia ->
  files_ok message = true ->
  exists rest,
    let values := initialValues message ++ rest in
    MessageValues Q_OS_WIN message peers internalLinksDomain = Some values
    /\ Forall (fun entry => entry.1 ∉ header_labels) rest
    /\ SerializeMessage Q_OS_WIN message peers internalLinksDomain
       = Some (concat (map (fun entry => Entry Q_OS_WIN entry.1 entry.2)
                         (kept values)))
    /\ SerializeMessage Q_OS_WIN message peers internalLinksDomain
       = Some (lit "ID: " ++ Data.NumberToString0 (Data.Message_id message)
               ++ kLineBreak Q_OS_WIN
               ++ OptionalEntry Q_OS_WIN (lit "Date")
                    (Data.FormatDateTime (Data.Message_date message))
               ++ OptionalEntry Q_OS_WIN (lit "Edited")
                    (Data.FormatDateTime (Data.Message_edited message))
               ++ SerializeKeyValue Q_OS_WIN rest)
    /\ (forall value,
          (lit "ID", value) ∈ kept values
          <-> value = Data.NumberToString0 (Data.Message_id message))
    /\ (forall value,
          (lit "Date", value) ∈ kept values
          <-> value = Data.FormatDateTime (Data.Message_date message)
              /\ value <> [])
    /\ (forall value,
          (lit "Edited", value) ∈ kept values
          <-> value = Data.FormatDateTime (Data.Message_edited message)
              /\ value <> [])
    /\ (Data.Message_edited message = 0 ->
        forall value, (lit "Edited", value) ∉ kept values).
Proof.
  intros Hmedia Hfiles.
  destruct (MessageValues_returns Q_OS_WIN message peers internalLinksDomain
              Hmedia Hfiles) as [values Hvalues].
  destruct (MessageValues_header Q_OS_WIN message peers internalLinksDomain
              values Hvalues) as (rest & -> & Hrest).
  assert (Hout : SerializeMessage Q_OS_WIN message peers internalLinksDomain
                 = Some (SerializeKeyValue Q_OS_WIN
                           (initialValues message ++ rest))).
  { unfold SerializeMessage; rewrite Hvalues.
    destruct (Data.Media_content (Data.Message_media message));
      try reflexivity; contradiction. }
  assert (Hedited : forall value,
            (lit "Edited", value) ∈ kept (initialValues message ++ rest)
            <-> value = Data.FormatDateTime (Data.Message_edited message)
                /\ value <> []).
  { intros value; rewrite kept_header_label;
      [|unfold header_labels; rewrite !elem_of_cons; auto|exact Hrest].
    unfold initialValues; rewrite !elem_of_cons, elem_of_nil.
    split.
    - intros ([H|[H|[H|[]]]] & Hne); try discriminate H.
      injection H as ->; split; [reflexivity|exact Hne].
    - intros [-> Hne]; split; [right; right; left; reflexivity|exact Hne]. }
  exists rest; cbv zeta.
  split; [exact Hvalues|].
  split.
  { eapply Forall_impl; [exact Hrest|].
    intros entry Hentry; apply not_header_label_spec, Hentry. }
  split.
  { rewrite Hout; unfold SerializeKeyValue.
    rewrite SerializeKeyValue_fold; reflexivity. }
  split.
  { rewrite Hout, SerializeKeyValue_app.
    unfold SerializeKeyValue at 1, initialValues.
    rewrite SerializeKeyValue_fold.
    pose proof (NumberToString0_not_empty (Data.Message_id message)) as Hne.
    pose proof (NumberToString0_one_line (Data.Message_id message)) as Hone.
    unfold kept, OptionalEntry.
    rewrite filter_cons_True by exact Hne.
    assert (Hid : Entry Q_OS_WIN (lit "ID")
                    (Data.NumberToString0 (Data.Message_id message))
                  = lit "ID: "
                    ++ Data.NumberToString0 (Data.Message_id message)
                    ++ kLineBreak Q_OS_WIN).
    { unfold Entry.
      destruct (bool_decide_reflect
                  (LF ∈ Data.NumberToString0 (Data.Message_id message)))
        as [Hin|_]; [|reflexivity].
      apply count_LF_elem in Hin; lia. }
    cbn [map concat fst snd app]; rewrite Hid.
    destruct (Data.FormatDateTime (Data.Message_date message)) as [|b1 date];
      destruct (Data.FormatDateTime (Data.Message_edited message))
        as [|b2 edited]; cbn [isEmpty];
      repeat first [rewrite filter_cons_True by (simpl; congruence)
                   |rewrite filter_cons_False by (simpl; congruence)];
      rewrite filter_nil; cbn [map concat fst snd];
      rewrite ?app_nil_r, <- ?app_assoc; reflexivity. }
  split.
  { intros value; rewrite kept_header_label;
      [|unfold header_labels; rewrite !elem_of_cons; auto|exact Hrest].
    unfold initialValues; rewrite !elem_of_cons, elem_of_nil.
    split.
    - intros ([H|[H|[H|[]]]] & Hne); try discriminate H.
      injection H as ->; reflexivity.
    - intros ->; split; [left; reflexivity|].
      apply NumberToString0_not_empty. }
  split.
  { intros value; rewrite kept_header_label;
      [|unfold header_labels; rewrite !elem_of_cons; auto|exact Hrest].
    unfold initialValues; rewrite !elem_of_cons, elem_of_nil.
    split.
    - intros ([H|[H|[H|[]]]] & Hne); try discriminate H.
      injection H as ->; split; [reflexivity|exact Hne].
    - intros [-> Hne]; split; [right; left; reflexivity|exact Hne]. }
  split; [exact Hedited|].
  intros Hzero value Hin; apply Hedited in Hin as [-> Hne].
  rewrite Hzero, Data.FormatDateTime_zero in Hne; congruence.
Qed.

Lemma C9_header_entries_witness :
  exists rest,
    MessageValues (fmt := Data.plain_formatters) false plain_message ∅ []
    = Some (initialValues (fmt := Data.plain_formatters) plain_message
            ++ rest)
    /\ Forall (fun entry => entry.1 ∉ header_labels) rest
    /\ forall value,
         (lit "Edited", value)
         ∉ kept (initialValues (fmt := Data.plain_formatters) plain_message
                 ++ rest).
Proof.
  destruct (C9_header_entries false Data.plain_formatters plain_message ∅ []
              ltac:(discriminate) eq_refl)
    as (rest & Hvalues & Hrest & _ & _ & _ & _ & _ & Hnone).
  exists rest; split; [exact Hvalues|split; [exact Hrest|]].
  exact (Hnone eq_refl).
Defined.

(** C9, as the spec states it, fails on a message that was never edited:
    its output has an "ID" and a "Date" entry and no "Edited" entry. *)
Lemma C9_counterexample :
  Data.Media_content (Data.Message_media plain_message) = Data.MediaNone
  /\ exists output,
       SerializeMessage (fmt := Data.plain_formatters) false plain_message
         ∅ [] = Some output
       /\ hasEntry (lit "ID") output = true
       /\ hasEntry (lit "Date") output = true
       /\ hasEntry (lit "Edited") output = false.
Proof.
  split; [reflexivity|].
  exists (lit "ID: 7" ++ [LF] ++ lit "Date: 01.01.2018 00:00:00" ++ [LF]
          ++ lit "Text: hi" ++ [LF]).
  repeat split; vm_compute; reflexivity.
Qed.

(** C10. On a writer whose main file is open, [writeUserpicsSlice] with a
    slice that is not empty makes one write to the main file: one
    terminated line per entry, in input order.  An entry with a zero date
    reads "(deleted photo)"; one with a date and an empty file path reads
    the formatted date, " - " and "(file unavailable)"; any other reads the
    formatted date, " - " and the relative path of the file.  The call
    returns whether the write succeeded. *)
Theorem C10_userpics_slice_lines
    (Q_OS_WIN : bool) (fmt : Data.Formatters) (data : Data.UserpicsSlice)
    (w : Output.TextWriter) (io : Output.World) (file : Output.File) :
  Output._result w = Some file ->
  Data.UserpicsSlice_list data <> [] ->
  exists w',
    writeUserpicsSlice Q_OS_WIN data w io
    = Output.Returned (Output.is_Success (next_result io)) w'
        (after_write (Output.File_path file)
           (concat (map (userpic_line Q_OS_WIN)
                      (Data.UserpicsSlice_list data))) io).
Proof.
  intros Hfile Hlist.
  destruct (writeUserpicsSlice_returns Q_OS_WIN data w io file Hfile Hlist)
    as (file' & -> & _).
  eauto.
Qed.

(** C7. On a writer whose main file is open: when the userpics count is
    zero, [writeUserpicsStart] and [writeUserpicsEnd] both return success
    and make no write at all; when it is greater than zero,
    [writeUserpicsEnd], called after the start and any slices, makes exactly
    one write, of one line break, to the main file. *)
Theorem C7_userpics_end_separator
    (Q_OS_WIN : bool) (fmt : Data.Formatters) (data : Data.UserpicsInfo)
    (slices : list Data.UserpicsSlice)
    (w : Output.TextWriter) (io : Output.World) (file : Output.File) :
  Output._result w = Some file ->
  (Data.UserpicsInfo_count data = 0 ->
   exists w',
     writeUserpicsStart Q_OS_WIN data w io = Output.Returned true w' io
     /\ writeUserpicsEnd Q_OS_WIN w' io = Output.Returned true w' io)
  /\ (0 < Data.UserpicsInfo_count data ->
      forall results w1 io1,
        calls Q_OS_WIN
          (WriteUserpicsStart data :: map WriteUserpicsSlice slices) w io
        = Output.Returned results w1 io1 ->
        exists w2,
          writeUserpicsEnd Q_OS_WIN w1 io1
          = Output.Returned (Output.is_Success (next_result io1)) w2
              (after_write (Output.File_path file) (kLineBreak Q_OS_WIN)
                 io1)).
Proof.
  intros Hfile; split.
  - intros Hzero.
    destruct (writeUserpicsStart_returns Q_OS_WIN data w io file Hfile)
      as (w' & Hstart & Hcount & file' & Hfile' & _).
    rewrite Hzero in Hstart, Hcount; simpl in Hstart.
    exists w'; split; [exact Hstart|].
    destruct (writeUserpicsEnd_returns Q_OS_WIN w' io file' Hfile')
      as (w'' & Hend).
    rewrite Hcount in Hend; simpl in Hend.
    revert Hend; unfold writeUserpicsEnd, Output.bind, Output.this,
      Output.Expects, Output.ret.
    rewrite Hfile', Hcount; simpl; reflexivity.
  - intros Hpos results w1 io1 Hcalls.
    apply calls_cons_inv in Hcalls
      as (result & w2 & io2 & results' & Hcall & Hrest & ->).
    cbn [call] in Hcall.
    destruct (writeUserpicsStart_returns Q_OS_WIN data w io file Hfile)
      as (w' & Hstart & Hcount & file' & Hfile' & Hpath').
    assert (Hw : w2 = w').
    { rewrite Hstart in Hcall.
      destruct (Data.UserpicsInfo_count data =? 0); congruence. }
    subst w2.
    destruct (userpics_slices_keep Q_OS_WIN slices _ _ _ _ _ file' Hfile' Hrest)
      as (Hcount1 & file1 & Hfile1 & Hpath1).
    destruct (writeUserpicsEnd_returns Q_OS_WIN w1 io1 file1 Hfile1)
      as (w3 & Hend).
    rewrite Hcount1, Hcount in Hend.
    destruct (Z.gtb_spec (Data.UserpicsInfo_count data) 0) as [_|Hle]; [|lia].
    exists w3; rewrite Hend; congruence.
Qed.

(** C6. After the start of a dialog and its slices, [writeDialogEnd]
    returns [true]; when the dialog had no slice it makes exactly one write
    to the file of the dialog, of "No outgoing messages in this chat." for a
    dialog with only my messages and of "No messages in this chat."
    otherwise; when the dialog had a slice it makes no write.  The same
    holds for the calls of the left channels. *)
Theorem C6_chat_end_placeholder
    (Q_OS_WIN : bool) (fmt : Data.Formatters) (dialog : Data.DialogInfo)
    (slices : list Data.MessagesSlice)
    (w w1 : Output.TextWriter) (io io1 : Output.World)
    (results : list bool) :
  (calls Q_OS_WIN (WriteDialogStart dialog :: map WriteDialogSlice slices)
     w io = Output.Returned results w1 io1
   \/ calls Q_OS_WIN
        (WriteLeftChannelStart dialog :: map WriteLeftChannelSlice slices)
        w io = Output.Returned results w1 io1) ->
  let io2 :=
    match slices with
    | [] =>
        after_write
          (Output.Settings_path (Output._settings w)
           ++ Data.DialogInfo_relativePath dialog ++ lit "messages.txt")
          (if Data.DialogInfo_onlyMyMessages dialog
           then lit "No outgoing messages in this chat."
           else lit "No messages in this chat.") io1
    | _ :: _ => io1
    end in
  writeDialogEnd w1 io1 = Output.Returned true (Output.set_chat None w1) io2
  /\ writeLeftChannelEnd w1 io1
     = Output.Returned true (Output.set_chat None w1) io2.
Proof.
  intros Hcalls io2.
  assert (Hstate :
    Output._dialogEmpty w1 = match slices with [] => true | _ => false end
    /\ Output._dialogOnlyMy w1 = Data.DialogInfo_onlyMyMessages dialog
    /\ exists file, Output._chat w1 = Some file
                    /\ Output.File_path file = chat_path w dialog).
  { destruct Hcalls as [Hcalls|Hcalls];
      apply calls_cons_inv in Hcalls
        as (result & w2 & io2' & results' & Hcall & Hrest & ->);
      cbn [call] in Hcall;
      apply writeChatStart_returns in Hcall
        as (_ & _ & _ & Hempty & Hmy & file & Hfile & Hpath);
      (eapply chat_slices_keep in Hrest;
       [|clear; induction slices; simpl; auto|exact Hfile]);
      destruct Hrest as (Hempty1 & Hmy1 & file1 & Hfile1 & Hpath1);
      (split; [destruct slices; simpl in *; congruence|]);
      (split; [congruence|]);
      exists file1; (split; [exact Hfile1 | congruence]). }
  destruct Hstate as (Hempty & Hmy & file & Hfile & Hpath).
  assert (Hend : writeChatEnd w1 io1
                 = Output.Returned true (Output.set_chat None w1) io2).
  { rewrite (writeChatEnd_returns w1 io1 file Hfile).
    subst io2; rewrite Hempty, Hmy, Hpath.
    destruct slices; reflexivity. }
  split; exact Hend.
Qed.

Lemma C10_userpics_slice_witness :
  exists w',
    writeUserpicsSlice (fmt := Data.plain_formatters) false
      {| Data.UserpicsSlice_list := [one_userpic] |}
      started_writer (fresh_world [])
    = Output.Returned true w'
        (after_write (lit "/export/result.txt")
           (lit "01.01.2018 00:00:00 - photos/1.jpg" ++ [LF])
           (fresh_world [])).
Proof.
  apply (C10_userpics_slice_lines false Data.plain_formatters
           {| Data.UserpicsSlice_list := [one_userpic] |}
           started_writer (fresh_world [])
           {| Output.File_path := lit "/export/result.txt";
              Output.File_offset := 0 |});
    [reflexivity | discriminate].
Defined.

Lemma C7_userpics_end_witness :
  exists w',
    writeUserpicsStart false {| Data.UserpicsInfo_count := 0 |}
      started_writer (fresh_world [])
    = Output.Returned true w' (fresh_world [])
    /\ writeUserpicsEnd false w' (fresh_world [])
       = Output.Returned true w' (fresh_world []).
Proof.
  apply (C7_userpics_end_separator false Data.plain_formatters
           {| Data.UserpicsInfo_count := 0 |} [] started_writer
           (fresh_world [])
           {| Output.File_path := lit "/export/result.txt";
              Output.File_offset := 0 |});
    reflexivity.
Defined.

Lemma C6_chat_end_witness :
  exists w1 io1,
    calls (fmt := Data.plain_formatters) false
      [WriteDialogStart (personal_dialog "ann" true)]
      (Output.set_dialogsCount 1 started_writer) (fresh_world [])
    = Output.Returned [true] w1 io1
    /\ writeDialogEnd w1 io1
       = Output.Returned true (Output.set_chat None w1)
           (after_write (lit "/export/chats/ann/messages.txt")
              (lit "No outgoing messages in this chat.") io1).
Proof.
  eexists _, _; split; [reflexivity|].
  exact (proj1 (C6_chat_end_placeholder false Data.plain_formatters
                  (personal_dialog "ann" true) []
                  (Output.set_dialogsCount 1 started_writer) _
                  (fresh_world []) _ [true] (or_introl eq_refl))).
Defined.

(** C3 fails on the code.  On a sink whose third write fails, the end of a
    dialog without messages writes the placeholder sentence, the sink
    answers with a failure, and [writeDialogEnd] returns [true] all the
    same; [writePersonal] on a failing sink returns [false]. *)
Theorem C3_chat_end_hides_failure :
  let session :=
    calls (fmt := Data.plain_formatters) false
      [Start export_settings;
       WriteDialogsStart
         {| Data.DialogsInfo_list := [personal_dialog "ann" false] |};
       WriteDialogStart (personal_dialog "ann" false);
       WriteDialogEnd]
      Output.TextWriter_new
      (fresh_world [Output.Success; Output.Success; Output.Failure]) in
  Output.returned session = Some [true; true; true; true]
  /\ (io ← Output.world_after session; last (Output.World_calls io))
     = Some {| Output.WriteCall_path := lit "/export/chats/ann/messages.txt";
               Output.WriteCall_block := lit "No messages in this chat.";
               Output.WriteCall_result := Output.Failure |}
  /\ Output.returned
       (writePersonal (fmt := Data.plain_formatters) false
          {| Data.PersonalInfo_user := Data.empty_User;
             Data.PersonalInfo_bio := [] |}
          started_writer (fresh_world [Output.Failure]))
     = Some false.
Proof. repeat split; vm_compute; reflexivity. Qed.

(** C4 fails on the code.  A session of one dialog followed by one left
    channel, neither with messages, stops at the [Expects] of
    [writeChatStart] in [writeLeftChannelStart]: the running index is 1 and
    the recorded count is 1.  The dialogs alone, and the left channel
    alone, are accepted. *)
Theorem C4_left_channel_start_faults :
  let ann := (personal_dialog "ann" false, []) in
  let news := (personal_dialog "news" false, []) in
  let run cs :=
    calls (fmt := Data.plain_formatters) false cs
      Output.TextWriter_new (fresh_world []) in
  let before :=
    run (Start export_settings :: dialogs_phase [ann]
         ++ [WriteLeftChannelsStart
               {| Data.DialogsInfo_list := [news.1] |}]) in
  run (session export_settings [ann] [news]) = Output.Faulted
  /\ Output._dialogIndex <$> Output.writer_after before = Some 1
  /\ Output._dialogsCount <$> Output.writer_after before = Some 1
  /\ (w ← Output.writer_after before;
      io ← Output.world_after before;
      Some (writeLeftChannelStart news.1 w io)) = Some Output.Faulted
  /\ Output.returned (run (session export_settings [ann] []))
     = Some (replicate 8 true)
  /\ Output.returned (run (session export_settings [] [news]))
     = Some (replicate 8 true).
Proof. repeat split; vm_compute; reflexivity. Qed.

Lemma int_small z : - 2 ^ 31 <= z < 2 ^ 31 -> int z = z.
Proof. intros Hz; unfold int; rewrite Z.mod_small by lia; lia. Qed.

(** A number is filled up to the length asked for and never cut. *)
Lemma NumberToString_size value length filler :
  size (Data.NumberToString value length filler)
  = Z.max length (size (Data.NumberToString0 value)).
Proof.
  unfold Data.NumberToString0, Data.NumberToString; cbv zeta.
  set (result := lit (NilZero.string_of_int (Z.to_int value))).
  assert (Hresult : 0 <= size result) by (unfold size; lia).
  replace (Z.to_nat (Z.max 0 (0 - size result))) with 0%nat by lia.
  cbn [replicate app]; unfold size in *.
  rewrite length_app, length_replicate; lia.
Qed.

Section IndexStrings.

Import Data Output.

Variable Q_OS_WIN : bool.
Context {fmt : Formatters}.

Lemma writeChatSlice_numbers data w io result w1 io1 :
  writeChatSlice Q_OS_WIN data w io = Returned result w1 io1 ->
  World_numbers io1 = World_numbers io.
Proof.
  unfold writeChatSlice, bind, this, Expects, assign, ret, writeBlock_on.
  destruct (_chat w) as [file|] eqn:Hfile; [|discriminate].
  simpl bool_decide; cbv iota.
  destruct (negb _); [|discriminate].
  destruct (mapM _ _) as [list|]; [|discriminate].
  cbn [_chat set_dialogEmpty].
  rewrite Hfile.
  match goal with
  | |- context [File_writeBlock ?file ?block ?io] =>
      destruct (File_writeBlock_after file block io) as (file' & -> & _)
  end.
  intros [= <- <- <-]; reflexivity.
Qed.

Lemma writeChatEnd_numbers w io result w1 io1 :
  writeChatEnd w io = Returned result w1 io1 ->
  World_numbers io1 = World_numbers io.
Proof.
  unfold writeChatEnd, bind, this, Expects, assign, ret.
  destruct (_chat w) as [file|] eqn:Hfile; [|discriminate].
  simpl bool_decide; cbv iota.
  destruct (_dialogEmpty w).
  - destruct (writeBlock_on_chat
                (if _dialogOnlyMy w
                 then lit "No outgoing messages in this chat."
                 else lit "No messages in this chat.") w io file Hfile)
      as (file' & -> & _).
    intros [= <- <- <-]; reflexivity.
  - intros [= <- <- <-]; reflexivity.
Qed.

Lemma writeChatsStart_numbers data listName fileName w io result w1 io1 :
  writeChatsStart Q_OS_WIN data listName fileName w io
  = Returned result w1 io1 ->
  World_numbers io1 = World_numbers io.
Proof.
  unfold writeChatsStart, bind, this, Expects, assign, ret,
    writeBlock_local, writeBlock_on.
  destruct (bool_decide (is_Some (_result w))) eqn:Hres; [|discriminate].
  destruct (DialogsInfo_list data) as [|dialog dialogs] eqn:Hlist.
  - simpl; intros [= <- <- <-]; reflexivity.
  - rewrite bool_decide_eq_false_2 by discriminate.
    match goal with
    | |- context [File_writeBlock ?file ?block ?io] =>
        destruct (File_writeBlock_after file block io) as (file' & -> & _)
    end.
    cbn [fst]; destruct (negb (is_Success (next_result io))).
    + intros [= <- <- <-]; reflexivity.
    + cbn [_result set_dialogsCount].
      destruct (_result w) as [file|]; [|discriminate].
      match goal with
      | |- context [File_writeBlock ?file ?block ?io] =>
          destruct (File_writeBlock_after file block io)
            as (file2 & -> & _)
      end.
      intros [= <- <- <-]; reflexivity.
Qed.

Lemma chat_slices_numbers cs :
  forall w io results w1 io1,
    forallb is_slice cs = true ->
    calls Q_OS_WIN cs w io = Returned results w1 io1 ->
    World_numbers io1 = World_numbers io.
Proof.
  induction cs as [|c cs IH]; intros w io results w1 io1 Hslices Hcalls.
  - injection Hcalls as <- <- <-; reflexivity.
  - apply andb_prop in Hslices as [Hc Hcs].
    apply calls_cons_inv in Hcalls
      as (result & w2 & io2 & results' & Hcall & Hrest & ->).
    assert (Hslice : exists data,
              writeChatSlice Q_OS_WIN data w io = Returned result w2 io2).
    { destruct c; try discriminate Hc; eexists; exact Hcall. }
    destruct Hslice as (data & Hslice).
    apply writeChatSlice_numbers in Hslice.
    rewrite (IH _ _ _ _ _ Hcs Hrest); exact Hslice.
Qed.

(** The calls of one dialog generate one index string. *)
Lemma one_chat_number first slices last w io results w1 io1 :
  is_chat_start first = true ->
  forallb is_slice slices = true ->
  is_chat_end last = true ->
  calls Q_OS_WIN (first :: slices ++ [last]) w io
  = Returned results w1 io1 ->
  World_numbers io1
  = World_numbers io
    ++ [NumberToString (int (_dialogIndex w + 1))
          (size (NumberToString0 (int (_dialogsCount w - 1)))) "0"%byte].
Proof.
  intros Hfirst Hslices Hlast Hcalls.
  apply calls_cons_inv in Hcalls
    as (result & w2 & io2 & results' & Hcall & Hrest & ->).
  apply calls_app_inv in Hrest
    as (results1 & w3 & io3 & results2 & Hmid & Hend).
  apply calls_cons_inv in Hend
    as (result' & w4 & io4 & results3 & Hcall' & Hnil & ->).
  injection Hnil as <- <- <-.
  assert (Hstart : exists data,
            writeChatStart data w io = Returned result w2 io2).
  { destruct first; try discriminate Hfirst; eexists; exact Hcall. }
  destruct Hstart as (data & Hstart).
  apply writeChatStart_number in Hstart.
  apply (chat_slices_numbers _ _ _ _ _ _ Hslices) in Hmid.
  assert (Hend : writeChatEnd w3 io3 = Returned result' w4 io4).
  { destruct last; try discriminate Hlast; exact Hcall'. }
  apply writeChatEnd_numbers in Hend.
  congruence.
Qed.

(** The dialogs of a group generate the index strings of the numbers that
    follow the running index, one by one. *)
Lemma chats_numbers (block : DialogInfo * list MessagesSlice -> list Call)
    dialogs :
  (forall dialog, exists first slices last,
      block dialog = first :: slices ++ [last]
      /\ is_chat_start first = true
      /\ forallb is_slice slices = true
      /\ is_chat_end last = true) ->
  forall w io results w1 io1,
    0 <= _dialogIndex w ->
    _dialogsCount w < 2 ^ 31 ->
    calls Q_OS_WIN (flat_map block dialogs) w io = Returned results w1 io1 ->
    World_numbers io1
    = World_numbers io
      ++ map (fun index =>
                NumberToString index
                  (size (NumberToString0 (int (_dialogsCount w - 1))))
                  "0"%byte)
           (seqZ (_dialogIndex w + 1) (size' dialogs)).
Proof.
  intros Hblock; induction dialogs as [|dialog dialogs IH];
    intros w io results w1 io1 Hpos Hcount Hcalls.
  - injection Hcalls as <- <- <-.
    rewrite seqZ_nil by (unfold size'; simpl; lia).
    cbn [map]; rewrite app_nil_r; reflexivity.
  - cbn [flat_map] in Hcalls.
    apply calls_app_inv in Hcalls
      as (results1 & w2 & io2 & results2 & Hone & Hrest).
    destruct (Hblock dialog)
      as (first & slices & last & Hshape & Hfirst & Hslices & Hlast).
    rewrite Hshape in Hone.
    pose proof (one_chat_number _ _ _ _ _ _ _ _ Hfirst Hslices Hlast Hone)
      as Hnumber.
    apply (one_chat_index _ _ _ _ _ _ _ _ _ Hfirst Hslices Hlast) in Hone
      as (Hlt & Hi2 & Hc2).
    rewrite int_small in Hi2, Hnumber by lia.
    rewrite (IH w2 io2 results2 w1 io1) by (first [lia|exact Hrest]).
    rewrite Hnumber, Hi2, Hc2, <- app_assoc.
    rewrite (seqZ_cons (_dialogIndex w + 1))
      by (unfold size'; cbn [length]; lia).
    replace (Z.pred (size' (dialog :: dialogs))) with (size' dialogs)
      by (unfold size'; cbn [length]; lia).
    replace (Z.succ (_dialogIndex w + 1)) with (_dialogIndex w + 1 + 1)
      by lia.
    reflexivity.
Qed.

Lemma phase_numbers (left : bool)
    (dialogs : list (DialogInfo * list MessagesSlice))
    w io results w1 io1 :
  _dialogIndex w = 0 ->
  size' dialogs < 2 ^ 31 ->
  calls Q_OS_WIN
    (if left then left_channels_phase dialogs else dialogs_phase dialogs)
    w io
  = Returned results w1 io1 ->
  World_numbers io1
  = World_numbers io
    ++ map (fun index =>
              NumberToString index
                (size (NumberToString0 (size' dialogs - 1))) "0"%byte)
         (seqZ 1 (size' dialogs)).
Proof.
  intros Hindex Hsize Hcalls.
  assert (Hshape :
    exists listCall block lastCall listName fileName,
      (if left then left_channels_phase dialogs else dialogs_phase dialogs)
      = listCall :: flat_map block dialogs ++ [lastCall]
      /\ call Q_OS_WIN listCall
         = writeChatsStart Q_OS_WIN
             {| DialogsInfo_list := map fst dialogs |} listName fileName
      /\ call Q_OS_WIN lastCall = ret true
      /\ forall dialog, exists first slices last,
           block dialog = first :: slices ++ [last]
           /\ is_chat_start first = true
           /\ forallb is_slice slices = true
           /\ is_chat_end last = true).
  { destruct left; eexists _, _, _, _, _;
      (split; [reflexivity|split; [reflexivity|split; [reflexivity|]]]);
      intros dialog; eexists _, _, _; (split; [reflexivity|]);
      repeat split; clear; induction (dialog.2); simpl; auto. }
  destruct Hshape
    as (listCall & block & lastCall & listName & fileName
        & Hphase & HlistCall & HlastCall & Hblock).
  rewrite Hphase in Hcalls; clear Hphase.
  apply calls_cons_inv in Hcalls
    as (r1 & w2 & io2 & rs1 & Hlist & Hcalls & _).
  rewrite HlistCall in Hlist.
  pose proof (writeChatsStart_numbers _ _ _ _ _ _ _ _ Hlist) as Hn2.
  apply writeChatsStart_index in Hlist as (Hi2 & Hc2).
  cbn [DialogsInfo_list] in Hc2.
  apply calls_app_inv in Hcalls
    as (rs2 & w3 & io3 & rs3 & Hbody & Hlast).
  apply calls_cons_inv in Hlast
    as (r4 & w4 & io4 & rs4 & Hlast & Hnil & _).
  rewrite HlastCall in Hlast.
  injection Hlast as <- <- <-; injection Hnil as <- <- <-.
  destruct dialogs as [|dialog dialogs].
  - injection Hbody as <- <- <-.
    rewrite seqZ_nil by (unfold size'; simpl; lia).
    cbn [map]; rewrite app_nil_r; exact Hn2.
  - assert (Hcount : _dialogsCount w2 = size' (dialog :: dialogs)).
    { rewrite Hc2; cbn [map]; unfold size' in *; cbn [length] in *.
      rewrite length_map, int_small by lia; reflexivity. }
    apply (chats_numbers block _ Hblock) in Hbody; [|lia|lia].
    rewrite Hbody, Hn2, Hi2, Hindex, Hcount.
    rewrite int_small by (unfold size' in *; cbn [length] in *; lia).
    reflexivity.
Qed.

End IndexStrings.

(** C5, as the code has it.  In a group of N dialogs (fewer than 2^31) on
    a writer whose running index is 0, the calls to [writeChatStart]
    generate, in input order, the index strings of 1, 2, ..., N: each is the
    decimal number filled on the left with zeros up to the number of digits
    of N-1, and never cut, so its length is the larger of the number of
    digits of N-1 and the number of digits of the index. *)
Theorem C5_index_strings
    (Q_OS_WIN : bool) (fmt : Data.Formatters) (left : bool)
    (dialogs : list (Data.DialogInfo * list Data.MessagesSlice))
    (w w' : Output.TextWriter) (io io' : Output.World)
    (results : list bool) :
  Output._dialogIndex w = 0 ->
  size' dialogs < 2 ^ 31 ->
  calls Q_OS_WIN
    (if left then left_channels_phase dialogs else dialogs_phase dialogs)
    w io
  = Output.Returned results w' io' ->
  let digits := size (Data.NumberToString0 (size' dialogs - 1)) in
  Output.World_numbers io'
  = Output.World_numbers io
    ++ map (fun index => Data.NumberToString index digits "0"%byte)
         (seqZ 1 (size' dialogs))
  /\ forall index,
       size (Data.NumberToString index digits "0"%byte)
       = Z.max digits (size (Data.NumberToString0 index)).
Proof.
  intros Hindex Hsize Hcalls digits; split.
  - exact (phase_numbers Q_OS_WIN left dialogs w io results w' io'
             Hindex Hsize Hcalls).
  - intros index; apply NumberToString_size.
Qed.

Lemma C5_index_strings_witness :
  let dialogs :=
    [(personal_dialog "ann" true, []); (personal_dialog "bo" false, [])] in
  match calls (fmt := Data.plain_formatters) false (dialogs_phase dialogs)
          started_writer (fresh_world []) with
  | Output.Returned _ _ io' =>
      Output.World_numbers io' = [] ++ map lit ["1"; "2"]%string
  | Output.Faulted => False
  end.
Proof.
  intros dialogs.
  destruct (calls (fmt := Data.plain_formatters) false
              (dialogs_phase dialogs) started_writer (fresh_world []))
    as [results w' io'|] eqn:Hrun.
  - exact (proj1 (C5_index_strings false Data.plain_formatters false dialogs
                    started_writer w' (fresh_world []) io' results
                    eq_refl eq_refl Hrun)).
  - vm_compute in Hrun; discriminate Hrun.
Defined.

(** C5, as the spec states it, fails on a group of ten dialogs: the width
    is the one digit of 9, and the indices run from 1 to 10 in input order,
    so the tenth index string is "10", two characters long; no ten strings
    of one decimal digit can increase from 1. *)
Theorem C5_tenth_index_is_wider :
  let after :=
    calls (fmt := Data.plain_formatters) false
      (Start export_settings :: dialogs_phase ten_dialogs)
      Output.TextWriter_new (fresh_world []) in
  Output._dialogsCount <$> Output.writer_after after = Some 10
  /\ size (Data.NumberToString0 (10 - 1)) = 1
  /\ Output.World_numbers <$> Output.world_after after
     = Some (map lit
               ["1"; "2"; "3"; "4"; "5"; "6"; "7"; "8"; "9"; "10"]%string)
  /\ map size <$> (Output.World_numbers <$> Output.world_after after)
     = Some [1; 1; 1; 1; 1; 1; 1; 1; 1; 2].
Proof. repeat split; vm_compute; reflexivity. Qed.

(** * Further properties of the code *)

(** ** [JoinList] *)

Lemma JoinList_loop_joined separator rest :
  forall first result,
    JoinList_loop separator (first :: rest) result
    = result ++ first ++ concat (map (app separator) rest).
Proof.
  induction rest as [|second rest IH]; intros first result.
  - cbn [JoinList_loop map concat]; rewrite app_nil_r; reflexivity.
  - change (JoinList_loop separator (first :: second :: rest) result)
      with (JoinList_loop separator (second :: rest)
              ((result ++ first) ++ separator)).
    rewrite IH; cbn [map concat]; rewrite <- !app_assoc; reflexivity.
Qed.

Lemma JoinList_joined (separator : QByteArray) (list : list QByteArray) :
  JoinList separator list
  = match list with
    | [] => []
    | first :: rest => first ++ concat (map (app separator) rest)
    end.
Proof.
  destruct list as [|first [|second rest]]; cbn [JoinList map concat].
  - reflexivity.
  - rewrite app_nil_r; reflexivity.
  - rewrite JoinList_loop_joined; reflexivity.
Qed.

(** X1. [JoinList] puts the separator between every two neighbours and
    nowhere else: the empty list gives the empty array, and a list gives its
    first element followed by each further element with the separator
    before it. *)
Theorem X1_JoinList_between (separator : QByteArray)
    (list : list QByteArray) :
  JoinList separator list
  = match list with
    | [] => []
    | first :: rest => first ++ concat (map (app separator) rest)
    end.
Proof. apply JoinList_joined. Qed.

(** X2. Joining two lists that are not empty, one after the other, is
    joining each and putting one separator between the results. *)
Theorem X2_JoinList_app (separator : QByteArray)
    (list1 list2 : list QByteArray) :
  list1 <> [] -> list2 <> [] ->
  JoinList separator (list1 ++ list2)
  = JoinList separator list1 ++ separator ++ JoinList separator list2.
Proof.
  intros H1 H2; rewrite !JoinList_joined.
  destruct list1 as [|first1 rest1]; [congruence|].
  destruct list2 as [|first2 rest2]; [congruence|].
  rewrite <- app_comm_cons, map_app, concat_app.
  cbn [map concat]; rewrite <- !app_assoc; reflexivity.
Qed.

Lemma X2_JoinList_app_witness :
  JoinList (lit ", ") ([lit "Ann"; lit "Bo"] ++ [lit "Cy"])
  = JoinList (lit ", ") [lit "Ann"; lit "Bo"] ++ lit ", "
    ++ JoinList (lit ", ") [lit "Cy"].
Proof.
  apply (X2_JoinList_app (lit ", ") [lit "Ann"; lit "Bo"] [lit "Cy"]);
    discriminate.
Defined.

Lemma JoinList_size_sum (values : list QByteArray) :
  forall total,
    0 <= total ->
    total + size (concat values) < 2 ^ 64 ->
    fold_left (fun total value => (total + size value) mod 2 ^ 64)
      values total
    = total + size (concat values).
Proof.
  induction values as [|value values IH]; intros total Hpos Hfit;
    cbn [fold_left concat] in *.
  - unfold size; simpl; lia.
  - unfold size in *; rewrite length_app in Hfit.
    rewrite Z.mod_small by lia.
    rewrite IH by lia; rewrite length_app; lia.
Qed.

Lemma JoinList_size_exact (separator : QByteArray)
    (list : list QByteArray) :
  2 <= size' list ->
  size (JoinList separator list) < 2 ^ 31 ->
  JoinList_size separator list = size (JoinList separator list).
Proof.
  intros Hcount; rewrite JoinList_joined.
  destruct list as [|first rest]; [unfold size' in Hcount; simpl in *; lia|].
  assert (Hsep : length (concat (map (app separator) rest))
                 = (length rest * length separator
                    + length (concat rest))%nat).
  { clear; induction rest as [|second rest IH]; cbn [map concat length];
      [reflexivity|].
    rewrite !length_app, IH; simpl; lia. }
  intros Hfit; unfold JoinList_size; cbv zeta.
  assert (Htotal : size (first ++ concat (map (app separator) rest))
                   = (size' (first :: rest) - 1) * size separator
                     + size (concat (first :: rest))).
  { unfold size, size'; cbn [concat length].
    rewrite !length_app, Hsep; nia. }
  assert (Hpos : 0 <= (size' (first :: rest) - 1) * size separator)
    by (unfold size, size'; cbn [length]; nia).
  assert (Hpos' : 0 <= size (concat (first :: rest)))
    by (unfold size; lia).
  rewrite (Z.mod_small ((size' (first :: rest) - 1) * size separator))
    by lia.
  rewrite JoinList_size_sum by lia.
  rewrite <- Htotal, Z.mod_small by (unfold size in *; lia).
  lia.
Qed.

(** X3. The reserve of [JoinList] is exact: for a list of two or more
    elements whose joined size fits an [int], the size that the code
    computes and passes to [result.reserve] is the size of the result. *)
Theorem X3_JoinList_size (separator : QByteArray)
    (list : list QByteArray) :
  2 <= size' list ->
  size (JoinList separator list) < 2 ^ 31 ->
  JoinList_size separator list = size (JoinList separator list).
Proof. apply JoinList_size_exact. Qed.

Lemma X3_JoinList_size_witness :
  JoinList_size (lit ", ") [lit "Ann"; lit "Bo"; lit "Cy"]
  = size (JoinList (lit ", ") [lit "Ann"; lit "Bo"; lit "Cy"]).
Proof.
  apply (X3_JoinList_size (lit ", ") [lit "Ann"; lit "Bo"; lit "Cy"]);
    vm_compute; [discriminate|reflexivity].
Defined.

(** ** [SerializeKeyValue] *)

Lemma kLineBreak_ends_with_LF Q_OS_WIN :
  exists before, kLineBreak Q_OS_WIN = before ++ [LF].
Proof. destruct Q_OS_WIN; [exists [CR]|exists []]; reflexivity. Qed.

Lemma Entry_ends Q_OS_WIN key value :
  kLineBreak Q_OS_WIN `suffix_of` Entry Q_OS_WIN key value.
Proof.
  unfold Entry; destruct (bool_decide (LF ∈ value)).
  - destruct (quoted_lines value) as [|line lines _] using rev_ind.
    + cbn [map concat]; rewrite app_nil_r.
      exists (key ++ lit ":"); rewrite <- app_assoc; reflexivity.
    + rewrite map_app, concat_app; cbn [map concat]; unfold quote at 2.
      rewrite app_nil_r.
      eexists; rewrite !app_assoc; reflexivity.
  - eexists; rewrite !app_assoc; reflexivity.
Qed.

Lemma Entry_not_empty Q_OS_WIN key value : Entry Q_OS_WIN key value <> [].
Proof.
  destruct (Entry_ends Q_OS_WIN key value) as [before ->].
  destruct (kLineBreak_ends_with_LF Q_OS_WIN) as [start ->].
  intros H; apply app_eq_nil in H as [_ H].
  apply app_eq_nil in H as [_ H]; discriminate.
Qed.

Lemma kept_nil values :
  kept values = [] <-> Forall (fun entry => entry.2 = []) values.
Proof.
  unfold kept; induction values as [|[key value] values IH].
  - split; [constructor|reflexivity].
  - destruct value as [|b value].
    + rewrite filter_cons_False by (simpl; congruence).
      rewrite IH; split; [constructor; [reflexivity|assumption]|].
      intros H; inversion H; assumption.
    + rewrite filter_cons_True by (simpl; congruence).
      split; [discriminate|].
      intros H; inversion H as [|? ? Hhead _]; discriminate Hhead.
Qed.

Lemma SerializeKeyValue_nil
    (Q_OS_WIN : bool) (values : list (QByteArray * QByteArray)) :
  SerializeKeyValue Q_OS_WIN values = []
  <-> Forall (fun entry => entry.2 = []) values.
Proof.
  rewrite <- kept_nil.
  unfold SerializeKeyValue; rewrite SerializeKeyValue_fold, app_nil_l.
  destruct (kept values) as [|[key value] entries]; cbn [map concat fst snd].
  - split; reflexivity.
  - split; [|discriminate].
    intros H; apply app_eq_nil in H as [H _].
    exfalso; exact (Entry_not_empty Q_OS_WIN key value H).
Qed.

(** X4. [SerializeKeyValue] gives the empty array exactly when every value
    is empty, so that a block of empty fields, given as the value of an
    entry, makes that entry disappear as well. *)
Theorem X4_SerializeKeyValue_empty
    (Q_OS_WIN : bool) (values : list (QByteArray * QByteArray)) :
  SerializeKeyValue Q_OS_WIN values = []
  <-> Forall (fun entry => entry.2 = []) values.
Proof. apply SerializeKeyValue_nil. Qed.

Lemma SerializeKeyValue_ends
    (Q_OS_WIN : bool) (values : list (QByteArray * QByteArray)) :
  SerializeKeyValue Q_OS_WIN values <> [] ->
  kLineBreak Q_OS_WIN `suffix_of` SerializeKeyValue Q_OS_WIN values.
Proof.
  unfold SerializeKeyValue; rewrite SerializeKeyValue_fold, app_nil_l.
  destruct (kept values) as [|[key value] entries _] using rev_ind;
    [intros H; exfalso; apply H; reflexivity|intros _].
  rewrite map_app, concat_app; cbn [map concat fst snd].
  rewrite app_nil_r.
  destruct (Entry_ends Q_OS_WIN key value) as [before ->].
  eexists; rewrite app_assoc; reflexivity.
Qed.

(** X5. An output of [SerializeKeyValue] that is not empty ends with the
    line terminator: every entry, single-line or quoted, is terminated. *)
Theorem X5_SerializeKeyValue_terminated
    (Q_OS_WIN : bool) (values : list (QByteArray * QByteArray)) :
  SerializeKeyValue Q_OS_WIN values <> [] ->
  kLineBreak Q_OS_WIN `suffix_of` SerializeKeyValue Q_OS_WIN values.
Proof. apply SerializeKeyValue_ends. Qed.

Lemma X5_SerializeKeyValue_terminated_witness :
  kLineBreak true
  `suffix_of` SerializeKeyValue true
                [(lit "Name", lit "Ann"); (lit "Bio", [])].
Proof.
  apply (X5_SerializeKeyValue_terminated true
           [(lit "Name", lit "Ann"); (lit "Bio", [])]).
  vm_compute; discriminate.
Defined.

Lemma split_lines_line line value :
  LF ∉ line ->
  split_lines (line ++ LF :: value)
  = (line :: (split_lines value).1, (split_lines value).2).
Proof.
  intros Hline; induction line as [|b line IH].
  - cbn [app split_lines].
    replace (Byte.eqb LF LF) with true by reflexivity.
    destruct (split_lines value); reflexivity.
  - apply not_elem_of_cons in Hline as [Hb Hline].
    rewrite <- app_comm_cons; cbn [split_lines].
    rewrite (IH Hline).
    assert (E : Byte.eqb b LF = false) by (apply byte_eqb_false; congruence).
    rewrite E; reflexivity.
Qed.

Lemma split_lines_terminated lines :
  Forall (fun line => LF ∉ line) lines ->
  split_lines (concat (map (fun line => line ++ [LF]) lines)) = (lines, []).
Proof.
  induction lines as [|line lines IH]; intros Hlines; [reflexivity|].
  inversion Hlines as [|? ? Hline Hrest]; subst.
  cbn [map concat]; rewrite <- app_assoc; cbn [app].
  rewrite (split_lines_line _ _ Hline), (IH Hrest); reflexivity.
Qed.

(** X6. A block of single-line entries given as the value of an entry is
    written under the label with each of its lines quoted once: the
    terminator of each inner line is replaced, not doubled, also where it
    is a carriage return and a line feed. *)
Theorem X6_nested_block_quoted
    (Q_OS_WIN : bool) (key : QByteArray)
    (inner : list (QByteArray * QByteArray)) :
  kept inner <> [] ->
  Forall (fun entry => (LF ∉ entry.1) /\ (LF ∉ entry.2)) (kept inner) ->
  SerializeKeyValue Q_OS_WIN [(key, SerializeKeyValue Q_OS_WIN inner)]
  = key ++ lit ":" ++ kLineBreak Q_OS_WIN
    ++ concat (map (fun entry => lit "> " ++ nested_line Q_OS_WIN entry
                                  ++ kLineBreak Q_OS_WIN)
                 (kept inner)).
Proof.
  intros Hkept Hlines.
  pose (line_of := fun entry : QByteArray * QByteArray =>
          if Q_OS_WIN then entry.1 ++ lit ": " ++ entry.2 ++ [CR]
          else entry.1 ++ lit ": " ++ entry.2).
  assert (Hinner : SerializeKeyValue Q_OS_WIN inner
                   = concat (map (fun line => line ++ [LF])
                               (map line_of (kept inner)))).
  { unfold SerializeKeyValue; rewrite SerializeKeyValue_fold, app_nil_l.
    rewrite map_map; f_equal.
    apply map_ext_in; intros [k v] Hin; apply list_elem_of_In in Hin.
    rewrite Forall_forall in Hlines.
    destruct (Hlines (k, v) Hin) as [_ Hv]; cbn [fst snd] in *.
    unfold Entry, line_of; rewrite bool_decide_eq_false_2 by exact Hv.
    destruct Q_OS_WIN; cbn [kLineBreak fst snd];
      rewrite <- !app_assoc; reflexivity. }
  assert (Hfree : Forall (fun line => LF ∉ line) (map line_of (kept inner))).
  { rewrite Forall_forall; intros line Hin.
    apply list_elem_of_fmap in Hin as ([k v] & -> & Hin).
    rewrite Forall_forall in Hlines.
    destruct (Hlines (k, v) Hin) as [Hk Hv]; cbn [fst snd] in *.
    unfold line_of; cbn [fst snd].
    assert (Hsep : LF ∉ lit ": ")
      by (intros H; apply list_elem_of_In in H; simpl in H;
          destruct H as [H|[H|[]]]; discriminate H).
    destruct Q_OS_WIN; rewrite !not_elem_of_app; repeat split; auto.
    intros H; apply list_elem_of_singleton in H; discriminate H. }
  assert (Hquoted : quoted_lines (SerializeKeyValue Q_OS_WIN inner)
                    = map (nested_line Q_OS_WIN) (kept inner)).
  { unfold quoted_lines; rewrite Hinner, (split_lines_terminated _ Hfree).
    cbn [isEmpty]; rewrite app_nil_r, map_map.
    apply map_ext; intros [k v]; unfold line_of, nested_line; cbn [fst snd].
    destruct Q_OS_WIN; [|reflexivity].
    unfold chop_CR; rewrite !app_assoc, last_snoc.
    replace (Byte.eqb CR CR) with true by reflexivity.
    apply removelast_last. }
  assert (Hne : SerializeKeyValue Q_OS_WIN inner <> []).
  { rewrite SerializeKeyValue_nil, <- kept_nil; exact Hkept. }
  assert (HLF : LF ∈ SerializeKeyValue Q_OS_WIN inner).
  { destruct (SerializeKeyValue_ends Q_OS_WIN inner Hne)
      as [before ->].
    destruct (kLineBreak_ends_with_LF Q_OS_WIN) as [start ->].
    rewrite !elem_of_app; right; right; apply list_elem_of_singleton.
    reflexivity. }
  unfold SerializeKeyValue at 1; rewrite SerializeKeyValue_fold, app_nil_l.
  unfold kept at 1; rewrite filter_cons_True by exact Hne.
  rewrite filter_nil; cbn [map concat fst snd]; rewrite app_nil_r.
  unfold Entry; rewrite bool_decide_eq_true_2 by exact HLF.
  rewrite Hquoted, map_map; reflexivity.
Qed.

Lemma X6_nested_block_quoted_witness :
  SerializeKeyValue true
    [(lit "Location",
      SerializeKeyValue true
        [(lit "Latitude", lit "55.75"); (lit "Longitude", lit "37.61")])]
  = lit "Location:" ++ [CR; LF]
    ++ lit "> Latitude: 55.75" ++ [CR; LF]
    ++ lit "> Longitude: 37.61" ++ [CR; LF].
Proof.
  rewrite (X6_nested_block_quoted true (lit "Location")
             [(lit "Latitude", lit "55.75"); (lit "Longitude", lit "37.61")]).
  - reflexivity.
  - discriminate.
  - change (Forall (fun entry => (LF ∉ entry.1) /\ (LF ∉ entry.2))
              [(lit "Latitude", lit "55.75"); (lit "Longitude", lit "37.61")]).
    repeat first [apply Forall_cons | apply Forall_nil | split];
      cbn [fst snd]; intros H; apply list_elem_of_In in H;
      vm_compute in H; intuition discriminate.
Defined.

(** ** [SerializeMessage] *)

Section MoreMessageFacts.

Import Data.

Variable Q_OS_WIN : bool.
Context {fmt : Formatters}.
Variable message : Message.
Variable peers : gmap PeerId Peer.
Variable internalLinksDomain : QString.

Lemma SerializeKeyValue_push key value (values : Values) :
  SerializeKeyValue Q_OS_WIN (push key value values)
  = SerializeKeyValue Q_OS_WIN values ++ OptionalEntry Q_OS_WIN key value.
Proof.
  unfold push, OptionalEntry.
  destruct value as [|b value]; cbn [isEmpty]; [rewrite app_nil_r; reflexivity|].
  rewrite SerializeKeyValue_app; f_equal.
  unfold SerializeKeyValue; rewrite SerializeKeyValue_fold, app_nil_l.
  unfold kept; rewrite filter_cons_True by (simpl; congruence).
  rewrite filter_nil; cbn [map concat fst snd]; apply app_nil_r.
Qed.

(** The values end with the text, when there are values at all. *)
Lemma MessageValues_text values :
  MessageValues Q_OS_WIN message peers internalLinksDomain = Some values ->
  exists before,
    values = push (lit "Text") (Message_text message) before.
Proof.
  unfold MessageValues.
  destruct (pushActionContent _ _ _) as [values1|]; [|discriminate].
  simpl.
  destruct (pushMediaContent _ _ _ _ _) as [values2|]; [|discriminate].
  simpl; intros [= <-]; eauto.
Qed.

Lemma SerializeMessage_supported :
  Media_content (Message_media message) <> UnsupportedMedia ->
  SerializeMessage Q_OS_WIN message peers internalLinksDomain
  = SerializeKeyValue Q_OS_WIN
    <$> MessageValues Q_OS_WIN message peers internalLinksDomain.
Proof.
  intros Hmedia; unfold SerializeMessage.
  destruct (Media_content (Message_media message));
    try reflexivity; contradiction.
Qed.

Lemma pushPath_fails file label name (values : Values) :
  file_ok file = false -> pushPath file label name values = None.
Proof. unfold file_ok, pushPath; intros ->; reflexivity. Qed.

Lemma pushPhoto_fails image (values : Values) :
  file_ok (Image_file image) = false -> pushPhoto image values = None.
Proof.
  intros Hbad; unfold pushPhoto; rewrite pushPath_fails by exact Hbad.
  reflexivity.
Qed.

Lemma pushDocument_fails data (values : Values) :
  file_ok (Document_file data) = false ->
  pushDocument message data values = None.
Proof.
  intros Hbad; unfold pushDocument; cbv zeta.
  rewrite !pushPath_fails by exact Hbad.
  repeat match goal with
         | |- context [if ?b then _ else _] => destruct b
         end; reflexivity.
Qed.

Lemma MessageValues_fails :
  files_ok message = false ->
  MessageValues Q_OS_WIN message peers internalLinksDomain = None.
Proof.
  unfold files_ok, MessageValues; intros Hbad.
  apply andb_false_iff in Hbad as [Haction|Hcontent].
  - unfold pushActionContent.
    destruct (Message_action message); try discriminate Haction.
    rewrite pushPhoto_fails by exact Haction; reflexivity.
  - destruct (pushActionContent _ _ _) as [values1|]; [|reflexivity].
    simpl; unfold pushMediaContent.
    destruct (Media_content (Message_media message));
      try discriminate Hcontent.
    + rewrite pushPhoto_fails by exact Hcontent; reflexivity.
    + rewrite pushDocument_fails by exact Hcontent; reflexivity.
Qed.

(** *** Labels *)

Variable ok : QByteArray -> bool.

Lemma push_labels key value (values : Values) :
  ok key = true -> labels_pass ok values ->
  labels_pass ok (push key value values).
Proof.
  intros Hkey Hvalues; unfold push; destruct (isEmpty value); [exact Hvalues|].
  apply Forall_app; split; [exact Hvalues|].
  constructor; [exact Hkey|constructor].
Qed.

Lemma pushFrom_labels label (values : Values) :
  ok label = true -> labels_pass ok values ->
  labels_pass ok (pushFrom message peers label values).
Proof.
  intros Hkey Hvalues; unfold pushFrom; destruct (_ =? _); [exact Hvalues|].
  apply push_labels; assumption.
Qed.

Lemma pushReplyToMsgId_labels label (values : Values) :
  ok label = true -> labels_pass ok values ->
  labels_pass ok (pushReplyToMsgId message label values).
Proof.
  intros Hkey Hvalues; unfold pushReplyToMsgId; destruct (_ =? _);
    [exact Hvalues|].
  apply push_labels; assumption.
Qed.

Lemma pushList_labels labelOne labelMany list (values : Values) :
  ok labelOne = true -> ok labelMany = true -> labels_pass ok values ->
  labels_pass ok (pushList labelOne labelMany list values).
Proof.
  intros H1 H2 Hvalues; unfold pushList.
  destruct list as [|one [|two list]]; [exact Hvalues| |];
    apply push_labels; assumption.
Qed.

Lemma pushTTL_labels label (values : Values) :
  ok label = true -> labels_pass ok values ->
  labels_pass ok (pushTTL message label values).
Proof.
  intros Hkey Hvalues; unfold pushTTL; cbv zeta; destruct (_ =? _);
    [exact Hvalues|].
  apply push_labels; assumption.
Qed.

Lemma pushPath_labels file label name (values values' : Values) :
  ok label = true -> labels_pass ok values ->
  pushPath file label name values = Some values' ->
  labels_pass ok values'.
Proof.
  intros Hkey Hvalues; unfold pushPath; destruct (_ || _); [|discriminate].
  intros [= <-]; apply push_labels; assumption.
Qed.

Lemma pushPhoto_labels image (values values' : Values) :
  ok (lit "Photo") = true -> ok (lit "Width") = true ->
  ok (lit "Height") = true -> labels_pass ok values ->
  pushPhoto image values = Some values' ->
  labels_pass ok values'.
Proof.
  intros Hp Hw Hh Hvalues; unfold pushPhoto.
  destruct (pushPath _ _ _ values) as [values1|] eqn:E; [|discriminate].
  pose proof (pushPath_labels _ _ _ _ _ Hp Hvalues E) as H1; simpl.
  destruct (_ && _); intros [= <-]; [|exact H1].
  repeat apply push_labels; assumption.
Qed.

End MoreMessageFacts.

Section SenderLabels.

Import Data.

Variable Q_OS_WIN : bool.
Context {fmt : Formatters}.
Variable message : Message.
Variable peers : gmap PeerId Peer.
Variable internalLinksDomain : QString.

Ltac push_labels_tac :=
  repeat first
    [ assumption
    | apply push_labels; [vm_compute; reflexivity|]
    | apply pushFrom_labels; [vm_compute; reflexivity|]
    | apply pushReplyToMsgId_labels; [vm_compute; reflexivity|]
    | apply pushList_labels; [vm_compute; reflexivity|vm_compute; reflexivity|]
    | apply pushTTL_labels; [vm_compute; reflexivity|] ].

Lemma pushActionContent_labels (values values' : Values) :
  labels_pass not_sender_label values ->
  pushActionContent message peers values = Some values' ->
  labels_pass not_sender_label values'.
Proof.
  intros Hvalues; unfold pushActionContent, pushActor, pushAction,
    pushUserNames.
  destruct (Message_action message);
    try (intros [= <-]; cbv zeta; repeat destruct (_ =? _);
         push_labels_tac; fail).
  apply pushPhoto_labels; try (vm_compute; reflexivity).
  push_labels_tac.
Qed.

Lemma pushDocument_labels data (values values' : Values) :
  labels_pass not_sender_label values ->
  pushDocument message data values = Some values' ->
  labels_pass not_sender_label values'.
Proof.
  intros Hvalues; unfold pushDocument; cbv zeta.
  match goal with
  | |- context [mbind _ ?first] =>
      destruct first as [values1|] eqn:E; [|discriminate]
  end.
  assert (H1 : labels_pass not_sender_label values1).
  { revert E.
    repeat match goal with
           | |- context [if ?b then _ else _] => destruct b
           end;
      try (apply pushPath_labels; [vm_compute; reflexivity|exact Hvalues]);
      destruct (pushPath _ _ _ values) as [values2|] eqn:E2;
      try discriminate; simpl; intros [= <-];
      (eapply (pushPath_labels not_sender_label) in E2;
       [|vm_compute; reflexivity|exact Hvalues]);
      push_labels_tac. }
  simpl; intros [= <-].
  repeat match goal with
         | |- context [if ?b then _ else _] => destruct b
         end; push_labels_tac.
Qed.

Lemma pushMediaContent_labels (values values' : Values) :
  labels_pass not_sender_label values ->
  pushMediaContent Q_OS_WIN message peers internalLinksDomain values
  = Some values' ->
  labels_pass not_sender_label values'.
Proof.
  intros Hvalues; unfold pushMediaContent.
  destruct (Media_content (Message_media message)) as
    [|photo|data|data|data|data|data|data|]; cbv zeta.
  - intros [= <-]; exact Hvalues.
  - destruct (pushPhoto _ values) as [values1|] eqn:E; [|discriminate].
    eapply (pushPhoto_labels not_sender_label) in E;
      [|vm_compute; reflexivity..|exact Hvalues]; simpl.
    intros [= <-]; push_labels_tac.
  - apply pushDocument_labels, Hvalues.
  - intros [= <-]; push_labels_tac.
  - intros [= <-]; push_labels_tac.
  - intros [= <-]; destruct (GeoPoint_valid _); push_labels_tac.
  - intros [= <-].
    repeat match goal with
           | |- context [if ?b then _ else _] => destruct b
           end; push_labels_tac.
  - intros [= <-]; push_labels_tac.
  - discriminate.
Qed.

(** With an action, no value carries the label of a sender field. *)
Lemma MessageValues_action_labels values :
  Message_action message <> ActionNone ->
  MessageValues Q_OS_WIN message peers internalLinksDomain = Some values ->
  labels_pass not_sender_label values.
Proof.
  intros Haction; unfold MessageValues.
  destruct (pushActionContent _ _ _) as [values1|] eqn:E1; [|discriminate].
  simpl.
  destruct (pushMediaContent _ _ _ _ _) as [values2|] eqn:E2; [|discriminate].
  simpl; intros [= <-].
  apply push_labels; [vm_compute; reflexivity|].
  eapply pushMediaContent_labels; [|exact E2].
  assert (Hsender : pushSender message peers values1 = values1).
  { unfold pushSender; destruct (Message_action message);
      [contradiction|..]; reflexivity. }
  rewrite Hsender.
  eapply pushActionContent_labels; [|exact E1].
  unfold initialValues; repeat constructor.
Qed.

End SenderLabels.

(** X7. The text of a message is what [SerializeMessage] writes last: for a
    message with supported media whose files pass, the output ends with the
    "Text" entry when the text is not empty, and has no such entry when it
    is. *)
Theorem X7_text_is_last
    (Q_OS_WIN : bool) (fmt : Data.Formatters) (message : Data.Message)
    (peers : gmap Data.PeerId Data.Peer) (internalLinksDomain : QString) :
  Data.Media_content (Data.Message_media message) <> Data.UnsupportedMedia ->
  files_ok message = true ->
  exists before,
    SerializeMessage Q_OS_WIN message peers internalLinksDomain
    = Some (SerializeKeyValue Q_OS_WIN before
            ++ OptionalEntry Q_OS_WIN (lit "Text")
                 (Data.Message_text message))
    /\ MessageValues Q_OS_WIN message peers internalLinksDomain
       = Some (push (lit "Text") (Data.Message_text message) before).
Proof.
  intros Hmedia Hfiles.
  destruct (MessageValues_returns Q_OS_WIN message peers internalLinksDomain
              Hmedia Hfiles) as [values Hvalues].
  destruct (MessageValues_text Q_OS_WIN message peers internalLinksDomain
              values Hvalues) as [before ->].
  exists before; split; [|exact Hvalues].
  rewrite SerializeMessage_supported by exact Hmedia.
  rewrite Hvalues; cbn [fmap option_fmap option_map].
  rewrite SerializeKeyValue_push; reflexivity.
Qed.

Lemma X7_text_is_last_witness :
  exists before,
    SerializeMessage (fmt := Data.plain_formatters) false plain_message ∅ []
    = Some (SerializeKeyValue false before
            ++ OptionalEntry false (lit "Text") (lit "hi"))
    /\ MessageValues (fmt := Data.plain_formatters) false plain_message ∅ []
       = Some (push (lit "Text") (lit "hi") before).
Proof.
  apply (X7_text_is_last false Data.plain_formatters plain_message ∅ []);
    [discriminate | reflexivity].
Defined.

(** X8. A message with an action has none of the sender fields: no value
    is labelled "From", "Author", "Forwarded from", "Reply to message" or
    "Via", whatever the sender, signature, forward, reply and bot ids of
    the message are. *)
Theorem X8_action_has_no_sender_fields
    (Q_OS_WIN : bool) (fmt : Data.Formatters) (message : Data.Message)
    (peers : gmap Data.PeerId Data.Peer) (internalLinksDomain : QString)
    (values : Values) :
  Data.Message_action message <> Data.ActionNone ->
  MessageValues Q_OS_WIN message peers internalLinksDomain = Some values ->
  Forall (fun entry => entry.1 ∉ sender_labels) values.
Proof.
  intros Haction Hvalues.
  pose proof (MessageValues_action_labels Q_OS_WIN message peers
                internalLinksDomain values Haction Hvalues) as Hlabels.
  unfold labels_pass, not_sender_label in Hlabels.
  eapply Forall_impl; [exact Hlabels|].
  intros entry Hentry; apply bool_decide_eq_true in Hentry; exact Hentry.
Qed.

Lemma X8_action_has_no_sender_fields_witness :
  Forall (fun entry => entry.1 ∉ sender_labels)
    [(lit "ID", lit "8"); (lit "Date", lit "01.01.2018 00:00:00");
     (lit "Edited", []);
     (lit "Actor", lit "(unknown user)"); (lit "Action", lit "Pin message");
     (lit "Message", lit "ID-5")].
Proof.
  apply (X8_action_has_no_sender_fields false Data.plain_formatters
           pin_message ∅ []);
    [discriminate | vm_compute; reflexivity].
Defined.

(** X9. [SerializeMessage] stops at a failed [Expects] exactly on a message
    with supported media one of whose files (the photo of a photo edit, the
    photo or the document of the media) has neither a path nor a reason for
    having none. *)
Theorem X9_fault_is_a_bad_file
    (Q_OS_WIN : bool) (fmt : Data.Formatters) (message : Data.Message)
    (peers : gmap Data.PeerId Data.Peer) (internalLinksDomain : QString) :
  SerializeMessage Q_OS_WIN message peers internalLinksDomain = None
  <-> Data.Media_content (Data.Message_media message)
      <> Data.UnsupportedMedia
      /\ files_ok message = false.
Proof.
  split.
  - intros Hnone.
    assert (Hmedia : Data.Media_content (Data.Message_media message)
                     <> Data.UnsupportedMedia).
    { intros Hun; unfold SerializeMessage in Hnone; rewrite Hun in Hnone.
      discriminate. }
    split; [exact Hmedia|].
    destruct (files_ok message) eqn:Hfiles; [exfalso|reflexivity].
    destruct (MessageValues_returns Q_OS_WIN message peers
                internalLinksDomain Hmedia Hfiles) as [values Hvalues].
    rewrite SerializeMessage_supported, Hvalues in Hnone by exact Hmedia.
    discriminate.
  - intros [Hmedia Hfiles].
    rewrite SerializeMessage_supported by exact Hmedia.
    rewrite MessageValues_fails by exact Hfiles; reflexivity.
Qed.

Lemma SerializeMessage_output_ends
    (Q_OS_WIN : bool) (fmt : Data.Formatters) (message : Data.Message)
    (peers : gmap Data.PeerId Data.Peer) (internalLinksDomain : QString)
    (output : QByteArray) :
  SerializeMessage Q_OS_WIN message peers internalLinksDomain = Some output ->
  output <> []
  /\ (Data.Media_content (Data.Message_media message)
      <> Data.UnsupportedMedia ->
      kLineBreak Q_OS_WIN `suffix_of` output).
Proof.
  intros Hout.
  assert (Hcases : Data.Media_content (Data.Message_media message)
                   = Data.UnsupportedMedia
                   \/ Data.Media_content (Data.Message_media message)
                      <> Data.UnsupportedMedia)
    by (destruct (Data.Media_content (Data.Message_media message));
        first [left; reflexivity | right; discriminate]).
  destruct Hcases as [Hun|Hmedia].
  - unfold SerializeMessage in Hout; rewrite Hun in Hout.
    injection Hout as <-; split; [discriminate|contradiction].
  - rewrite SerializeMessage_supported in Hout by exact Hmedia.
    destruct (MessageValues Q_OS_WIN message peers internalLinksDomain)
      as [values|] eqn:Hvalues; [|discriminate].
    injection Hout as <-.
    assert (Hne : SerializeKeyValue Q_OS_WIN values <> []).
    { rewrite SerializeKeyValue_nil.
      apply MessageValues_keeps in Hvalues as [rest ->].
      intros Hall; inversion Hall as [|? ? Hid _]; cbn [snd] in Hid.
      exact (NumberToString0_not_empty _ Hid). }
    split; [exact Hne|intros _; apply SerializeKeyValue_ends, Hne].
Qed.

(** X10. An output of [SerializeMessage] is never empty, and for supported
    media it ends with the line terminator. *)
Theorem X10_message_output_terminated
    (Q_OS_WIN : bool) (fmt : Data.Formatters) (message : Data.Message)
    (peers : gmap Data.PeerId Data.Peer) (internalLinksDomain : QString)
    (output : QByteArray) :
  SerializeMessage Q_OS_WIN message peers internalLinksDomain = Some output ->
  output <> []
  /\ (Data.Media_content (Data.Message_media message)
      <> Data.UnsupportedMedia ->
      kLineBreak Q_OS_WIN `suffix_of` output).
Proof. apply SerializeMessage_output_ends. Qed.

Lemma X10_message_output_terminated_witness :
  (lit "ID: 7" ++ [LF] ++ lit "Date: 01.01.2018 00:00:00" ++ [LF]
   ++ lit "Text: hi" ++ [LF]) <> []
  /\ (Data.Media_content (Data.Message_media plain_message)
      <> Data.UnsupportedMedia ->
      kLineBreak false
      `suffix_of` (lit "ID: 7" ++ [LF] ++ lit "Date: 01.01.2018 00:00:00"
                   ++ [LF] ++ lit "Text: hi" ++ [LF])).
Proof.
  apply (X10_message_output_terminated false Data.plain_formatters
           plain_message ∅ []).
  vm_compute; reflexivity.
Defined.

(** ** The writer *)

Section Keeps.

Import Data Output.

Variable R : TextWriter -> TextWriter -> Prop.
Hypothesis R_refl : forall w, R w w.
Hypothesis R_trans : forall w1 w2 w3, R w1 w2 -> R w2 w3 -> R w1 w3.

Lemma keeps_ret {A : Type} (value : A) : keeps R (ret value).
Proof. intros w io v w' io' [= <- <- <-]; apply R_refl. Qed.

Lemma keeps_fault {A : Type} : keeps R (fun _ _ => @Faulted A).
Proof. intros w io v w' io'; discriminate. Qed.

Lemma keeps_this : keeps R this.
Proof. intros w io v w' io' [= <- <- <-]; apply R_refl. Qed.

Lemma keeps_Expects condition : keeps R (Expects condition).
Proof.
  intros w io v w' io'; unfold Expects; destruct condition; [|discriminate].
  intros [= <- <- <-]; apply R_refl.
Qed.

Lemma keeps_note_number number : keeps R (note_number number).
Proof. intros w io v w' io' [= <- <- <-]; apply R_refl. Qed.

Lemma keeps_writeBlock_local file block :
  keeps R (writeBlock_local file block).
Proof.
  intros w io v w' io'; unfold writeBlock_local.
  destruct (File_writeBlock file block io) as [[written file'] io1].
  intros [= <- <- <-]; apply R_refl.
Qed.

Lemma keeps_assign update :
  (forall w, R w (update w)) -> keeps R (assign update).
Proof. intros H w io v w' io' [= <- <- <-]; apply H. Qed.

Lemma keeps_bind {A B : Type} (op : Op A) (next : A -> Op B) :
  keeps R op -> (forall value, keeps R (next value)) ->
  keeps R (bind op next).
Proof.
  intros Hop Hnext w io v w' io'; unfold bind.
  destruct (op w io) as [value w1 io1|] eqn:E; [|discriminate].
  intros Hrest; eapply R_trans; [eapply Hop, E | eapply Hnext, Hrest].
Qed.

End Keeps.

Ltac keeps_step refl trans :=
  first
    [ eapply keeps_bind; [exact trans| |intros ?]
    | eapply keeps_ret; exact refl
    | apply keeps_fault
    | eapply keeps_this; exact refl
    | eapply keeps_Expects; exact refl
    | eapply keeps_note_number; exact refl
    | eapply keeps_writeBlock_local; exact refl
    | match goal with
      | |- keeps _ (if ?b then _ else _) => destruct b
      | |- keeps _ (match ?x with _ => _ end) => destruct x
      end ].

Section MainFile.

Import Data Output.

Variable Q_OS_WIN : bool.
Context {fmt : Formatters}.

Lemma same_main_refl w : same_main w w.
Proof. split; [reflexivity|eauto]. Qed.

Lemma same_main_trans w1 w2 w3 :
  same_main w1 w2 -> same_main w2 w3 -> same_main w1 w3.
Proof.
  intros [Hs1 Hf1] [Hs2 Hf2]; split; [congruence|].
  intros file Hfile.
  destruct (Hf1 file Hfile) as (file1 & Hfile1 & Hpath1).
  destruct (Hf2 file1 Hfile1) as (file2 & Hfile2 & Hpath2).
  exists file2; split; [exact Hfile2|congruence].
Qed.

Lemma same_main_writeBlock_result block :
  keeps same_main (writeBlock_on _result set_result block).
Proof.
  intros w io v w' io'; unfold writeBlock_on.
  destruct (_result w) as [file|] eqn:Hfile; [|discriminate].
  destruct (File_writeBlock_after file block io) as (file' & -> & Hpath).
  intros [= <- <- <-]; split; [reflexivity|].
  intros file0 Hfile0; exists file'; split; [reflexivity|congruence].
Qed.

Lemma same_main_writeBlock_chat block :
  keeps same_main (writeBlock_on _chat set_chat block).
Proof.
  intros w io v w' io'; unfold writeBlock_on.
  destruct (_chat w) as [file|]; [|discriminate].
  destruct (File_writeBlock file block io) as [[written file'] io1].
  intros [= <- <- <-]; split; [reflexivity|simpl; eauto].
Qed.

Ltac same_main_tac :=
  repeat first
    [ keeps_step same_main_refl same_main_trans
    | apply same_main_writeBlock_result
    | apply same_main_writeBlock_chat
    | apply keeps_assign; intros ?; split; [reflexivity|simpl; eauto] ].

(** Every call but [start] leaves the settings and the main file. *)
Lemma call_keeps_main c :
  (forall settings, c <> Start settings) ->
  keeps same_main (call Q_OS_WIN c).
Proof.
  intros Hc; destruct c; cbn [call];
    try (exfalso; eapply Hc; reflexivity);
    unfold writePersonal, writeUserpicsStart, writeUserpicsSlice,
      writeUserpicsEnd, writeContactsList, writeSessionsList,
      writeDialogsStart, writeDialogStart, writeDialogSlice, writeDialogEnd,
      writeDialogsEnd, writeLeftChannelsStart, writeLeftChannelStart,
      writeLeftChannelSlice, writeLeftChannelEnd, writeLeftChannelsEnd,
      finish, writeChatsStart, writeChatStart, writeChatSlice, writeChatEnd;
    same_main_tac.
Qed.

Lemma start_opens_main settings w io value w' io' :
  start settings w io = Returned value w' io' -> main_file_open w'.
Proof.
  unfold start, bind, this, Expects, assign, ret.
  destruct (endsWith _ _); [|discriminate].
  intros [= <- <- <-]; eexists; split; reflexivity.
Qed.

Lemma same_main_open w w' :
  same_main w w' -> main_file_open w -> main_file_open w'.
Proof.
  intros [Hs Hf] (file & Hfile & Hpath).
  destruct (Hf file Hfile) as (file' & Hfile' & Hpath').
  exists file'; split; [exact Hfile'|].
  unfold mainFilePath, pathWithRelativePath in *; congruence.
Qed.

Lemma call_main_file_open c w io value w' io' :
  call Q_OS_WIN c w io = Returned value w' io' ->
  main_file_open w \/ (exists settings, c = Start settings) ->
  main_file_open w'.
Proof.
  intros Hcall Hopen.
  assert (Hcases : (exists settings, c = Start settings)
                   \/ forall settings, c <> Start settings)
    by (destruct c; first [left; eexists; reflexivity
                          | right; intros ?; discriminate]).
  destruct Hcases as [[settings ->]|Hc].
  - eapply start_opens_main; exact Hcall.
  - destruct Hopen as [Hopen|[settings ->]];
      [|exfalso; eapply Hc; reflexivity].
    eapply same_main_open; [|exact Hopen].
    eapply call_keeps_main; [exact Hc|exact Hcall].
Qed.

Lemma calls_main_file_open cs :
  forall w io results w' io',
    calls Q_OS_WIN cs w io = Returned results w' io' ->
    main_file_open w ->
    main_file_open w'.
Proof.
  induction cs as [|c cs IH]; intros w io results w' io' Hcalls Hopen.
  - injection Hcalls as <- <- <-; exact Hopen.
  - apply calls_cons_inv in Hcalls
      as (result & w1 & io1 & results' & Hcall & Hrest & ->).
    eapply IH; [exact Hrest|].
    eapply call_main_file_open; [exact Hcall|left; exact Hopen].
Qed.

End MainFile.

Section ChatFile.

Import Data Output.

Variable Q_OS_WIN : bool.
Context {fmt : Formatters}.

Lemma same_chat_refl w : same_chat w w.
Proof. reflexivity. Qed.

Lemma same_chat_trans w1 w2 w3 :
  same_chat w1 w2 -> same_chat w2 w3 -> same_chat w1 w3.
Proof. unfold same_chat; congruence. Qed.

Lemma same_chat_writeBlock_result block :
  keeps same_chat (writeBlock_on _result set_result block).
Proof.
  intros w io v w' io'; unfold writeBlock_on.
  destruct (_result w) as [file|]; [|discriminate].
  destruct (File_writeBlock file block io) as [[written file'] io1].
  intros [= <- <- <-]; reflexivity.
Qed.

Ltac same_chat_tac :=
  repeat first
    [ keeps_step same_chat_refl same_chat_trans
    | apply same_chat_writeBlock_result
    | apply keeps_assign; intros ?; reflexivity ].

(** The calls that are not about one dialog leave the dialog file. *)
Lemma call_keeps_chat c :
  is_chat_start c = false -> is_slice c = false -> is_chat_end c = false ->
  keeps same_chat (call Q_OS_WIN c).
Proof.
  intros Hstart Hslice Hend; destruct c; cbn [call];
    try discriminate Hstart; try discriminate Hslice; try discriminate Hend;
    unfold start, writePersonal, writeUserpicsStart, writeUserpicsSlice,
      writeUserpicsEnd, writeContactsList, writeSessionsList,
      writeDialogsStart, writeDialogsEnd, writeLeftChannelsStart,
      writeLeftChannelsEnd, finish, writeChatsStart;
    same_chat_tac.
Qed.

Lemma writeChatStart_opens data w io value w' io' :
  writeChatStart data w io = Returned value w' io' ->
  _chat w = None /\ is_Some (_chat w').
Proof.
  unfold writeChatStart, bind, this, Expects, assign, note_number, ret.
  destruct (bool_decide_reflect (_chat w = None)); [|discriminate].
  destruct (_dialogIndex w <? _dialogsCount w); [|discriminate].
  intros [= <- <- <-]; simpl; eauto.
Qed.

Lemma writeChatSlice_open data w io value w' io' :
  writeChatSlice Q_OS_WIN data w io = Returned value w' io' ->
  is_Some (_chat w) /\ is_Some (_chat w').
Proof.
  intros Hcall; split;
    [|apply writeChatSlice_index in Hcall as (_ & _ & H); exact H].
  revert Hcall; unfold writeChatSlice, bind, this, Expects.
  destruct (_chat w); [eauto|discriminate].
Qed.

Lemma writeChatEnd_closes w io value w' io' :
  writeChatEnd w io = Returned value w' io' ->
  is_Some (_chat w) /\ _chat w' = None.
Proof.
  intros Hcall; split;
    [|apply writeChatEnd_index in Hcall as (_ & _ & H); exact H].
  revert Hcall; unfold writeChatEnd, bind, this, Expects.
  destruct (_chat w); [eauto|discriminate].
Qed.

Lemma calls_chat_open cs :
  forall w io results w' io',
    calls Q_OS_WIN cs w io = Returned results w' io' ->
    chat_open_after cs (bool_decide (is_Some (_chat w)))
    = Some (bool_decide (is_Some (_chat w'))).
Proof.
  induction cs as [|c cs IH]; intros w io results w' io' Hcalls.
  - injection Hcalls as <- <- <-; reflexivity.
  - apply calls_cons_inv in Hcalls
      as (result & w1 & io1 & results' & Hcall & Hrest & ->).
    specialize (IH _ _ _ _ _ Hrest); cbn [chat_open_after].
    destruct (is_chat_start c) eqn:Hstart;
      [|destruct (is_chat_end c) eqn:Hend;
        [|destruct (is_slice c) eqn:Hslice]].
    + assert (H : _chat w = None /\ is_Some (_chat w1))
        by (destruct c; try discriminate Hstart;
            eapply writeChatStart_opens; exact Hcall).
      destruct H as [Hbefore Hafter].
      rewrite Hbefore; cbn.
      rewrite bool_decide_eq_true_2 in IH by exact Hafter; exact IH.
    + assert (H : is_Some (_chat w) /\ _chat w1 = None)
        by (destruct c; try discriminate Hend;
            eapply writeChatEnd_closes; exact Hcall).
      destruct H as [Hbefore Hafter].
      rewrite bool_decide_eq_true_2 by exact Hbefore.
      rewrite Hafter in IH; exact IH.
    + assert (H : is_Some (_chat w) /\ is_Some (_chat w1))
        by (destruct c; try discriminate Hslice;
            eapply writeChatSlice_open; exact Hcall).
      destruct H as [Hbefore Hafter].
      rewrite bool_decide_eq_true_2 by exact Hbefore.
      rewrite bool_decide_eq_true_2 in IH by exact Hafter; exact IH.
    + pose proof (call_keeps_chat c Hstart Hslice Hend _ _ _ _ _ Hcall)
        as Hsame.
      unfold same_chat in Hsame; rewrite Hsame in IH; exact IH.
Qed.

End ChatFile.

(** X11. After [start], every sequence of calls that the writer accepts
    leaves the main file open on the path that [mainFilePath] gives, the
    export path followed by "result.txt": no call closes the main file or
    moves it. *)
Theorem X11_main_file_stays_open
    (Q_OS_WIN : bool) (fmt : Data.Formatters) (settings : Output.Settings)
    (cs : list Call) (w w' : Output.TextWriter) (io io' : Output.World)
    (results : list bool) :
  calls Q_OS_WIN (Start settings :: cs) w io
  = Output.Returned results w' io' ->
  exists file,
    Output._result w' = Some file
    /\ Output.File_path file
       = Output.Settings_path (Output._settings w') ++ lit "result.txt".
Proof.
  intros Hcalls.
  apply calls_cons_inv in Hcalls
    as (result & w1 & io1 & results' & Hcall & Hrest & _).
  cbn [call] in Hcall; apply start_opens_main in Hcall.
  exact (calls_main_file_open Q_OS_WIN cs _ _ _ _ _ Hrest Hcall).
Qed.

Lemma X11_main_file_stays_open_witness :
  exists file,
    Output._result
      (Output.set_userpicsCount 0
         (Output.set_result
            (Some {| Output.File_path := lit "/export/result.txt";
                     Output.File_offset := 0 |})
            (Output.set_settings export_settings Output.TextWriter_new)))
    = Some file
    /\ Output.File_path file = lit "/export/" ++ lit "result.txt".
Proof.
  exact (X11_main_file_stays_open false Data.plain_formatters
           export_settings
           [WriteUserpicsStart {| Data.UserpicsInfo_count := 0 |}]
           Output.TextWriter_new
           (Output.set_userpicsCount 0
              (Output.set_result
                 (Some {| Output.File_path := lit "/export/result.txt";
                          Output.File_offset := 0 |})
                 (Output.set_settings export_settings
                    Output.TextWriter_new)))
           (fresh_world []) (fresh_world []) [true; true] eq_refl).
Defined.

(** X12. In every sequence of calls that the writer accepts, the dialogs
    are opened and closed in turn: a dialog is started only when none is
    open, and a slice is written or a dialog ended only when one is; the
    other calls leave the dialog file as it is. *)
Theorem X12_dialogs_open_and_close_in_turn
    (Q_OS_WIN : bool) (fmt : Data.Formatters) (cs : list Call)
    (w w' : Output.TextWriter) (io io' : Output.World)
    (results : list bool) :
  calls Q_OS_WIN cs w io = Output.Returned results w' io' ->
  chat_open_after cs (bool_decide (is_Some (Output._chat w)))
  = Some (bool_decide (is_Some (Output._chat w'))).
Proof. apply calls_chat_open. Qed.

Lemma X12_dialogs_open_and_close_in_turn_witness :
  exists w' io',
    calls (fmt := Data.plain_formatters) false
      [WriteDialogStart (personal_dialog "ann" true)]
      (Output.set_dialogsCount 1 started_writer) (fresh_world [])
    = Output.Returned [true] w' io'
    /\ chat_open_after
         [WriteDialogStart (personal_dialog "ann" true)]
         (bool_decide
            (is_Some
               (Output._chat (Output.set_dialogsCount 1 started_writer))))
       = Some (bool_decide (is_Some (Output._chat w'))).
Proof.
  eexists _, _; split; [reflexivity|].
  exact (X12_dialogs_open_and_close_in_turn false Data.plain_formatters
           [WriteDialogStart (personal_dialog "ann" true)]
           (Output.set_dialogsCount 1 started_writer) _
           (fresh_world []) _ [true] eq_refl).
Defined.

Section Slices.

Import Data Output.

Variable Q_OS_WIN : bool.
Context {fmt : Formatters}.





(** What [writeChatSlice] writes: the serialized messages joined by the
    line terminator, after a line terminator when the file has content. *)
Lemma writeChatSlice_writes data w io file outputs :
  _chat w = Some file ->
  MessagesSlice_list data <> [] ->
  slice_outputs Q_OS_WIN w data = Some outputs ->
  writeChatSlice Q_OS_WIN data w io
  = let full := if File_empty file
                then JoinList (kLineBreak Q_OS_WIN) outputs
                else kLineBreak Q_OS_WIN
                     ++ JoinList (kLineBreak Q_OS_WIN) outputs in
    let '(written, file', io') := File_writeBlock file full io in
    Returned (is_Success written)
      (set_chat (Some file') (set_dialogEmpty false w)) io'.
Proof.
  intros Hfile Hlist Houtputs.
  unfold writeChatSlice, bind, this, Expects, assign, ret, writeBlock_on.
  rewrite Hfile; simpl bool_decide; cbv iota.
  rewrite bool_decide_eq_false_2 by exact Hlist; cbn [negb].
  unfold slice_outputs in Houtputs; rewrite Houtputs.
  cbn [_chat set_dialogEmpty from_option]; rewrite Hfile.
  cbn [from_option].
  destruct (File_writeBlock _ _ _) as [[written file'] io']; reflexivity.
Qed.


End Slices.



Section Paths.

Import Data Output.

Variable Q_OS_WIN : bool.
Context {fmt : Formatters}.
Variable base : QString.

Lemma writes_begin_with_refl io : writes_begin_with base io io.
Proof. exists []; split; [rewrite app_nil_r; reflexivity|constructor]. Qed.

Lemma writes_begin_with_trans io1 io2 io3 :
  writes_begin_with base io1 io2 -> writes_begin_with base io2 io3 ->
  writes_begin_with base io1 io3.
Proof.
  intros (new1 & E1 & H1) (new2 & E2 & H2); exists (new1 ++ new2); split.
  - rewrite E2, E1, app_assoc; reflexivity.
  - apply Forall_app; split; assumption.
Qed.

Lemma writes_begin_with_one path block io :
  base `prefix_of` path ->
  writes_begin_with base io (after_write path block io).
Proof.
  intros Hpath; eexists; split; [reflexivity|].
  constructor; [exact Hpath|constructor].
Qed.

Lemma stays_ret {A : Type} (value : A) : keeps_paths base (ret value).
Proof.
  intros w io v w' io' Hw [= <- <- <-]; split;
    [exact Hw|apply writes_begin_with_refl].
Qed.

Lemma stays_fault {A : Type} :
  keeps_paths base (fun _ _ => @Faulted A).
Proof. intros w io v w' io' _; discriminate. Qed.

Lemma stays_Expects condition : keeps_paths base (Expects condition).
Proof.
  intros w io v w' io' Hw; unfold Expects; destruct condition;
    [|discriminate].
  intros [= <- <- <-]; split; [exact Hw|apply writes_begin_with_refl].
Qed.

Lemma stays_note_number number : keeps_paths base (note_number number).
Proof.
  intros w io v w' io' Hw [= <- <- <-]; split; [exact Hw|].
  exists []; split; [rewrite app_nil_r; reflexivity|constructor].
Qed.

Lemma stays_assign update :
  (forall w, paths_begin_with base w -> paths_begin_with base (update w)) ->
  keeps_paths base (assign update).
Proof.
  intros H w io v w' io' Hw [= <- <- <-]; split;
    [apply H, Hw|apply writes_begin_with_refl].
Qed.

Lemma stays_bind {A B : Type} (op : Op A) (next : A -> Op B) :
  keeps_paths base op ->
  (forall value, keeps_paths base (next value)) ->
  keeps_paths base (bind op next).
Proof.
  intros Hop Hnext w io v w' io' Hw; unfold bind.
  destruct (op w io) as [value w1 io1|] eqn:E; [|discriminate].
  intros Hrest.
  destruct (Hop _ _ _ _ _ Hw E) as [Hw1 Hio1].
  destruct (Hnext _ _ _ _ _ _ Hw1 Hrest) as [Hw' Hio'].
  split; [exact Hw'|eapply writes_begin_with_trans; eassumption].
Qed.

(** After [this], the code goes on with a writer whose paths begin with
    [base]. *)
Lemma stays_this_bind {B : Type} (next : TextWriter -> Op B) :
  (forall w, paths_begin_with base w -> keeps_paths base (next w)) ->
  keeps_paths base (bind this next).
Proof.
  intros Hnext w io v w' io' Hw; unfold bind, this.
  intros Hrest; exact (Hnext w Hw _ _ _ _ _ Hw Hrest).
Qed.

Lemma stays_writeBlock_local file block :
  base `prefix_of` File_path file ->
  keeps_paths base (writeBlock_local file block).
Proof.
  intros Hfile w io v w' io' Hw; unfold writeBlock_local.
  destruct (File_writeBlock_after file block io) as (file' & -> & _).
  intros [= <- <- <-]; split; [exact Hw|].
  apply writes_begin_with_one, Hfile.
Qed.

Lemma stays_writeBlock_result block :
  keeps_paths base (writeBlock_on _result set_result block).
Proof.
  intros w io v w' io' (Hs & Hr & Hc); unfold writeBlock_on.
  destruct (_result w) as [file|] eqn:Hfile; [|discriminate].
  destruct (File_writeBlock_after file block io) as (file' & -> & Hpath).
  intros [= <- <- <-]; split.
  - split; [exact Hs|split].
    + intros file0 [= <-]; rewrite Hpath; apply Hr; reflexivity.
    + exact Hc.
  - apply writes_begin_with_one, Hr; reflexivity.
Qed.

Lemma stays_writeBlock_chat block :
  keeps_paths base (writeBlock_on _chat set_chat block).
Proof.
  intros w io v w' io' (Hs & Hr & Hc); unfold writeBlock_on.
  destruct (_chat w) as [file|] eqn:Hfile; [|discriminate].
  destruct (File_writeBlock_after file block io) as (file' & -> & Hpath).
  intros [= <- <- <-]; split.
  - split; [exact Hs|split].
    + exact Hr.
    + intros file0 [= <-]; rewrite Hpath; apply Hc; reflexivity.
  - apply writes_begin_with_one, Hc; reflexivity.
Qed.

Lemma paths_fileWithRelativePath w path :
  paths_begin_with base w ->
  base `prefix_of` File_path (fileWithRelativePath w path).
Proof.
  intros (Hs & _); exists path.
  unfold fileWithRelativePath, pathWithRelativePath; cbn [File_path].
  rewrite Hs; reflexivity.
Qed.

Ltac paths_update :=
  let w := fresh "w" in
  let Hs := fresh "Hs" in
  let Hr := fresh "Hr" in
  let Hc := fresh "Hc" in
  intros w (Hs & Hr & Hc);
  split; [exact Hs|split; [exact Hr|]];
  first
    [ exact Hc
    | solve [intros ? [=]]
    | let H := fresh "H" in
      intros ? [= H]; rewrite <- H; apply paths_fileWithRelativePath;
      assumption ].

Ltac stays_tac :=
  repeat
    match goal with
    | |- keeps_paths _ (bind this _) =>
        apply stays_this_bind; intros ? ?
    | |- keeps_paths _ (bind _ _) => apply stays_bind; [|intros ?]
    | |- keeps_paths _ (ret _) => apply stays_ret
    | |- keeps_paths _ (fun _ _ => Faulted) => apply stays_fault
    | |- keeps_paths _ (Expects _) => apply stays_Expects
    | |- keeps_paths _ (note_number _) => apply stays_note_number
    | |- keeps_paths _ (writeBlock_on _result set_result _) =>
        apply stays_writeBlock_result
    | |- keeps_paths _ (writeBlock_on _chat set_chat _) =>
        apply stays_writeBlock_chat
    | |- keeps_paths _ (writeBlock_local _ _) =>
        apply stays_writeBlock_local, paths_fileWithRelativePath;
        assumption
    | |- keeps_paths _ (assign _) => apply stays_assign; paths_update
    | |- keeps_paths _ (if ?b then _ else _) => destruct b
    | |- keeps_paths _ (match ?x with _ => _ end) => destruct x
    end.

(** Every call but [start] writes to paths that begin with [base]. *)
Lemma call_keeps_paths c :
  is_start c = false -> keeps_paths base (call Q_OS_WIN c).
Proof.
  intros Hc; destruct c; try discriminate Hc; cbn [call];
    unfold writePersonal, writeUserpicsStart, writeUserpicsSlice,
      writeUserpicsEnd, writeContactsList, writeSessionsList,
      writeDialogsStart, writeDialogStart, writeDialogSlice, writeDialogEnd,
      writeDialogsEnd, writeLeftChannelsStart, writeLeftChannelStart,
      writeLeftChannelSlice, writeLeftChannelEnd, writeLeftChannelsEnd,
      finish, writeChatsStart, writeChatStart, writeChatSlice, writeChatEnd;
    stays_tac.
Qed.

Lemma calls_keep_paths cs :
  forallb (fun c => negb (is_start c)) cs = true ->
  keeps_paths base (calls Q_OS_WIN cs).
Proof.
  induction cs as [|c cs IH]; intros Hcs w io results w' io' Hw Hcalls.
  - injection Hcalls as <- <- <-; split;
      [exact Hw|apply writes_begin_with_refl].
  - cbn [forallb] in Hcs; apply andb_prop in Hcs as [Hc Hcs].
    apply negb_true_iff in Hc.
    apply calls_cons_inv in Hcalls
      as (result & w1 & io1 & results' & Hcall & Hrest & ->).
    destruct (call_keeps_paths c Hc _ _ _ _ _ Hw Hcall) as [Hw1 Hio1].
    destruct (IH Hcs _ _ _ _ _ Hw1 Hrest) as [Hw' Hio'].
    split; [exact Hw'|eapply writes_begin_with_trans; eassumption].
Qed.

End Paths.

Lemma start_paths (settings : Output.Settings)
    (w w' : Output.TextWriter) (io io' : Output.World) (value : bool) :
  Output._chat w = None ->
  start settings w io = Output.Returned value w' io' ->
  paths_begin_with (Output.Settings_path settings) w' /\ io' = io.
Proof.
  intros Hchat; unfold start, Output.bind, Output.this, Output.Expects,
    Output.assign, Output.ret.
  destruct (endsWith _ _); [|discriminate].
  intros [= <- <- <-]; split; [|reflexivity].
  split; [reflexivity|split].
  - intros file [= <-]; eexists; reflexivity.
  - intros file; cbn; rewrite Hchat; discriminate.
Qed.

Lemma session_keeps_paths (Q_OS_WIN : bool) (fmt : Data.Formatters)
    (settings : Output.Settings) (cs : list Call)
    (w w' : Output.TextWriter) (io io' : Output.World)
    (results : list bool) :
  Output._chat w = None ->
  forallb (fun c => negb (is_start c)) cs = true ->
  calls Q_OS_WIN (Start settings :: cs) w io
  = Output.Returned results w' io' ->
  writes_begin_with (Output.Settings_path settings) io io'.
Proof.
  intros Hchat Hcs Hcalls.
  apply calls_cons_inv in Hcalls
    as (result & w1 & io1 & results' & Hcall & Hrest & _).
  cbn [call] in Hcall.
  apply (start_paths settings w w1 io io1 result Hchat) in Hcall
    as [Hw1 ->].
  exact (proj2 (calls_keep_paths Q_OS_WIN _ cs Hcs _ _ _ _ _ Hw1 Hrest)).
Qed.

(** X14. Every path that is written to begins with the path of the
    settings: in a session that starts a writer with no dialog file open
    and does not start it again, the path of every write is the path of the
    settings followed by some string.  (The code puts the relative path
    after the settings path as it is, so this is about the string, not
    about where a path with [..] leads.) *)
Theorem X14_paths_begin_with_the_settings_path
    (Q_OS_WIN : bool) (fmt : Data.Formatters)
    (settings : Output.Settings) (cs : list Call)
    (w w' : Output.TextWriter) (io io' : Output.World)
    (results : list bool) :
  Output._chat w = None ->
  forallb (fun c => negb (is_start c)) cs = true ->
  calls Q_OS_WIN (Start settings :: cs) w io
  = Output.Returned results w' io' ->
  exists new,
    Output.World_calls io' = Output.World_calls io ++ new
    /\ Forall (fun write =>
                 Output.Settings_path settings
                 `prefix_of` Output.WriteCall_path write) new.
Proof. apply session_keeps_paths. Qed.

Lemma X14_paths_begin_with_the_settings_path_witness :
  exists new,
    Output.World_calls
      (after_write (lit "/export/result.txt")
         (lit "Personal photos (2)" ++ [LF; LF]) (fresh_world []))
    = Output.World_calls (fresh_world []) ++ new
    /\ Forall (fun write =>
                 lit "/export/" `prefix_of` Output.WriteCall_path write) new.
Proof.
  exact (X14_paths_begin_with_the_settings_path false Data.plain_formatters
           export_settings
           [WriteUserpicsStart {| Data.UserpicsInfo_count := 2 |}]
           Output.TextWriter_new _ (fresh_world [])
           (after_write (lit "/export/result.txt")
              (lit "Personal photos (2)" ++ [LF; LF]) (fresh_world []))
           [true; true] eq_refl eq_refl eq_refl).
Defined.

Section Lists.

Import Data Output.

Variable Q_OS_WIN : bool.
Context {fmt : Formatters}.

Lemma own_file_then_main file full header w io main :
  _result w = Some main ->
  let outcome :=
    (written <~ writeBlock_local file full;
     if negb (is_Success written.1) then ret false
     else result <~ writeBlock_on _result set_result header;
          ret (is_Success result))%op w io in
  wrote_list_then_header (File_path file) full (File_path main) header io
    outcome
  /\ exists w', writer_after outcome = Some w'
                /\ _dialogsCount w' = _dialogsCount w.
Proof.
  intros Hmain; cbv zeta; unfold bind, wrote_list_then_header.
  destruct (writeBlock_local_after file full w io) as (file' & ->).
  cbn [fst]; destruct (is_Success (next_result io)); cbn [negb].
  - destruct (writeBlock_on_result header w
                (after_write (File_path file) full io) main Hmain)
      as (main' & -> & _).
    unfold ret; cbn; eauto.
  - unfold ret; cbn; eauto.
Qed.

Lemma writeChatsStart_runs data listName fileName w io main :
  _result w = Some main ->
  DialogsInfo_list data <> [] ->
  let outcome := writeChatsStart Q_OS_WIN data listName fileName w io in
  wrote_list_then_header
    (pathWithRelativePath w fileName)
    (JoinList (kLineBreak Q_OS_WIN)
       (map (SerializeDialog Q_OS_WIN) (DialogsInfo_list data)))
    (File_path main)
    (listName ++ lit " (" ++ NumberToString0 (size' (DialogsInfo_list data))
     ++ lit ") - " ++ toUtf8 fileName
     ++ kLineBreak Q_OS_WIN ++ kLineBreak Q_OS_WIN)
    io outcome
  /\ _dialogsCount <$> writer_after outcome
     = Some (int (size' (DialogsInfo_list data))).
Proof.
  intros Hmain Hlist outcome.
  destruct (own_file_then_main
              (fileWithRelativePath w fileName)
              (JoinList (kLineBreak Q_OS_WIN)
                 (map (SerializeDialog Q_OS_WIN) (DialogsInfo_list data)))
              (listName ++ lit " " ++ lit "("
               ++ NumberToString0 (size' (DialogsInfo_list data))
               ++ lit ") - " ++ toUtf8 fileName
               ++ kLineBreak Q_OS_WIN ++ kLineBreak Q_OS_WIN)
              (set_dialogsCount (int (size' (DialogsInfo_list data))) w)
              io main Hmain) as [Hwrote (w' & Hafter & Hcount)].
  cbv zeta in Hwrote, Hafter.
  assert (Hrun : outcome
                 = (written <~ writeBlock_local
                                 (fileWithRelativePath w fileName)
                                 (JoinList (kLineBreak Q_OS_WIN)
                                    (map (SerializeDialog Q_OS_WIN)
                                       (DialogsInfo_list data)));
                    if negb (is_Success written.1) then ret false
                    else result <~ writeBlock_on _result set_result
                                     (listName ++ lit " " ++ lit "("
                                      ++ NumberToString0
                                           (size' (DialogsInfo_list data))
                                      ++ lit ") - " ++ toUtf8 fileName
                                      ++ kLineBreak Q_OS_WIN
                                      ++ kLineBreak Q_OS_WIN);
                         ret (is_Success result))%op
                     (set_dialogsCount
                        (int (size' (DialogsInfo_list data))) w) io).
  { subst outcome; unfold writeChatsStart.
    unfold bind at 1, this; unfold bind at 1, Expects.
    rewrite Hmain; simpl bool_decide; cbv iota.
    rewrite bool_decide_eq_false_2 by exact Hlist.
    reflexivity. }
  rewrite Hrun; split; [exact Hwrote|].
  rewrite Hafter; cbn [fmap option_fmap option_map].
  rewrite Hcount; reflexivity.
Qed.

Lemma writeSessionsList_runs data w io main :
  _result w = Some main ->
  SessionsList_list data <> [] ->
  wrote_list_then_header
    (pathWithRelativePath w (lit "sessions.txt"))
    (JoinList (kLineBreak Q_OS_WIN)
       (map (SerializeSession Q_OS_WIN) (SessionsList_list data)))
    (File_path main)
    (lit "Sessions (" ++ NumberToString0 (size' (SessionsList_list data))
     ++ lit ") - sessions.txt"
     ++ kLineBreak Q_OS_WIN ++ kLineBreak Q_OS_WIN)
    io (writeSessionsList Q_OS_WIN data w io).
Proof.
  intros Hmain Hlist.
  unfold writeSessionsList.
  unfold bind at 1, this; unfold bind at 1, Expects.
  rewrite Hmain; simpl bool_decide; cbv iota.
  rewrite bool_decide_eq_false_2 by exact Hlist.
  match goal with
  | |- context [(written <~ writeBlock_local ?file ?full; _)%op w io] =>
      exact (proj1 (own_file_then_main file full
                      (lit "Sessions " ++ lit "("
                       ++ NumberToString0 (size' (SessionsList_list data))
                       ++ lit ") - sessions.txt"
                       ++ kLineBreak Q_OS_WIN ++ kLineBreak Q_OS_WIN)
                      w io main Hmain))
  end.
Qed.

Lemma writeContactsList_runs data w io main contacts :
  _result w = Some main ->
  ContactsList_list data <> [] ->
  mapM (fun index => ContactsList_list data !! index)
       (SortedContactsIndices data) = Some contacts ->
  wrote_list_then_header
    (pathWithRelativePath w (lit "contacts.txt"))
    (JoinList (kLineBreak Q_OS_WIN)
       (map (SerializeContact Q_OS_WIN) contacts))
    (File_path main)
    (lit "Contacts (" ++ NumberToString0 (size' (ContactsList_list data))
     ++ lit ") - contacts.txt"
     ++ kLineBreak Q_OS_WIN ++ kLineBreak Q_OS_WIN)
    io (writeContactsList Q_OS_WIN data w io).
Proof.
  intros Hmain Hlist Hcontacts.
  unfold writeContactsList.
  unfold bind at 1, this; unfold bind at 1, Expects.
  rewrite Hmain; simpl bool_decide; cbv iota.
  rewrite bool_decide_eq_false_2 by exact Hlist.
  rewrite Hcontacts.
  match goal with
  | |- context [(written <~ writeBlock_local ?file ?full; _)%op w io] =>
      exact (proj1 (own_file_then_main file full
                      (lit "Contacts " ++ lit "("
                       ++ NumberToString0 (size' (ContactsList_list data))
                       ++ lit ") - contacts.txt"
                       ++ kLineBreak Q_OS_WIN ++ kLineBreak Q_OS_WIN)
                      w io main Hmain))
  end.
Qed.

Lemma empty_lists_write_nothing w io main :
  _result w = Some main ->
  writeContactsList Q_OS_WIN {| ContactsList_list := [] |} w io
  = Returned true w io
  /\ writeSessionsList Q_OS_WIN {| SessionsList_list := [] |} w io
     = Returned true w io
  /\ writeDialogsStart Q_OS_WIN {| DialogsInfo_list := [] |} w io
     = Returned true w io
  /\ writeLeftChannelsStart Q_OS_WIN {| DialogsInfo_list := [] |} w io
     = Returned true w io.
Proof.
  intros Hmain.
  unfold writeContactsList, writeSessionsList, writeDialogsStart,
    writeLeftChannelsStart, writeChatsStart, bind, this, Expects.
  rewrite Hmain; simpl bool_decide; cbv iota.
  repeat split.
Qed.

Lemma needs_main_file_faults c w io :
  needs_main_file c = true ->
  _result w = None ->
  call Q_OS_WIN c w io = Faulted.
Proof.
  intros Hc Hmain; destruct c; try discriminate Hc; cbn [call];
    unfold writePersonal, writeUserpicsStart, writeUserpicsSlice,
      writeUserpicsEnd, writeContactsList, writeSessionsList,
      writeDialogsStart, writeLeftChannelsStart, writeChatsStart,
      bind, this, Expects;
    rewrite Hmain; reflexivity.
Qed.

Lemma NameString_not_empty name type : NameString name type <> [].
Proof.
  unfold NameString, isEmpty.
  destruct name as [|b name]; [destruct type|]; discriminate.
Qed.

Lemma TypeString_not_empty type : TypeString type <> [].
Proof. destruct type; discriminate. Qed.

Lemma SerializeDialog_entries dialog :
  SerializeDialog Q_OS_WIN dialog
  = Entry Q_OS_WIN (lit "Name")
      (NameString (DialogInfo_name dialog) (DialogInfo_type dialog))
    ++ Entry Q_OS_WIN (lit "Type") (TypeString (DialogInfo_type dialog))
    ++ Entry Q_OS_WIN (lit "Content")
         (DialogInfo_relativePath dialog ++ lit "messages.txt").
Proof.
  unfold SerializeDialog, SerializeKeyValue; cbn [fold_left].
  rewrite !SerializeKeyValue_step_entry.
  pose proof (NameString_not_empty (DialogInfo_name dialog)
                (DialogInfo_type dialog)) as Hname.
  pose proof (TypeString_not_empty (DialogInfo_type dialog)) as Htype.
  unfold isEmpty, toUtf8.
  destruct (NameString _ _) as [|? ?]; [congruence|].
  destruct (TypeString _) as [|? ?]; [congruence|].
  destruct (DialogInfo_relativePath dialog ++ lit "messages.txt")
    as [|? ?] eqn:Hpath.
  - apply app_eq_nil in Hpath as [_ Hpath]; discriminate Hpath.
  - cbn [app]; rewrite <- !app_assoc; reflexivity.
Qed.

Lemma writePersonal_block data w io main :
  _result w = Some main ->
  let info := User_info (PersonalInfo_user data) in
  let username := User_username (PersonalInfo_user data) in
  let block :=
    lit "Personal information"
    ++ kLineBreak Q_OS_WIN ++ kLineBreak Q_OS_WIN
    ++ OptionalEntry Q_OS_WIN (lit "First name") (ContactInfo_firstName info)
    ++ OptionalEntry Q_OS_WIN (lit "Last name") (ContactInfo_lastName info)
    ++ OptionalEntry Q_OS_WIN (lit "Phone number")
         (FormatPhoneNumber (ContactInfo_phoneNumber info))
    ++ (if isEmpty username then []
        else Entry Q_OS_WIN (lit "Username") (lit "@" ++ username))
    ++ OptionalEntry Q_OS_WIN (lit "Bio") (PersonalInfo_bio data)
    ++ kLineBreak Q_OS_WIN in
  exists main',
    writePersonal Q_OS_WIN data w io
    = Returned (is_Success (next_result io)) (set_result (Some main') w)
        (after_write (File_path main) block io)
    /\ File_path main' = File_path main.
Proof.
  intros Hmain info username block.
  unfold writePersonal, bind, this, Expects.
  rewrite Hmain; simpl bool_decide; cbv iota.
  match goal with
  | |- context [writeBlock_on _result set_result ?serialized w io] =>
      assert (Hblock : serialized = block)
  end.
  { subst block; unfold SerializeKeyValue; cbn [fold_left].
    rewrite !SerializeKeyValue_step_entry; unfold OptionalEntry.
    fold info; fold username; unfold FormatUsername.
    assert (Huser : (if isEmpty (if isEmpty username then username
                                 else lit "@" ++ username)
                     then []
                     else Entry Q_OS_WIN (lit "Username")
                            (if isEmpty username then username
                             else lit "@" ++ username))
                    = if isEmpty username then []
                      else Entry Q_OS_WIN (lit "Username")
                             (lit "@" ++ username)).
    { destruct username; reflexivity. }
    rewrite Huser; cbn [app]; rewrite <- !app_assoc; reflexivity. }
  rewrite Hblock.
  destruct (writeBlock_on_result block w io main Hmain)
    as (main' & -> & Hpath).
  exists main'; split; [reflexivity|exact Hpath].
Qed.

End Lists.

(** X15. The entry of a dialog in the list of chats never drops a field:
    it is a [Name] entry, a [Type] entry and a [Content] entry with the path
    of the messages file, in this order; the name is never empty (a dialog
    without name gets a placeholder for its type). *)
Theorem X15_dialog_entry_is_complete
    (Q_OS_WIN : bool) (dialog : Data.DialogInfo) :
  SerializeDialog Q_OS_WIN dialog
  = Entry Q_OS_WIN (lit "Name")
      (NameString (Data.DialogInfo_name dialog)
         (Data.DialogInfo_type dialog))
    ++ Entry Q_OS_WIN (lit "Type")
         (TypeString (Data.DialogInfo_type dialog))
    ++ Entry Q_OS_WIN (lit "Content")
         (Data.DialogInfo_relativePath dialog ++ lit "messages.txt")
  /\ NameString (Data.DialogInfo_name dialog) (Data.DialogInfo_type dialog)
     <> [].
Proof.
  split; [apply SerializeDialog_entries|apply NameString_not_empty].
Qed.

(** X16. [writeChatsStart] on a list that is not empty writes the entries
    of the dialogs, joined by the line terminator, to the file of the list,
    and only when that write succeeded the line [listName (n) - fileName]
    and two line terminators to the main file; it reports the last write
    it made, and sets [_dialogsCount] to the size of the list either way. *)
Theorem X16_chats_list_then_summary
    (Q_OS_WIN : bool) (data : Data.DialogsInfo)
    (listName : QByteArray) (fileName : QString)
    (w : Output.TextWriter) (io : Output.World) (main : Output.File) :
  Output._result w = Some main ->
  Data.DialogsInfo_list data <> [] ->
  let outcome := writeChatsStart Q_OS_WIN data listName fileName w io in
  wrote_list_then_header
    (pathWithRelativePath w fileName)
    (JoinList (kLineBreak Q_OS_WIN)
       (map (SerializeDialog Q_OS_WIN) (Data.DialogsInfo_list data)))
    (Output.File_path main)
    (listName ++ lit " ("
     ++ Data.NumberToString0 (size' (Data.DialogsInfo_list data))
     ++ lit ") - " ++ toUtf8 fileName
     ++ kLineBreak Q_OS_WIN ++ kLineBreak Q_OS_WIN)
    io outcome
  /\ Output._dialogsCount <$> Output.writer_after outcome
     = Some (int (size' (Data.DialogsInfo_list data))).
Proof. apply writeChatsStart_runs. Qed.

Lemma X16_chats_list_then_summary_witness :
  let outcome :=
    writeChatsStart false two_dialogs (lit "Chats") (lit "chats.txt")
      started_writer (fresh_world [Output.Failure]) in
  wrote_list_then_header
    (lit "/export/chats.txt")
    (JoinList [LF] (map (SerializeDialog false)
                      (Data.DialogsInfo_list two_dialogs)))
    (lit "/export/result.txt")
    (lit "Chats (2) - chats.txt" ++ [LF; LF])
    (fresh_world [Output.Failure]) outcome
  /\ Output._dialogsCount <$> Output.writer_after outcome = Some 2.
Proof.
  exact (X16_chats_list_then_summary false two_dialogs (lit "Chats")
           (lit "chats.txt") started_writer (fresh_world [Output.Failure])
           _ eq_refl ltac:(discriminate)).
Defined.

(** X17. [writeSessionsList] on a list that is not empty writes the
    sessions, joined by the line terminator, to [sessions.txt], and only
    when that write succeeded the line [Sessions (n) - sessions.txt] and two
    line terminators to the main file; it reports the last write it made. *)
Theorem X17_sessions_list_then_summary
    (Q_OS_WIN : bool) (fmt : Data.Formatters) (data : Data.SessionsList)
    (w : Output.TextWriter) (io : Output.World) (main : Output.File) :
  Output._result w = Some main ->
  Data.SessionsList_list data <> [] ->
  wrote_list_then_header
    (pathWithRelativePath w (lit "sessions.txt"))
    (JoinList (kLineBreak Q_OS_WIN)
       (map (SerializeSession Q_OS_WIN) (Data.SessionsList_list data)))
    (Output.File_path main)
    (lit "Sessions ("
     ++ Data.NumberToString0 (size' (Data.SessionsList_list data))
     ++ lit ") - sessions.txt"
     ++ kLineBreak Q_OS_WIN ++ kLineBreak Q_OS_WIN)
    io (writeSessionsList Q_OS_WIN data w io).
Proof. apply writeSessionsList_runs. Qed.

Lemma X17_sessions_list_then_summary_witness :
  wrote_list_then_header
    (lit "/export/sessions.txt")
    (JoinList [LF]
       (map (SerializeSession (fmt := Data.plain_formatters) false)
          [one_session]))
    (lit "/export/result.txt")
    (lit "Sessions (1) - sessions.txt" ++ [LF; LF])
    (fresh_world [])
    (writeSessionsList (fmt := Data.plain_formatters) false
       {| Data.SessionsList_list := [one_session] |}
       started_writer (fresh_world [])).
Proof.
  exact (X17_sessions_list_then_summary false Data.plain_formatters
           {| Data.SessionsList_list := [one_session] |}
           started_writer (fresh_world []) _ eq_refl ltac:(discriminate)).
Defined.

(** X18. [writeContactsList] on a list that is not empty takes the
    contacts in the order of [SortedContactsIndices].  When every index is
    one of the list, it writes the contacts, joined by the line terminator,
    to [contacts.txt], and only when that write succeeded the line
    [Contacts (n) - contacts.txt] and two line terminators to the main
    file, n being the size of the list; it reports the last write it
    made. *)
Theorem X18_contacts_list_then_summary
    (Q_OS_WIN : bool) (fmt : Data.Formatters) (data : Data.ContactsList)
    (w : Output.TextWriter) (io : Output.World) (main : Output.File)
    (contacts : list Data.ContactInfo) :
  Output._result w = Some main ->
  Data.ContactsList_list data <> [] ->
  mapM (fun index => Data.ContactsList_list data !! index)
       (Data.SortedContactsIndices data) = Some contacts ->
  wrote_list_then_header
    (pathWithRelativePath w (lit "contacts.txt"))
    (JoinList (kLineBreak Q_OS_WIN)
       (map (SerializeContact Q_OS_WIN) contacts))
    (Output.File_path main)
    (lit "Contacts ("
     ++ Data.NumberToString0 (size' (Data.ContactsList_list data))
     ++ lit ") - contacts.txt"
     ++ kLineBreak Q_OS_WIN ++ kLineBreak Q_OS_WIN)
    io (writeContactsList Q_OS_WIN data w io).
Proof. apply writeContactsList_runs. Qed.

Lemma X18_contacts_list_then_summary_witness :
  wrote_list_then_header
    (lit "/export/contacts.txt")
    (lit "First name: Ann" ++ [LF] ++ lit "Phone number: +3100000000"
     ++ [LF] ++ lit "Date: 01.01.2018 00:00:00" ++ [LF] ++ [LF]
     ++ lit "(deleted user)" ++ [LF])
    (lit "/export/result.txt")
    (lit "Contacts (2) - contacts.txt" ++ [LF; LF])
    (fresh_world [])
    (writeContactsList (fmt := Data.plain_formatters) false
       {| Data.ContactsList_list := [ann_contact; deleted_contact] |}
       started_writer (fresh_world [])).
Proof.
  exact (X18_contacts_list_then_summary false Data.plain_formatters
           {| Data.ContactsList_list := [ann_contact; deleted_contact] |}
           started_writer (fresh_world []) _
           [ann_contact; deleted_contact] eq_refl ltac:(discriminate)
           eq_refl).
Defined.

(** X19. An empty list is no section: [writeContactsList],
    [writeSessionsList], [writeDialogsStart] and [writeLeftChannelsStart]
    on an empty list return true, write nothing and leave the writer as it
    is ([_dialogsCount] too). *)
Theorem X19_empty_lists_write_nothing
    (Q_OS_WIN : bool) (fmt : Data.Formatters)
    (w : Output.TextWriter) (io : Output.World) (main : Output.File) :
  Output._result w = Some main ->
  writeContactsList Q_OS_WIN {| Data.ContactsList_list := [] |} w io
  = Output.Returned true w io
  /\ writeSessionsList Q_OS_WIN {| Data.SessionsList_list := [] |} w io
     = Output.Returned true w io
  /\ writeDialogsStart Q_OS_WIN {| Data.DialogsInfo_list := [] |} w io
     = Output.Returned true w io
  /\ writeLeftChannelsStart Q_OS_WIN {| Data.DialogsInfo_list := [] |} w io
     = Output.Returned true w io.
Proof. apply empty_lists_write_nothing. Qed.

Lemma X19_empty_lists_write_nothing_witness :
  writeSessionsList (fmt := Data.plain_formatters) false
    {| Data.SessionsList_list := [] |} started_writer
    (fresh_world [Output.Failure])
  = Output.Returned true started_writer (fresh_world [Output.Failure]).
Proof.
  exact (proj1 (proj2 (X19_empty_lists_write_nothing false
                         Data.plain_formatters started_writer
                         (fresh_world [Output.Failure]) _ eq_refl))).
Defined.

(** X20. Before [start] nothing can be written to the main file: on a
    writer whose main file is not open, [writePersonal], the three userpics
    calls, [writeContactsList], [writeSessionsList], [writeDialogsStart] and
    [writeLeftChannelsStart] all fail their first [Expects], whatever their
    data. *)
Theorem X20_no_main_file_no_write
    (Q_OS_WIN : bool) (fmt : Data.Formatters) (c : Call)
    (w : Output.TextWriter) (io : Output.World) :
  needs_main_file c = true ->
  Output._result w = None ->
  call Q_OS_WIN c w io = Output.Faulted.
Proof. apply needs_main_file_faults. Qed.

Lemma X20_no_main_file_no_write_witness :
  call (fmt := Data.plain_formatters) false WriteUserpicsEnd
    Output.TextWriter_new (fresh_world [])
  = Output.Faulted.
Proof.
  exact (X20_no_main_file_no_write false Data.plain_formatters
           WriteUserpicsEnd Output.TextWriter_new (fresh_world [])
           eq_refl eq_refl).
Defined.

(** X21. [writePersonal] makes one write to the main file and reports its
    result: the title and two line terminators, then an entry for each of
    first name, last name, phone number, username and bio that is not
    empty, then a line terminator.  The username is written after an [@];
    a user without username has no [Username] entry (and no bare [@]). *)
Theorem X21_personal_block
    (Q_OS_WIN : bool) (fmt : Data.Formatters) (data : Data.PersonalInfo)
    (w : Output.TextWriter) (io : Output.World) (main : Output.File) :
  Output._result w = Some main ->
  let info := Data.User_info (Data.PersonalInfo_user data) in
  let username := Data.User_username (Data.PersonalInfo_user data) in
  let block :=
    lit "Personal information"
    ++ kLineBreak Q_OS_WIN ++ kLineBreak Q_OS_WIN
    ++ OptionalEntry Q_OS_WIN (lit "First name")
         (Data.ContactInfo_firstName info)
    ++ OptionalEntry Q_OS_WIN (lit "Last name")
         (Data.ContactInfo_lastName info)
    ++ OptionalEntry Q_OS_WIN (lit "Phone number")
         (Data.FormatPhoneNumber (Data.ContactInfo_phoneNumber info))
    ++ (if isEmpty username then []
        else Entry Q_OS_WIN (lit "Username") (lit "@" ++ username))
    ++ OptionalEntry Q_OS_WIN (lit "Bio") (Data.PersonalInfo_bio data)
    ++ kLineBreak Q_OS_WIN in
  exists main',
    writePersonal Q_OS_WIN data w io
    = Output.Returned (Output.is_Success (next_result io))
        (Output.set_result (Some main') w)
        (after_write (Output.File_path main) block io)
    /\ Output.File_path main' = Output.File_path main.
Proof. apply writePersonal_block. Qed.

Lemma X21_personal_block_witness :
  Output.world_after
    (writePersonal (fmt := Data.plain_formatters) false ann_personal
       started_writer (fresh_world []))
  = Some (after_write (lit "/export/result.txt")
            (lit "Personal information" ++ [LF; LF]
             ++ lit "First name: Ann" ++ [LF]
             ++ lit "Phone number: +3100000000" ++ [LF]
             ++ lit "Username: @ann" ++ [LF] ++ [LF])
            (fresh_world [])).
Proof.
  destruct (X21_personal_block false Data.plain_formatters ann_personal
              started_writer (fresh_world []) _ eq_refl)
    as (main' & Hrun & _).
  rewrite Hrun; reflexivity.
Defined.

Section Accepted.

Import Data Output.

Variable Q_OS_WIN : bool.
Context {fmt : Formatters}.
Variable settings : Settings.

Lemma calls_app_returns cs1 cs2 :
  forall w io results1 w1 io1 results2 w2 io2,
    calls Q_OS_WIN cs1 w io = Returned results1 w1 io1 ->
    calls Q_OS_WIN cs2 w1 io1 = Returned results2 w2 io2 ->
    calls Q_OS_WIN (cs1 ++ cs2) w io = Returned (results1 ++ results2) w2 io2.
Proof.
  induction cs1 as [|c cs1 IH];
    intros w io results1 w1 io1 results2 w2 io2 H1 H2.
  - injection H1 as <- <- <-; exact H2.
  - apply calls_cons_inv in H1
      as (result & w' & io' & results' & Hcall & Hrest & ->).
    cbn [app calls]; unfold bind at 1; rewrite Hcall.
    unfold bind at 1; rewrite (IH _ _ _ _ _ _ _ _ Hrest H2); reflexivity.
Qed.

Lemma start_ready w io :
  endsWith (Settings_path settings) "/"%byte = true ->
  _chat w = None ->
  exists w1,
    start settings w io = Returned true w1 io
    /\ between_dialogs settings (_dialogIndex w) (_dialogsCount w) w1.
Proof.
  intros Hpath Hchat; unfold start, bind, this, Expects, assign, ret.
  rewrite Hpath; eexists; split; [reflexivity|].
  repeat split; cbn; eauto.
Qed.

Lemma writeChatsStart_ready data listName fileName index count w io :
  between_dialogs settings index count w ->
  exists result w1 io1,
    writeChatsStart Q_OS_WIN data listName fileName w io
    = Returned result w1 io1
    /\ between_dialogs settings index
         (match DialogsInfo_list data with
          | [] => count
          | _ :: _ => int (size' (DialogsInfo_list data))
          end) w1.
Proof.
  intros (Hs & [main Hmain] & Hchat & Hindex & Hcount).
  unfold writeChatsStart.
  unfold bind at 1, this; unfold bind at 1, Expects.
  rewrite Hmain; simpl bool_decide; cbv iota.
  destruct (DialogsInfo_list data) as [|dialog dialogs] eqn:Hlist.
  - rewrite bool_decide_eq_true_2 by reflexivity.
    eexists _, _, _; split; [reflexivity|].
    repeat split; eauto.
  - rewrite bool_decide_eq_false_2 by discriminate.
    unfold bind at 1, assign; unfold bind.
    match goal with
    | |- context [writeBlock_local ?file ?full ?w1 io] =>
        destruct (writeBlock_local_after file full w1 io) as (file' & ->)
    end.
    cbn [fst]; destruct (is_Success (next_result io)); cbn [negb].
    + match goal with
      | |- context [writeBlock_on _result set_result ?header ?w1 ?io1] =>
          destruct (writeBlock_on_result header w1 io1 main Hmain)
            as (main' & -> & _)
      end.
      eexists _, _, _; split; [reflexivity|].
      repeat split; cbn; eauto.
    + eexists _, _, _; split; [reflexivity|].
      repeat split; cbn; eauto.
Qed.

Lemma writeChatStart_ready data index count w io :
  between_dialogs settings index count w ->
  index < count ->
  exists w1 io1,
    writeChatStart data w io = Returned true w1 io1
    /\ in_dialog settings (int (index + 1)) count w1.
Proof.
  intros (Hs & Hmain & Hchat & Hindex & Hcount) Hlt.
  unfold writeChatStart, bind, this, Expects, assign, note_number, ret.
  rewrite Hchat; simpl bool_decide; cbv iota.
  rewrite Hindex, Hcount, (proj2 (Z.ltb_lt _ _) Hlt).
  eexists _, _; split; [reflexivity|].
  repeat split; cbn; eauto.
Qed.

Lemma writeChatSlice_ready data index count w io :
  in_dialog settings index count w ->
  slice_accepted Q_OS_WIN (Settings_internalLinksDomain settings) data ->
  exists result w1 io1,
    writeChatSlice Q_OS_WIN data w io = Returned result w1 io1
    /\ in_dialog settings index count w1.
Proof.
  intros (Hs & Hmain & [file Hfile] & Hindex & Hcount)
    (Hlist & [outputs Houtputs]).
  rewrite <- Hs in Houtputs.
  rewrite (writeChatSlice_writes Q_OS_WIN data w io file outputs
             Hfile Hlist Houtputs); cbv zeta.
  destruct (File_writeBlock _ _ _) as [[written file'] io1].
  eexists _, _, _; split; [reflexivity|].
  repeat split; cbn; eauto.
Qed.

Lemma writeChatEnd_ready index count w io :
  in_dialog settings index count w ->
  exists w1 io1,
    writeChatEnd w io = Returned true w1 io1
    /\ between_dialogs settings index count w1.
Proof.
  intros (Hs & Hmain & [file Hfile] & Hindex & Hcount).
  rewrite (writeChatEnd_returns w io file Hfile).
  eexists _, _; split; [reflexivity|].
  repeat split; cbn; eauto.
Qed.

Variable startCall : DialogInfo -> Call.
Variable sliceCall : MessagesSlice -> Call.
Variable endCall : Call.
Hypothesis startCall_runs :
  forall data, call Q_OS_WIN (startCall data) = writeChatStart data.
Hypothesis sliceCall_runs :
  forall data, call Q_OS_WIN (sliceCall data) = writeChatSlice Q_OS_WIN data.
Hypothesis endCall_runs : call Q_OS_WIN endCall = writeChatEnd.

Lemma slices_ready slices :
  forall index count w io,
    in_dialog settings index count w ->
    Forall (slice_accepted Q_OS_WIN (Settings_internalLinksDomain settings))
      slices ->
    exists results w1 io1,
      calls Q_OS_WIN (map sliceCall slices) w io = Returned results w1 io1
      /\ in_dialog settings index count w1.
Proof.
  induction slices as [|data slices IH]; intros index count w io Hw Hall.
  - eexists _, _, _; split; [reflexivity|exact Hw].
  - apply Forall_cons in Hall as [Hdata Hall].
    destruct (writeChatSlice_ready data index count w io Hw Hdata)
      as (result & w1 & io1 & Hrun & Hw1).
    destruct (IH index count w1 io1 Hw1 Hall)
      as (results & w2 & io2 & Hrest & Hw2).
    cbn [map calls]; unfold bind at 1.
    rewrite sliceCall_runs, Hrun; unfold bind at 1; rewrite Hrest.
    eexists _, _, _; split; [reflexivity|exact Hw2].
Qed.

Lemma dialogs_ready (dialogs : list (DialogInfo * list MessagesSlice)) :
  forall index count w io,
    between_dialogs settings index count w ->
    0 <= index ->
    (dialogs <> [] -> index + size' dialogs <= count /\ count < 2 ^ 31) ->
    Forall (fun dialog =>
              Forall (slice_accepted Q_OS_WIN
                        (Settings_internalLinksDomain settings)) dialog.2)
      dialogs ->
    exists results w1 io1,
      calls Q_OS_WIN
        (flat_map (fun dialog =>
                     startCall dialog.1
                     :: map sliceCall dialog.2 ++ [endCall]) dialogs) w io
      = Returned results w1 io1
      /\ between_dialogs settings (index + size' dialogs) count w1.
Proof.
  induction dialogs as [|dialog dialogs IH];
    intros index count w io Hw Hpos Hroom Hall.
  - eexists _, _, _; split; [reflexivity|].
    unfold size'; cbn [length]; rewrite Z.add_0_r; exact Hw.
  - apply Forall_cons in Hall as [Hslices Hall].
    destruct (Hroom ltac:(discriminate)) as [Hle Hcount].
    unfold size' in Hle; cbn [length] in Hle.
    destruct (writeChatStart_ready dialog.1 index count w io Hw ltac:(lia))
      as (w1 & io1 & Hstart & Hw1).
    rewrite int_small in Hw1 by lia.
    destruct (slices_ready dialog.2 _ _ w1 io1 Hw1 Hslices)
      as (results2 & w2 & io2 & Hrun2 & Hw2).
    destruct (writeChatEnd_ready _ _ w2 io2 Hw2)
      as (w3 & io3 & Hend & Hw3).
    destruct (IH (index + 1) count w3 io3 Hw3 ltac:(lia)) as
      (results4 & w4 & io4 & Hrest & Hw4); [|exact Hall|].
    { intros _; unfold size'; split; lia. }
    assert (Hlast : calls Q_OS_WIN [endCall] w2 io2
                    = Returned [true] w3 io3).
    { cbn [calls]; unfold bind, ret; rewrite endCall_runs, Hend.
      reflexivity. }
    pose proof (calls_app_returns _ _ _ _ _ _ _ _ _ _ Hrun2 Hlast) as Hone.
    assert (Hblock : calls Q_OS_WIN
                       (startCall dialog.1
                        :: map sliceCall dialog.2 ++ [endCall]) w io
                     = Returned (true :: results2 ++ [true]) w3 io3).
    { cbn [calls]; unfold bind at 1; rewrite startCall_runs, Hstart.
      unfold bind at 1; rewrite Hone; reflexivity. }
    cbn [flat_map].
    rewrite (calls_app_returns _ _ _ _ _ _ _ _ _ _ Hblock Hrest).
    eexists _, _, _; split; [reflexivity|].
    replace (index + size' (dialog :: dialogs))
      with (index + 1 + size' dialogs)
      by (unfold size'; cbn [length]; lia).
    exact Hw4.
Qed.

End Accepted.

Section Phases.

Import Data Output.

Variable Q_OS_WIN : bool.
Context {fmt : Formatters}.

Lemma phase_accepted (startCall : DialogInfo -> Call)
    (sliceCall : MessagesSlice -> Call) (endCall : Call)
    (listCall : DialogsInfo -> Call) (lastCall : Call)
    (listName : QByteArray) (fileName : QString)
    settings dialogs w io :
  (forall data, call Q_OS_WIN (startCall data) = writeChatStart data) ->
  (forall data,
     call Q_OS_WIN (sliceCall data) = writeChatSlice Q_OS_WIN data) ->
  call Q_OS_WIN endCall = writeChatEnd ->
  (forall data,
     call Q_OS_WIN (listCall data)
     = writeChatsStart Q_OS_WIN data listName fileName) ->
  call Q_OS_WIN lastCall = ret true ->
  endsWith (Settings_path settings) "/"%byte = true ->
  _chat w = None ->
  _dialogIndex w = 0 ->
  size' dialogs < 2 ^ 31 ->
  Forall (fun dialog =>
            Forall (slice_accepted Q_OS_WIN
                      (Settings_internalLinksDomain settings)) dialog.2)
    dialogs ->
  exists results w' io',
    calls Q_OS_WIN
      (Start settings
       :: (listCall {| DialogsInfo_list := map fst dialogs |}
           :: flat_map (fun dialog =>
                          startCall dialog.1
                          :: map sliceCall dialog.2 ++ [endCall]) dialogs
           ++ [lastCall])
       ++ [Finish]) w io
    = Returned results w' io'
    /\ _dialogIndex w' = size' dialogs
    /\ _chat w' = None.
Proof.
  intros HstartCall HsliceCall HendCall HlistCall HlastCall
    Hpath Hchat Hindex Hsize Hall.
  destruct (start_ready settings w io Hpath Hchat) as (w1 & Hstart & Hw1).
  rewrite Hindex in Hw1.
  destruct (writeChatsStart_ready Q_OS_WIN settings
              {| DialogsInfo_list := map fst dialogs |} listName fileName
              _ _ w1 io Hw1) as (result2 & w2 & io2 & Hlist & Hw2).
  cbn [DialogsInfo_list] in Hw2.
  destruct (dialogs_ready Q_OS_WIN settings startCall sliceCall endCall
              HstartCall HsliceCall HendCall dialogs _ _ w2 io2 Hw2
              ltac:(lia)) as (results3 & w3 & io3 & Hdialogs & Hw3);
    [|exact Hall|].
  { intros Hne; destruct dialogs as [|dialog dialogs']; [congruence|].
    cbn [map]; unfold size' in *; cbn [length] in *.
    rewrite length_map, int_small by lia; lia. }
  assert (Htail : calls Q_OS_WIN [lastCall; Finish] w3 io3
                  = Returned [true; true] w3 io3).
  { cbn [calls call]; unfold bind at 1; rewrite HlastCall.
    unfold finish, bind, ret; reflexivity. }
  pose proof (calls_app_returns Q_OS_WIN _ _ _ _ _ _ _ _ _ _
                Hdialogs Htail) as Hrest.
  exists (true :: result2 :: results3 ++ [true; true]), w3, io3.
  split.
  - cbn [calls app]; unfold bind at 1.
    change (call Q_OS_WIN (Start settings)) with (start settings).
    rewrite Hstart; unfold bind at 1.
    rewrite <- app_assoc; cbn [app].
    cbn [calls]; unfold bind at 1; rewrite HlistCall, Hlist.
    unfold bind at 1; rewrite Hrest; reflexivity.
  - destruct Hw3 as (_ & _ & Hchat3 & Hindex3 & _).
    split; [rewrite Hindex3; lia|exact Hchat3].
Qed.

Lemma each_phase_accepted settings dialogs w io :
  endsWith (Settings_path settings) "/"%byte = true ->
  _chat w = None ->
  _dialogIndex w = 0 ->
  size' dialogs < 2 ^ 31 ->
  Forall (fun dialog =>
            Forall (slice_accepted Q_OS_WIN
                      (Settings_internalLinksDomain settings)) dialog.2)
    dialogs ->
  (exists results w' io',
     calls Q_OS_WIN (Start settings :: dialogs_phase dialogs ++ [Finish])
       w io
     = Returned results w' io'
     /\ _dialogIndex w' = size' dialogs /\ _chat w' = None)
  /\ (exists results w' io',
        calls Q_OS_WIN
          (Start settings :: left_channels_phase dialogs ++ [Finish]) w io
        = Returned results w' io'
        /\ _dialogIndex w' = size' dialogs /\ _chat w' = None).
Proof.
  intros Hpath Hchat Hindex Hsize Hall; split.
  - exact (phase_accepted WriteDialogStart WriteDialogSlice WriteDialogEnd
             WriteDialogsStart WriteDialogsEnd (lit "Chats")
             (lit "chats.txt") settings dialogs w io
             (fun _ => eq_refl) (fun _ => eq_refl) eq_refl
             (fun _ => eq_refl) eq_refl Hpath Hchat Hindex Hsize Hall).
  - exact (phase_accepted WriteLeftChannelStart WriteLeftChannelSlice
             WriteLeftChannelEnd WriteLeftChannelsStart
             WriteLeftChannelsEnd (lit "Left chats")
             (lit "left_chats.txt") settings dialogs w io
             (fun _ => eq_refl) (fun _ => eq_refl) eq_refl
             (fun _ => eq_refl) eq_refl Hpath Hchat Hindex Hsize Hall).
Qed.

End Phases.

(** X22. Each group of dialogs alone is accepted: after [start] with a
    path that ends with a slash, on a writer with no dialog open and the
    dialog index at zero, the calls of a dialogs group (or of a
    left-channels group) for any list of fewer than 2^31 dialogs, each with
    any number of slices that have a message and whose messages can be
    serialized, all return: no [Expects] fails.  At the end the index is
    the number of dialogs and no dialog is open. *)
Theorem X22_each_group_alone_is_accepted
    (Q_OS_WIN : bool) (fmt : Data.Formatters)
    (settings : Output.Settings)
    (dialogs : list (Data.DialogInfo * list Data.MessagesSlice))
    (w : Output.TextWriter) (io : Output.World) :
  endsWith (Output.Settings_path settings) "/"%byte = true ->
  Output._chat w = None ->
  Output._dialogIndex w = 0 ->
  size' dialogs < 2 ^ 31 ->
  Forall (fun dialog =>
            Forall (slice_accepted Q_OS_WIN
                      (Output.Settings_internalLinksDomain settings))
              dialog.2)
    dialogs ->
  (exists results w' io',
     calls Q_OS_WIN (Start settings :: dialogs_phase dialogs ++ [Finish])
       w io
     = Output.Returned results w' io'
     /\ Output._dialogIndex w' = size' dialogs /\ Output._chat w' = None)
  /\ (exists results w' io',
        calls Q_OS_WIN
          (Start settings :: left_channels_phase dialogs ++ [Finish]) w io
        = Output.Returned results w' io'
        /\ Output._dialogIndex w' = size' dialogs
        /\ Output._chat w' = None).
Proof. apply each_phase_accepted. Qed.

Lemma X22_each_group_alone_is_accepted_witness :
  let dialogs :=
    [(personal_dialog "ann" true, [slice_of [plain_message]]);
     (personal_dialog "bo" false, [])] in
  exists results w' io',
    calls (fmt := Data.plain_formatters) false
      (Start export_settings :: dialogs_phase dialogs ++ [Finish])
      Output.TextWriter_new (fresh_world [])
    = Output.Returned results w' io'
    /\ Output._dialogIndex w' = size' dialogs /\ Output._chat w' = None.
Proof.
  intros dialogs.
  refine (proj1 (X22_each_group_alone_is_accepted false
                   Data.plain_formatters export_settings dialogs
                   Output.TextWriter_new (fresh_world [])
                   eq_refl eq_refl eq_refl eq_refl _)).
  repeat constructor; [discriminate|].
  eexists; vm_compute; reflexivity.
Defined.

(** X23. A true result can be trusted for every call but the end of a
    dialog: when a call other than [writeDialogEnd] and
    [writeLeftChannelEnd] returns true, every write it made to the sink
    succeeded. *)
Theorem X23_true_means_written
    (Q_OS_WIN : bool) (fmt : Data.Formatters) (c : Call)
    (w w' : Output.TextWriter) (io io' : Output.World) :
  is_chat_end c = false ->
  call Q_OS_WIN c w io = Output.Returned true w' io' ->
  all_writes_succeeded io io'.
Proof. apply other_calls_report_failure. Qed.

Lemma X23_true_means_written_witness :
  all_writes_succeeded (fresh_world [])
    (after_write (lit "/export/result.txt")
       (lit "Personal photos (2)" ++ [LF; LF]) (fresh_world [])).
Proof.
  exact (X23_true_means_written false Data.plain_formatters
           (WriteUserpicsStart {| Data.UserpicsInfo_count := 2 |})
           started_writer _ (fresh_world [])
           (after_write (lit "/export/result.txt")
              (lit "Personal photos (2)" ++ [LF; LF]) (fresh_world []))
           eq_refl eq_refl).
Defined.

(** X24. A session with both groups never runs to its end: whenever the
    dialogs group and the left-channels group both have a dialog (fewer
    than 2^31 each), the session on a new writer does not return: one of
    its calls fails an [Expects], whatever the settings, the slices and the
    answers of the sink. *)
Theorem X24_both_groups_always_fault
    (Q_OS_WIN : bool) (fmt : Data.Formatters)
    (settings : Output.Settings)
    (dialogs left : list (Data.DialogInfo * list Data.MessagesSlice))
    (io : Output.World) :
  dialogs <> [] ->
  left <> [] ->
  size' dialogs < 2 ^ 31 ->
  size' left < 2 ^ 31 ->
  calls Q_OS_WIN (session settings dialogs left) Output.TextWriter_new io
  = Output.Faulted.
Proof. apply session_with_both_groups_faults. Qed.

Lemma X24_both_groups_always_fault_witness :
  calls (fmt := Data.plain_formatters) false
    (session export_settings
       [(personal_dialog "ann" true, [slice_of [plain_message]]);
        (personal_dialog "bo" false, [])]
       [(personal_dialog "news" false, [])])
    Output.TextWriter_new (fresh_world [])
  = Output.Faulted.
Proof.
  apply (X24_both_groups_always_fault false Data.plain_formatters
           export_settings
           [(personal_dialog "ann" true, [slice_of [plain_message]]);
            (personal_dialog "bo" false, [])]
           [(personal_dialog "news" false, [])] (fresh_world []));
    [discriminate|discriminate|reflexivity|reflexivity].
Defined.
